(** * ConectaN: board model, line detector and AI strategy of [main.py]

    Shallow embedding of the game logic of [src/main.py] and the proofs of
    the properties its specification states about it.

    Modelling choices, all taken from the source:
    - a board ([tablero]) is a Python list of rows, each row a list of
      integers: [list (list Z)].  Rows are separate objects (that is how
      [crear_tablero] builds them), so a write to one row touches no other;
    - indexing a list out of range raises [IndexError]; a computation
      therefore yields a [result]: a value, a raised exception, or
      [Diverge] for a [while] loop that never ends;
    - the functions that assign into the board ([colocar_ficha],
      [fichas_en_linea], and [ia_nivel_2] which calls the latter) pass the
      board as explicit state: they return the outcome together with the
      board as it stands when the call ends, also when it ends by an
      exception.  The others contain no assignment to the board and are
      functions of it;
    - [random.choice] draws from an explicit [seed]. *)

From Stdlib Require Import ZArith Lia.
From stdpp Require Import base tactics option list sorting strings pretty.

Local Open Scope Z_scope.

(** ** Constants *)

Definition CASILLA_VACIA : Z := 0.
Definition FICHA_CIRCULO : Z := 1.
Definition FICHA_EQUIS : Z := 2.

Abbreviation tablero := (list (list Z)) (only parsing).

(** ** Outcomes of a computation *)

Inductive exn : Type := IndexError.

Inductive result (A : Type) : Type :=
  | Ok (a : A)
  | Raise (e : exn)
  | Diverge.

Arguments Ok {A} a.
Arguments Raise {A} e.
Arguments Diverge {A}.

#[global] Instance result_ret : MRet result := fun A a => Ok a.
#[global] Instance result_bind : MBind result := fun A B k m =>
  match m with
  | Ok a => k a
  | Raise e => Raise e
  | Diverge => Diverge
  end.

(** Computations that may assign into the board. *)
Definition M (A : Type) : Type := tablero -> result A * tablero.

#[global] Instance M_ret : MRet M := fun A a t => (Ok a, t).
#[global] Instance M_bind : MBind M := fun A B k m t =>
  match m t with
  | (Ok a, t') => k a t'
  | (Raise e, t') => (Raise e, t')
  | (Diverge, t') => (Diverge, t')
  end.

(** A computation that only reads the board. *)
Definition leer {A : Type} (r : tablero -> result A) : M A :=
  fun t => (r t, t).

(** ** Python lists *)

(** [l[i]]: a negative index counts from the end. *)
Definition norm_index (len i : Z) : Z := if i <? 0 then i + len else i.

Definition getitem {A : Type} (l : list A) (i : Z) : result A :=
  let j := norm_index (Z.of_nat (length l)) i in
  if j <? 0 then Raise IndexError
  else match l !! Z.to_nat j with
       | Some x => Ok x
       | None => Raise IndexError
       end.

(** [l[i] = v]. *)
Definition setitem {A : Type} (l : list A) (i : Z) (v : A) : result (list A) :=
  let j := norm_index (Z.of_nat (length l)) i in
  if j <? 0 then Raise IndexError
  else if j <? Z.of_nat (length l) then Ok (<[Z.to_nat j := v]> l)
  else Raise IndexError.

(** [tablero[fila][columna]]. *)
Definition getitem2 (t : tablero) (fila columna : Z) : result Z :=
  r ← getitem t fila; getitem r columna.

(** [tablero[fila][columna] = v]: the row object is fetched, then updated
    in place. *)
Definition setitem2 (t : tablero) (fila columna v : Z) : result tablero :=
  r ← getitem t fila; r' ← setitem r columna v; setitem t fila r'.

Definition escribir (fila columna v : Z) : M unit :=
  fun t => match setitem2 t fila columna v with
           | Ok t' => (Ok tt, t')
           | Raise e => (Raise e, t)
           | Diverge => (Diverge, t)
           end.

(** [range(n)] and [range(n - 1, -1, -1)]. *)
Definition rango (n : nat) : list Z := Z.of_nat <$> seq 0 n.
Definition rango_desc (n : nat) : list Z := reverse (rango n).

(** [random.choice(l)]: the element at the drawn position; an empty list
    raises [IndexError]. *)
Definition random_choice (seed : nat) (l : list Z) : result Z :=
  match l with
  | [] => Raise IndexError
  | _ :: _ => getitem l (Z.of_nat (seed `mod` length l)%nat)
  end.

(** ** Board management *)

(** The arguments of [crear_tablero] as Python values: an [int] or any
    other object ([isinstance(x, int)] fails on the latter). *)
Inductive pyval : Type :=
  | PyInt (z : Z)
  | PyOtro.

(** [None] is the failure value of the source. *)
Definition crear_tablero (filas columnas : pyval) : option tablero :=
  match filas, columnas with
  | PyInt f, PyInt c =>
      if (f <? 6) || (c <? 7) then None
      else Some (replicate (Z.to_nat f) (replicate (Z.to_nat c) CASILLA_VACIA))
  | _, _ => None
  end.

Definition ficha_valida (ficha : Z) : bool :=
  (ficha =? FICHA_CIRCULO) || (ficha =? FICHA_EQUIS).

(** [columna < 0 or columna >= len(tablero[0])]. *)
Definition fuera_de_rango (fila0 : list Z) (columna : Z) : bool :=
  (columna <? 0) || (Z.of_nat (length fila0) <=? columna).

(** The loop of [colocar_ficha] over the rows still to visit. *)
Fixpoint colocar_bucle (ficha columna : Z) (fs : list Z) : M bool :=
  match fs with
  | [] => mret false
  | fila :: fs' =>
      x ← leer (fun t => getitem2 t fila columna);
      if x =? CASILLA_VACIA then
        _ ← escribir fila columna ficha; mret true
      else colocar_bucle ficha columna fs'
  end.

Definition colocar_ficha (t : tablero) (ficha columna : Z) : result bool * tablero :=
  match t with
  | [] => (Ok false, t)
  | fila0 :: _ =>
      if fuera_de_rango fila0 columna then (Ok false, t)
      else if negb (ficha_valida ficha) then (Ok false, t)
      else colocar_bucle ficha columna (rango_desc (length t)) t
  end.

(** ** Line detection *)

(** The [while] loop of [contar_fichas_direccion]; [fuel] bounds the
    number of tests of its condition. *)
Fixpoint contar_bucle (fuel : nat) (t : tablero) (filas columnas : Z)
    (ficha dir_fila dir_col fila_actual col_actual contador : Z) : result Z :=
  match fuel with
  | O => Diverge
  | S fuel' =>
      if (0 <=? fila_actual) && (fila_actual <? filas) &&
         (0 <=? col_actual) && (col_actual <? columnas)
      then
        x ← getitem2 t fila_actual col_actual;
        if x =? ficha then
          contar_bucle fuel' t filas columnas ficha dir_fila dir_col
            (fila_actual + dir_fila) (col_actual + dir_col) (contador + 1)
        else Ok contador
      else Ok contador
  end.

(** The loop visits pairwise different cells of the grid when the direction
    is not (0, 0), so its condition is tested at most
    [max filas columnas + 1] times; with direction (0, 0) it either stops at
    the first test or never.  The fuel given here is therefore exhausted
    exactly when the source loops for ever. *)
Definition contar_fichas_direccion (t : tablero)
    (fila columna ficha dir_fila dir_col : Z) : result Z :=
  match t with
  | [] => Ok 0
  | fila0 :: _ =>
      contar_bucle (S (length t + length fila0)) t
        (Z.of_nat (length t)) (Z.of_nat (length fila0))
        ficha dir_fila dir_col (fila + dir_fila) (columna + dir_col) 0
  end.

Definition direcciones : list (Z * Z) := [(0, 1); (1, 0); (1, 1); (1, -1)].

(** [1 + countRun(forward) + countRun(backward)]. *)
Definition total_direccion (t : tablero) (fila columna ficha : Z)
    (d : Z * Z) : result Z :=
  a ← contar_fichas_direccion t fila columna ficha d.1 d.2;
  b ← contar_fichas_direccion t fila columna ficha (- d.1) (- d.2);
  mret (1 + a + b).

(** Anchor search of [comprobar_linea]: first row, top to bottom, whose cell
    is occupied; -1 when there is none. *)
Fixpoint primera_ocupada (t : tablero) (columna : Z) (fs : list Z) : result Z :=
  match fs with
  | [] => Ok (-1)
  | f :: fs' =>
      x ← getitem2 t f columna;
      if x =? CASILLA_VACIA then primera_ocupada t columna fs' else Ok f
  end.

Fixpoint comprobar_direcciones (t : tablero) (fila columna ficha n : Z)
    (ds : list (Z * Z)) : result bool :=
  match ds with
  | [] => Ok false
  | d :: ds' =>
      total ← total_direccion t fila columna ficha d;
      if n <=? total then Ok true
      else comprobar_direcciones t fila columna ficha n ds'
  end.

Definition comprobar_linea (t : tablero) (columna numero_fichas_linea : Z)
    : result bool :=
  match t with
  | [] => Ok false
  | fila0 :: _ =>
      if fuera_de_rango fila0 columna then Ok false
      else if numero_fichas_linea <? 1 then Ok false
      else
        fila ← primera_ocupada t columna (rango (length t));
        if fila =? -1 then Ok false
        else
          ficha ← getitem2 t fila columna;
          comprobar_direcciones t fila columna ficha numero_fichas_linea
            direcciones
  end.

(** Landing-row search of [fichas_en_linea]: first row, bottom to top, whose
    cell is empty; -1 when there is none. *)
Fixpoint primera_libre (t : tablero) (columna : Z) (fs : list Z) : result Z :=
  match fs with
  | [] => Ok (-1)
  | f :: fs' =>
      x ← getitem2 t f columna;
      if x =? CASILLA_VACIA then Ok f else primera_libre t columna fs'
  end.

Fixpoint maximo_direcciones (t : tablero) (fila columna ficha : Z)
    (ds : list (Z * Z)) (maximo : Z) : result Z :=
  match ds with
  | [] => Ok maximo
  | d :: ds' =>
      total ← total_direccion t fila columna ficha d;
      maximo_direcciones t fila columna ficha ds' (Z.max maximo total)
  end.

Definition fichas_en_linea (t : tablero) (ficha columna : Z) : result Z * tablero :=
  match t with
  | [] => (Ok 0, t)
  | fila0 :: _ =>
      if fuera_de_rango fila0 columna then (Ok 0, t)
      else if negb (ficha_valida ficha) then (Ok 0, t)
      else
        (fila ← leer (fun t => primera_libre t columna (rango_desc (length t)));
         if fila =? -1 then mret 0
         else
           _ ← escribir fila columna ficha;
           maximo ← leer (fun t =>
             maximo_direcciones t fila columna ficha direcciones 0);
           _ ← escribir fila columna CASILLA_VACIA;
           mret maximo) t
  end.

Definition hay_casillas_libres (t : tablero) : bool :=
  existsb (fun fila => existsb (Z.eqb CASILLA_VACIA) fila) t.

(** ** Column helpers *)

Definition columna_esta_disponible (t : tablero) (columna : Z) : result bool :=
  match t with
  | [] => Ok false
  | fila0 :: _ =>
      if fuera_de_rango fila0 columna then Ok false
      else x ← getitem2 t 0 columna; mret (x =? CASILLA_VACIA)
  end.

(** The comprehension [[col for col in cols if columna_esta_disponible(..)]]. *)
Fixpoint filtrar_disponibles (t : tablero) (cols : list Z) : result (list Z) :=
  match cols with
  | [] => Ok nil
  | col :: cols' =>
      b ← columna_esta_disponible t col;
      rest ← filtrar_disponibles t cols';
      mret (if (b : bool) then col :: rest else rest)
  end.

Definition obtener_columnas_disponibles (t : tablero) : result (list Z) :=
  match t with
  | [] => Ok nil
  | fila0 :: _ => filtrar_disponibles t (rango (length fila0))
  end.

(** ** Artificial intelligence *)

Definition ia_nivel_1 (seed : nat) (t : tablero) : result Z :=
  columnas_disponibles ← obtener_columnas_disponibles t;
  match columnas_disponibles with
  | [] => mret (-1)
  | _ :: _ => random_choice seed columnas_disponibles
  end.

(** The loop of rules 1 and 2: the first column whose simulated line reaches
    [n]; [None] when the loop ends without returning. *)
Fixpoint primera_con_umbral (ficha n : Z) (cols : list Z) : M (option Z) :=
  match cols with
  | [] => mret None
  | col :: cols' =>
      fichas ← (fun t => fichas_en_linea t ficha col);
      if n <=? fichas then mret (Some col)
      else primera_con_umbral ficha n cols'
  end.

(** The loop of rule 3, on the pair [(mejor_columna, max_fichas)]. *)
Fixpoint maximizar (ficha : Z) (cols mejor_columna : list Z) (max_fichas : Z)
    : M (list Z * Z) :=
  match cols with
  | [] => mret (mejor_columna, max_fichas)
  | col :: cols' =>
      fichas ← (fun t => fichas_en_linea t ficha col);
      if max_fichas <? fichas then maximizar ficha cols' [col] fichas
      else if fichas =? max_fichas then
        maximizar ficha cols' (mejor_columna ++ [col]) max_fichas
      else maximizar ficha cols' mejor_columna max_fichas
  end.

(** The [return] statement of [ia_nivel_2] that produced the move. *)
Inductive regla : Type :=
  | SinMovimiento
  | Ganar
  | Bloquear
  | Maximizar
  | Aleatorio.

(** [ia_nivel_2], its result labelled with the rule that returned it. *)
Definition ia_nivel_2_regla (seed : nat) (t : tablero)
    (ficha_ia ficha_jugador numero_fichas_linea : Z)
    : result (regla * Z) * tablero :=
  (columnas_disponibles ← leer obtener_columnas_disponibles;
   match columnas_disponibles with
   | [] => mret (SinMovimiento, -1)
   | _ :: _ =>
       g ← primera_con_umbral ficha_ia numero_fichas_linea columnas_disponibles;
       match g with
       | Some col => mret (Ganar, col)
       | None =>
           b ← primera_con_umbral ficha_jugador numero_fichas_linea
                 columnas_disponibles;
           match b with
           | Some col => mret (Bloquear, col)
           | None =>
               r ← maximizar ficha_ia columnas_disponibles [] 0;
               if negb (bool_decide (r.1 = [])) && (0 <? r.2) then
                 col ← leer (fun _ => random_choice seed r.1);
                 mret (Maximizar, col)
               else
                 col ← leer (fun _ => random_choice seed columnas_disponibles);
                 mret (Aleatorio, col)
           end
       end
   end) t.

Definition result_map {A B : Type} (f : A -> B) (r : result A) : result B :=
  match r with
  | Ok a => Ok (f a)
  | Raise e => Raise e
  | Diverge => Diverge
  end.

Definition ia_nivel_2 (seed : nat) (t : tablero)
    (ficha_ia ficha_jugador numero_fichas_linea : Z) : result Z * tablero :=
  let r := ia_nivel_2_regla seed t ficha_ia ficha_jugador numero_fichas_linea in
  (result_map snd r.1, r.2).

(** ** Vocabulary of the specification *)

Definition filas (t : tablero) : Z := Z.of_nat (length t).
Definition columnas (t : tablero) : Z := Z.of_nat (length (default [] (head t))).

(** A board is a grid: every row is as long as the first one. *)
Definition rectangular (t : tablero) : Prop :=
  Forall (fun fila => length fila = length (default [] (head t))) t.

#[global] Instance rectangular_dec t : Decision (rectangular t).
Proof. unfold rectangular. apply _. Defined.

(** The content of a cell of the grid, [None] outside of it. *)
Definition celda (t : tablero) (fila columna : Z) : option Z :=
  if (fila <? 0) || (columna <? 0) then None
  else r ← t !! Z.to_nat fila; r !! Z.to_nat columna.

(** The board with one cell replaced. *)
Definition poner (t : tablero) (fila columna v : Z) : tablero :=
  alter (fun r => <[Z.to_nat columna := v]> r) (Z.to_nat fila) t.

(** Cell [i] steps away from (fila, columna) along (df, dc) holds [ficha]. *)
Definition en_racha (t : tablero) (fila columna ficha df dc i : Z) : Prop :=
  celda t (fila + i * df) (columna + i * dc) = Some ficha.

(** [lo..hi] are the offsets of the maximal run of [ficha] through
    (fila, columna) along the axis (df, dc). *)
Definition racha_maxima (t : tablero) (fila columna ficha df dc lo hi : Z) : Prop :=
  lo <= 0 <= hi /\
  (forall i, lo <= i <= hi -> en_racha t fila columna ficha df dc i) /\
  ~ en_racha t fila columna ficha df dc (lo - 1) /\
  ~ en_racha t fila columna ficha df dc (hi + 1).

(** Row [fila] is the topmost occupied cell of the column. *)
Definition ancla (t : tablero) (columna fila : Z) : Prop :=
  (exists x, celda t fila columna = Some x /\ x <> CASILLA_VACIA) /\
  forall f, 0 <= f < fila -> celda t f columna = Some CASILLA_VACIA.

(** Row [fila] is the lowest empty cell of the column. *)
Definition fila_de_caida (t : tablero) (columna fila : Z) : Prop :=
  celda t fila columna = Some CASILLA_VACIA /\
  forall f, fila < f < filas t -> celda t f columna <> Some CASILLA_VACIA.

Definition columna_vacia (t : tablero) (columna : Z) : Prop :=
  forall f, 0 <= f < filas t -> celda t f columna = Some CASILLA_VACIA.

Definition columna_llena (t : tablero) (columna : Z) : Prop :=
  forall f, celda t f columna <> Some CASILLA_VACIA.

(** (f, c) is within the dimensions of the board. *)
Definition dentro (t : tablero) (f c : Z) : bool :=
  (0 <=? f) && (f <? filas t) && (0 <=? c) && (c <? columnas t).

(** Bound on the number of cells the loop of [contar_fichas_direccion] can
    still visit from (f, c) when it moves by (df, dc). *)
Definition medida (t : tablero) (df dc f c : Z) : Z :=
  if dentro t f c then
    if 0 <? df then filas t - f
    else if df <? 0 then f + 1
    else if 0 <? dc then columnas t - c
    else c + 1
  else 0.

(** Dropping [ficha] in [columna] would make a line of at least [n]. *)
Definition alcanza (t : tablero) (ficha n columna : Z) : Prop :=
  exists v, (fichas_en_linea t ficha columna).1 = Ok v /\ n <= v.

(** The top cell of the column is within the board and empty. *)
Definition disponible (t : tablero) (columna : Z) : Prop :=
  0 <= columna < columnas t /\ celda t 0 columna = Some CASILLA_VACIA.

(** What may happen to a cell: it keeps its content, or it was empty and
    receives a piece. *)
Definition transicion (x y : option Z) : Prop :=
  y = x \/
  (x = Some CASILLA_VACIA /\ (y = Some FICHA_CIRCULO \/ y = Some FICHA_EQUIS)).

Definition evoluciona (t t' : tablero) : Prop :=
  forall f c, transicion (celda t f c) (celda t' f c).

(** A computation that lets the board evolve only in that way. *)
Definition conservador {A : Type} (m : M A) : Prop :=
  forall t, evoluciona t (m t).2.

(** ** The core operations, as the orchestrator may issue them *)

Inductive operacion : Type :=
  | OpColocar (ficha columna : Z)
  | OpContar (fila columna ficha dir_fila dir_col : Z)
  | OpComprobar (columna numero_fichas_linea : Z)
  | OpFichasEnLinea (ficha columna : Z)
  | OpHayLibres
  | OpDisponible (columna : Z)
  | OpColumnasDisponibles
  | OpIA1 (seed : nat)
  | OpIA2 (seed : nat) (ficha_ia ficha_jugador numero_fichas_linea : Z).

(** The board an operation leaves behind. *)
Definition ejecutar (t : tablero) (op : operacion) : tablero :=
  match op with
  | OpColocar ficha columna => (colocar_ficha t ficha columna).2
  | OpFichasEnLinea ficha columna => (fichas_en_linea t ficha columna).2
  | OpIA2 seed ia jug n => (ia_nivel_2 seed t ia jug n).2
  | OpContar _ _ _ _ _ | OpComprobar _ _ | OpHayLibres | OpDisponible _
  | OpColumnasDisponibles | OpIA1 _ => t
  end.

Definition ejecutar_todas (t : tablero) (ops : list operacion) : tablero :=
  foldl ejecutar t ops.

(** The operations that only query the board. *)
Definition es_consulta (op : operacion) : bool :=
  match op with
  | OpColocar _ _ | OpFichasEnLinea _ _ | OpIA2 _ _ _ _ => false
  | OpContar _ _ _ _ _ | OpComprobar _ _ | OpHayLibres | OpDisponible _
  | OpColumnasDisponibles | OpIA1 _ => true
  end.

(** Sample boards. *)
Definition tablero_6x7 : tablero := replicate 6 (replicate 7 0).

Definition tablero_irregular : tablero := [[0; 0]; [0]].

(** Bottom row starting with three pieces of player O. *)
Definition tablero_tres : tablero :=
  replicate 5 (replicate 7 0) ++ [[1; 1; 1; 0; 0; 0; 0]].

(** First column full. *)
Definition tablero_columna_llena : tablero := replicate 6 (1 :: replicate 6 0).

(** ** Vocabulary of the rules of the game *)

(** Gravity: in every column, the cells above an empty cell are empty. *)
Definition gravedad (t : tablero) : Prop :=
  forall f f' c, 0 <= f < f' -> celda t f' c = Some CASILLA_VACIA ->
                 celda t f c = Some CASILLA_VACIA.

(** Every cell holds one of the three values of the game. *)
Definition valores_validos (t : tablero) : Prop :=
  forall f c x, celda t f c = Some x ->
                x = CASILLA_VACIA \/ x = FICHA_CIRCULO \/ x = FICHA_EQUIS.

(** Number of empty cells of a row and of the board. *)
Definition vacias_fila (fila : list Z) : nat :=
  length (filter (fun x => x = CASILLA_VACIA) fila).

Definition vacias (t : tablero) : nat := sum_list (vacias_fila <$> t).

(** [n] consecutive cells of the line through (fila, columna) along
    (df, dc), the cell (fila, columna) among them, all hold [ficha]. *)
Definition en_linea (t : tablero) (fila columna ficha df dc n : Z) : Prop :=
  exists s, - n < s <= 0 /\
            forall i, s <= i < s + n -> en_racha t fila columna ficha df dc i.

(** Dropping the pieces [fichas], in that order, in one column with
    [colocar_ficha]: what each call returned, and the final board. *)
Fixpoint soltar (t : tablero) (columna : Z) (fichas : list Z)
    : list (result bool) * tablero :=
  match fichas with
  | [] => ([], t)
  | ficha :: fichas' =>
      let r := colocar_ficha t ficha columna in
      let rs := soltar r.2 columna fichas' in
      (r.1 :: rs.1, rs.2)
  end.

(** ** One turn of the game loop *)

(** How one turn of the game loop of [main] leaves the game. *)
Inductive fin_jugada : Type :=
  | Victoria
  | Empate
  | Continua (turno : Z)
  | ErrorColocar.

(** [FICHA_EQUIS if turno == FICHA_CIRCULO else FICHA_CIRCULO]. *)
Definition cambiar_turno (turno : Z) : Z :=
  if turno =? FICHA_CIRCULO then FICHA_EQUIS else FICHA_CIRCULO.

(** The part of one iteration of the game loop of [main] that acts on the
    board and on the variables [turno] and [partida_activa], once the
    column has been chosen: [colocar_ficha], then [comprobar_linea], then
    [hay_casillas_libres], then the change of turn.  The calls that only
    print are left out. *)
Definition jugada (t : tablero) (turno columna numero_fichas_linea : Z)
    : result fin_jugada * tablero :=
  match colocar_ficha t turno columna with
  | (Ok true, t') =>
      match comprobar_linea t' columna numero_fichas_linea with
      | Ok true => (Ok Victoria, t')
      | Ok false =>
          if negb (hay_casillas_libres t') then (Ok Empate, t')
          else (Ok (Continua (cambiar_turno turno)), t')
      | Raise e => (Raise e, t')
      | Diverge => (Diverge, t')
      end
  | (Ok false, t') => (Ok ErrorColocar, t')
  | (Raise e, t') => (Raise e, t')
  | (Diverge, t') => (Diverge, t')
  end.

(** The game loop run on the columns chosen turn after turn: it stops at
    the first turn that does not end in [Continua]. *)
Fixpoint partida (t : tablero) (turno numero_fichas_linea : Z)
    (elegidas : list Z) : result fin_jugada * tablero :=
  match elegidas with
  | [] => (Ok (Continua turno), t)
  | columna :: resto =>
      match jugada t turno columna numero_fichas_linea with
      | (Ok (Continua turno'), t') =>
          partida t' turno' numero_fichas_linea resto
      | fin => fin
      end
  end.

(** ** Display *)

(** Text written to standard output by a function that prints, with the
    way the function ended: what was printed before an exception stays
    printed. *)
Definition Imp (A : Type) : Type := string * result A.

#[global] Instance Imp_ret : MRet Imp := fun A a => ("", Ok a).
#[global] Instance Imp_bind : MBind Imp := fun A B k m =>
  match m with
  | (s, Ok a) => (s +:+ (k a).1, (k a).2)
  | (s, Raise e) => (s, Raise e)
  | (s, Diverge) => (s, Diverge)
  end.

(** [print(s, end="")]. *)
Definition imprimir (s : string) : Imp unit := (s, Ok tt).

(** An expression that prints nothing. *)
Definition evaluar {A : Type} (r : result A) : Imp A := ("", r).

(** [for x in l: cuerpo]. *)
Fixpoint para {A : Type} (l : list A) (cuerpo : A -> Imp unit) : Imp unit :=
  match l with
  | [] => mret tt
  | x :: l' => _ ← cuerpo x; para l' cuerpo
  end.

(** The line feed and the escape character of the ANSI colour codes. *)
Definition LF : string := String (Ascii.ascii_of_nat 10) "".
Definition ESC : string := String (Ascii.ascii_of_nat 27) "".

Definition COLOR_RESET : string := ESC +:+ "[0m".
Definition COLOR_CIRCULO : string := ESC +:+ "[94m".
Definition COLOR_EQUIS : string := ESC +:+ "[91m".
Definition COLOR_ULTIMA : string := ESC +:+ "[93m".

(** [s * n]. *)
Fixpoint repetir (s : string) (n : nat) : string :=
  match n with
  | O => ""
  | S n' => s +:+ repetir s n'
  end.

(** The format [^4] of an f-string applied to an integer: the decimal text
    centred in [ancho] characters, the odd space going to the right. *)
Definition centrar (ancho : nat) (s : string) : string :=
  let total := (ancho - String.length s)%nat in
  let izquierda := (total / 2)%nat in
  repetir " " izquierda +:+ s +:+ repetir " " (total - izquierda).

(** The line of column numbers, from 1, printed by both display functions. *)
Definition mostrar_numeros (columnas : nat) : Imp unit :=
  _ ← imprimir (LF +:+ "  ");
  _ ← para (rango columnas) (fun col => imprimir (centrar 4 (pretty (col + 1))));
  imprimir LF.

(** The text of one cell in [mostrar_tablero]; a value other than 0, 1, 2
    prints nothing. *)
Definition mostrar_celda (x : Z) : Imp unit :=
  if x =? CASILLA_VACIA then imprimir "   |"
  else if x =? FICHA_CIRCULO then
    imprimir (" " +:+ COLOR_CIRCULO +:+ "O" +:+ COLOR_RESET +:+ " |")
  else if x =? FICHA_EQUIS then
    imprimir (" " +:+ COLOR_EQUIS +:+ "X" +:+ COLOR_RESET +:+ " |")
  else mret tt.

Definition mostrar_tablero (t : tablero) : Imp unit :=
  match t with
  | [] => mret tt
  | fila0 :: _ =>
      _ ← mostrar_numeros (length fila0);
      _ ← para (rango (length t)) (fun fila =>
            _ ← imprimir "  |";
            _ ← para (rango (length fila0)) (fun col =>
                  x ← evaluar (getitem2 t fila col);
                  mostrar_celda x);
            imprimir LF);
      imprimir ("  " +:+ repetir "----" (length fila0) +:+ LF)
  end.

(** The text of one cell in [mostrar_tablero_columna]. *)
Definition mostrar_celda_columna (fila col fila_ultima columna_ultima_ficha x : Z)
    : Imp unit :=
  if x =? CASILLA_VACIA then imprimir "   |"
  else if (fila =? fila_ultima) && (col =? columna_ultima_ficha) then
    let simbolo := if x =? FICHA_CIRCULO then "O" else "X" in
    imprimir (" " +:+ COLOR_ULTIMA +:+ simbolo +:+ COLOR_RESET +:+ " |")
  else if x =? FICHA_CIRCULO then
    imprimir (" " +:+ COLOR_CIRCULO +:+ "O" +:+ COLOR_RESET +:+ " |")
  else if x =? FICHA_EQUIS then
    imprimir (" " +:+ COLOR_EQUIS +:+ "X" +:+ COLOR_RESET +:+ " |")
  else mret tt.

(** The printing part of [mostrar_tablero_columna], once [fila_ultima] has
    been found. *)
Definition mostrar_resaltado (t : tablero) (fila_ultima columna_ultima_ficha : Z)
    : Imp unit :=
  let columnas := length (default [] (head t)) in
  _ ← mostrar_numeros columnas;
  _ ← para (rango (length t)) (fun fila =>
        _ ← imprimir "  |";
        _ ← para (rango columnas) (fun col =>
              x ← evaluar (getitem2 t fila col);
              mostrar_celda_columna fila col fila_ultima columna_ultima_ficha x);
        imprimir LF);
  imprimir ("  " +:+ repetir "----" columnas +:+ LF).

(** The search for [fila_ultima] goes from the bottom row up and stops at
    the first occupied cell: it is the scan of [primera_ocupada] on
    [range(filas - 1, -1, -1)]. *)
Definition mostrar_tablero_columna (t : tablero) (columna_ultima_ficha : Z)
    : Imp unit :=
  match t with
  | [] => mret tt
  | fila0 :: _ =>
      if fuera_de_rango fila0 columna_ultima_ficha then mret tt
      else
        fila_ultima ← evaluar (primera_ocupada t columna_ultima_ficha
                                 (rango_desc (length t)));
        mostrar_resaltado t fila_ultima columna_ultima_ficha
  end.

(** ** Keyboard input *)

(** What the user does at a prompt: types a line, or interrupts the
    program (KeyboardInterrupt).  When the list of inputs is used up,
    [input] finds the end of the standard input and raises [EOFError]. *)
Inductive entrada : Type :=
  | Linea (s : string)
  | Interrupcion.

(** How a function that reads the keyboard ends. *)
Inductive fin_es (A : Type) : Type :=
  | Devuelve (a : A)
  | Sale (codigo : Z)
  | FinDeEntrada.

Arguments Devuelve {A} a.
Arguments Sale {A} codigo.
Arguments FinDeEntrada {A}.

Section Teclado.

(** [int(s)] of Python on the text of a line: [None] when it raises
    [ValueError]. *)
Variable int_de : string -> option Z.

(** The text printed, how the function ended, and the inputs left. *)
Fixpoint solicitar_numero (mensaje : string) (minimo maximo : Z)
    (entradas : list entrada) : string * (fin_es Z * list entrada) :=
  match entradas with
  | [] => (mensaje, (FinDeEntrada, []))
  | Interrupcion :: resto =>
      (mensaje +:+ LF +:+ "Interrupción detectada. Saliendo..." +:+ LF,
       (Sale 0, resto))
  | Linea s :: resto =>
      match int_de s with
      | Some valor =>
          if (minimo <=? valor) && (valor <=? maximo) then
            (mensaje, (Devuelve valor, resto))
          else
            let r := solicitar_numero mensaje minimo maximo resto in
            (mensaje +:+ "Por favor, ingresa un número entre "
               +:+ pretty minimo +:+ " y " +:+ pretty maximo +:+ "." +:+ LF
               +:+ r.1, r.2)
      | None =>
          let r := solicitar_numero mensaje minimo maximo resto in
          (mensaje
             +:+ "Entrada inválida. Por favor, ingresa un número entero."
             +:+ LF +:+ r.1, r.2)
      end
  end.

Definition preguntar_jugar_otra_vez (entradas : list entrada)
    : string * (fin_es bool * list entrada) :=
  let r := solicitar_numero "Selecciona una opción: " 1 2 entradas in
  (LF +:+ "¿Deseas jugar otra partida?" +:+ LF
     +:+ "1. Sí, jugar de nuevo" +:+ LF
     +:+ "2. No, salir del juego" +:+ LF +:+ r.1,
   (match r.2.1 with
    | Devuelve opcion => Devuelve (opcion =? 1)
    | Sale codigo => Sale codigo
    | FinDeEntrada => FinDeEntrada
    end, r.2.2)).

End Teclado.

(** An input the prompt turns down: a line that is not an integer, or an
    integer out of the range. *)
Definition rechazada (int_de : string -> option Z) (minimo maximo : Z)
    (e : entrada) : Prop :=
  exists s, e = Linea s /\
            (int_de s = None \/
             exists v, int_de s = Some v /\ ~ minimo <= v <= maximo).


(** Somewhere on the board, [n] consecutive cells hold the same piece along
    the horizontal (0, 1), the vertical (1, 0) or one of the diagonals
    (1, 1) and (1, -1). *)
Definition hay_linea (t : tablero) (n : Z) : Prop :=
  exists fila columna ficha,
    ficha <> CASILLA_VACIA /\
    (en_linea t fila columna ficha 0 1 n \/
     en_linea t fila columna ficha 1 0 n \/
     en_linea t fila columna ficha 1 1 n \/
     en_linea t fila columna ficha 1 (-1) n).

(** ** The printed text, read as lines of cells *)

(** The texts of a list, one after the other. *)
Definition unir (l : list string) : string := foldr String.append "" l.

(** The lines of a printed board, from the text of each of its cells: every
    line opens with two spaces and a bar and ends with a line feed. *)
Definition lineas (celdas : list (list string)) : string :=
  unir ((fun fila => "  |" +:+ unir fila +:+ LF) <$> celdas).
(** * Properties *)

(** ** Lists and cells *)

Ltac zbool :=
  repeat match goal with
  | H : (_ <? _) = true |- _ => apply Z.ltb_lt in H
  | H : (_ <? _) = false |- _ => apply Z.ltb_ge in H
  | H : (_ <=? _) = true |- _ => apply Z.leb_le in H
  | H : (_ <=? _) = false |- _ => apply Z.leb_gt in H
  | H : (_ =? _) = true |- _ => apply Z.eqb_eq in H
  | H : (_ =? _) = false |- _ => apply Z.eqb_neq in H
  | H : (_ || _) = true |- _ => apply orb_true_iff in H
  | H : (_ || _) = false |- _ => apply orb_false_iff in H; destruct H
  | H : (_ && _) = true |- _ => apply andb_true_iff in H; destruct H
  | H : (_ && _) = false |- _ => apply andb_false_iff in H
  | H : negb _ = true |- _ => apply negb_true_iff in H
  | H : negb _ = false |- _ => apply negb_false_iff in H
  end.

Ltac msimpl :=
  unfold mbind, mret, result_bind, result_ret, M_bind, M_ret, leer in *;
  simpl in *.

Lemma getitem_nonneg {A : Type} (l : list A) (i : Z) :
  0 <= i ->
  getitem l i = match l !! Z.to_nat i with
                | Some x => Ok x
                | None => Raise IndexError
                end.
Proof.
  intros Hi. unfold getitem, norm_index.
  rewrite !(proj2 (Z.ltb_ge i 0) Hi). reflexivity.
Qed.

Lemma setitem_nonneg {A : Type} (l : list A) (i : Z) (v x : A) :
  0 <= i -> l !! Z.to_nat i = Some x ->
  setitem l i v = Ok (<[Z.to_nat i := v]> l).
Proof.
  intros Hi Hx. unfold setitem, norm_index.
  apply lookup_lt_Some in Hx.
  rewrite !(proj2 (Z.ltb_ge i 0) Hi).
  rewrite (proj2 (Z.ltb_lt i (Z.of_nat (length l)))) by lia. reflexivity.
Qed.

Lemma celda_nonneg t f c x : celda t f c = Some x -> 0 <= f /\ 0 <= c.
Proof.
  unfold celda. destruct ((f <? 0) || (c <? 0)) eqn:E; [discriminate|].
  zbool. lia.
Qed.

Lemma celda_lookup t f c :
  0 <= f -> 0 <= c ->
  celda t f c = t !! Z.to_nat f ≫= (fun r => r !! Z.to_nat c).
Proof.
  intros Hf Hc. unfold celda.
  destruct ((f <? 0) || (c <? 0)) eqn:E; [|reflexivity].
  zbool. lia.
Qed.

Lemma getitem2_celda t f c :
  0 <= f -> 0 <= c ->
  getitem2 t f c = match celda t f c with
                   | Some x => Ok x
                   | None => Raise IndexError
                   end.
Proof.
  intros Hf Hc. rewrite celda_lookup by assumption.
  unfold getitem2. rewrite getitem_nonneg by assumption.
  destruct (t !! Z.to_nat f) as [r|]; msimpl; [|reflexivity].
  apply getitem_nonneg; assumption.
Qed.

Lemma setitem2_celda t f c x v :
  celda t f c = Some x -> setitem2 t f c v = Ok (poner t f c v).
Proof.
  intros H. destruct (celda_nonneg _ _ _ _ H) as [Hf Hc].
  rewrite celda_lookup in H by assumption.
  unfold setitem2. rewrite getitem_nonneg by assumption.
  destruct (t !! Z.to_nat f) as [r|] eqn:Er; msimpl; [|discriminate].
  rewrite (setitem_nonneg r c v x) by assumption.
  rewrite (setitem_nonneg t f _ r) by assumption.
  f_equal. unfold poner. rewrite list_insert_alter.
  apply list_eq. intros i. rewrite !list_lookup_alter.
  destruct (decide (Z.to_nat f = i)) as [<-|]; [|reflexivity].
  rewrite Er. reflexivity.
Qed.

Lemma celda_poner_eq t f c x v :
  celda t f c = Some x -> celda (poner t f c v) f c = Some v.
Proof.
  intros H. destruct (celda_nonneg _ _ _ _ H) as [Hf Hc].
  rewrite celda_lookup in * by assumption.
  unfold poner. rewrite list_lookup_alter_eq.
  destruct (t !! Z.to_nat f) as [r|]; simpl in *; [|discriminate].
  apply list_lookup_insert_eq. eapply lookup_lt_Some; eassumption.
Qed.

Lemma celda_poner_ne t f c v f' c' :
  (f', c') <> (f, c) -> 0 <= f -> 0 <= c ->
  celda (poner t f c v) f' c' = celda t f' c'.
Proof.
  intros Hne Hf Hc. unfold celda.
  destruct ((f' <? 0) || (c' <? 0)) eqn:E; [reflexivity|]. zbool.
  unfold poner. rewrite list_lookup_alter.
  destruct (decide (Z.to_nat f = Z.to_nat f')) as [Ef|]; [|reflexivity].
  rewrite Ef.
  destruct (t !! Z.to_nat f') as [r|]; simpl; [|reflexivity].
  apply list_lookup_insert_ne. intros Ec.
  apply Hne. f_equal; lia.
Qed.

Lemma poner_poner t f c x v :
  celda t f c = Some x -> poner (poner t f c v) f c x = t.
Proof.
  intros H. destruct (celda_nonneg _ _ _ _ H) as [Hf Hc].
  rewrite celda_lookup in H by assumption.
  unfold poner. apply list_eq. intros i.
  destruct (decide (Z.to_nat f = i)) as [<-|Hi].
  - rewrite !list_lookup_alter_eq.
    destruct (t !! Z.to_nat f) as [r|]; simpl in *; [|discriminate].
    rewrite list_insert_insert_eq. f_equal. apply list_insert_id. assumption.
  - rewrite !list_lookup_alter_ne by assumption. reflexivity.
Qed.

Lemma length_poner t f c v : length (poner t f c v) = length t.
Proof. apply length_alter. Qed.

Lemma filas_poner t f c v : filas (poner t f c v) = filas t.
Proof. unfold filas. rewrite length_poner. reflexivity. Qed.

Lemma head_length_poner t f c v :
  length (default [] (head (poner t f c v))) = length (default [] (head t)).
Proof.
  unfold poner. destruct t as [|r t]; [reflexivity|].
  destruct (Z.to_nat f); simpl; [apply length_insert|reflexivity].
Qed.

Lemma columnas_poner t f c v : columnas (poner t f c v) = columnas t.
Proof. unfold columnas. rewrite head_length_poner. reflexivity. Qed.

Lemma rectangular_poner t f c v : rectangular t -> rectangular (poner t f c v).
Proof.
  unfold rectangular. rewrite head_length_poner.
  rewrite !Forall_lookup. intros H i r Hr.
  unfold poner in Hr. rewrite list_lookup_alter in Hr.
  destruct (decide (Z.to_nat f = i)) as [<-|]; [|eauto].
  destruct (t !! Z.to_nat f) as [r0|] eqn:E; simpl in Hr; [|discriminate].
  injection Hr as <-. rewrite length_insert. eauto.
Qed.

(** On a grid, the cells that exist are those within the dimensions. *)
Lemma celda_dentro t f c :
  rectangular t -> 0 <= f < filas t -> 0 <= c < columnas t ->
  exists x, celda t f c = Some x.
Proof.
  intros R Hf Hc. rewrite celda_lookup by lia.
  unfold filas, columnas in *.
  destruct (lookup_lt_is_Some_2 t (Z.to_nat f)) as [r Hr]; [lia|].
  rewrite Hr. simpl.
  unfold rectangular in R. rewrite Forall_lookup in R.
  specialize (R _ _ Hr).
  destruct (lookup_lt_is_Some_2 r (Z.to_nat c)) as [x Hx]; [lia|].
  eauto.
Qed.

Lemma celda_fuera t f c x :
  rectangular t -> celda t f c = Some x ->
  0 <= f < filas t /\ 0 <= c < columnas t.
Proof.
  intros R H. destruct (celda_nonneg _ _ _ _ H) as [Hf Hc].
  rewrite celda_lookup in H by assumption.
  unfold filas, columnas.
  destruct (t !! Z.to_nat f) as [r|] eqn:Er; simpl in H; [|discriminate].
  unfold rectangular in R. rewrite Forall_lookup in R.
  specialize (R _ _ Er).
  apply lookup_lt_Some in Er, H. lia.
Qed.

Lemma columnas_cons fila0 t : columnas (fila0 :: t) = Z.of_nat (length fila0).
Proof. reflexivity. Qed.

Lemma fuera_de_rango_false fila0 t c :
  fuera_de_rango fila0 c = false <-> 0 <= c < columnas (fila0 :: t).
Proof.
  unfold fuera_de_rango. rewrite columnas_cons, orb_false_iff.
  rewrite Z.ltb_ge, Z.leb_gt. reflexivity.
Qed.

Lemma elem_of_rango n f : f ∈ rango n <-> 0 <= f < Z.of_nat n.
Proof.
  unfold rango. rewrite list_elem_of_fmap. split.
  - intros (k & -> & Hk). apply elem_of_seq in Hk. lia.
  - intros H. exists (Z.to_nat f). split; [lia|]. apply elem_of_seq. lia.
Qed.

Lemma rango_S n : rango (S n) = rango n ++ [Z.of_nat n].
Proof. unfold rango. rewrite seq_S, fmap_app. reflexivity. Qed.

Lemma rango_desc_S n : rango_desc (S n) = Z.of_nat n :: rango_desc n.
Proof. unfold rango_desc. rewrite rango_S. apply reverse_snoc. Qed.

(** ** Counting along a direction *)

Lemma celda_nil f c : celda [] f c = None.
Proof. unfold celda. destruct (_ || _); reflexivity. Qed.

Lemma contar_fichas_direccion_unfold t fila columna ficha df dc :
  t <> [] ->
  contar_fichas_direccion t fila columna ficha df dc =
  contar_bucle (S (Z.to_nat (filas t + columnas t))) t (filas t) (columnas t)
    ficha df dc (fila + df) (columna + dc) 0.
Proof.
  intros Hne. destruct t as [|fila0 t']; [congruence|].
  unfold contar_fichas_direccion, filas, columnas. simpl head. simpl default.
  do 2 f_equal. lia.
Qed.

Section Contar.
Variable t : tablero.
Variables ficha df dc : Z.
Hypothesis Hrect : rectangular t.
Hypothesis Hdir : df <> 0 \/ dc <> 0.

Lemma dentro_true f c :
  dentro t f c = true <-> 0 <= f < filas t /\ 0 <= c < columnas t.
Proof.
  unfold dentro. rewrite !andb_true_iff, !Z.leb_le, !Z.ltb_lt. lia.
Qed.

Lemma medida_step f c :
  dentro t f c = true -> 1 <= medida t df dc f c /\ medida t df dc (f + df) (c + dc) < medida t df dc f c.
Proof using Hdir.
  intros Hd. unfold medida. rewrite Hd. apply dentro_true in Hd.
  destruct (dentro t (f + df) (c + dc)) eqn:Hd'.
  - apply dentro_true in Hd'.
    destruct (0 <? df) eqn:E1; [zbool; lia|].
    destruct (df <? 0) eqn:E2; [zbool; lia|].
    destruct (0 <? dc) eqn:E3; zbool; lia.
  - destruct (0 <? df) eqn:E1; [zbool; lia|].
    destruct (df <? 0) eqn:E2; [zbool; lia|].
    destruct (0 <? dc) eqn:E3; zbool; lia.
Qed.

Lemma medida_cota f c : 0 <= medida t df dc f c <= filas t + columnas t.
Proof.
  unfold medida. destruct (dentro t f c) eqn:Hd.
  - apply dentro_true in Hd.
    destruct (0 <? df); [lia|]. destruct (df <? 0); [lia|].
    destruct (0 <? dc); lia.
  - unfold filas, columnas. lia.
Qed.

Lemma contar_bucle_spec (fuel : nat) :
  forall fa ca cont,
    medida t df dc fa ca < Z.of_nat fuel ->
    exists k,
      0 <= k /\
      contar_bucle fuel t (filas t) (columnas t) ficha df dc fa ca cont
        = Ok (cont + k) /\
      (forall i, 0 <= i < k ->
         celda t (fa + i * df) (ca + i * dc) = Some ficha) /\
      celda t (fa + k * df) (ca + k * dc) <> Some ficha.
Proof using Hrect Hdir.
  induction fuel as [|fuel IH]; intros fa ca cont Hm.
  - pose proof (medida_cota fa ca). lia.
  - simpl. fold (dentro t fa ca).
    destruct (dentro t fa ca) eqn:Hd.
    + pose proof (medida_step _ _ Hd) as [H1 Hlt].
      apply dentro_true in Hd. destruct Hd as [Hf Hc].
      destruct (celda_dentro t fa ca Hrect Hf Hc) as [x Hx].
      rewrite getitem2_celda, Hx by lia. msimpl.
      destruct (x =? ficha) eqn:Ex; zbool.
      * subst x.
        destruct (IH (fa + df) (ca + dc) (cont + 1)) as (k & Hk & Heq & Hin & Hout);
          [lia|].
        exists (k + 1). split; [lia|]. split; [|split].
        -- rewrite Heq. f_equal. lia.
        -- intros i Hi. destruct (decide (i = 0)) as [->|Hi0].
           ++ rewrite !Z.mul_0_l, !Z.add_0_r. assumption.
           ++ specialize (Hin (i - 1)).
              replace (fa + df + (i - 1) * df) with (fa + i * df) in Hin by lia.
              replace (ca + dc + (i - 1) * dc) with (ca + i * dc) in Hin by lia.
              apply Hin. lia.
        -- replace (fa + (k + 1) * df) with (fa + df + k * df) by lia.
           replace (ca + (k + 1) * dc) with (ca + dc + k * dc) by lia.
           assumption.
      * exists 0. split; [lia|]. split; [f_equal; lia|]. split; [intros; lia|].
        rewrite !Z.mul_0_l, !Z.add_0_r, Hx. congruence.
    + exists 0. split; [lia|]. split; [f_equal; lia|]. split; [intros; lia|].
      rewrite !Z.mul_0_l, !Z.add_0_r. intros Hx.
      apply celda_fuera in Hx; [|assumption].
      apply dentro_true in Hx. congruence.
Qed.

(** [contar_fichas_direccion] returns the number [k] of consecutive cells
    holding [ficha] from one step beyond the origin. *)
Lemma contar_fichas_direccion_spec fila columna :
  exists k,
    0 <= k /\
    contar_fichas_direccion t fila columna ficha df dc = Ok k /\
    (forall i, 1 <= i <= k -> en_racha t fila columna ficha df dc i) /\
    ~ en_racha t fila columna ficha df dc (k + 1).
Proof using Hrect Hdir.
  unfold en_racha. destruct (decide (t = [])) as [Et|Et].
  - exists 0. split; [lia|]. split; [rewrite Et; reflexivity|].
    split; [intros; lia|]. rewrite Et, celda_nil. congruence.
  - rewrite contar_fichas_direccion_unfold by assumption.
    destruct (contar_bucle_spec (S (Z.to_nat (filas t + columnas t)))
                (fila + df) (columna + dc) 0) as (k & Hk & Heq & Hin & Hout).
    { pose proof (medida_cota (fila + df) (columna + dc)). lia. }
    exists k. split; [assumption|]. split; [exact Heq|]. split.
    + intros i Hi. specialize (Hin (i - 1)).
      replace (fila + df + (i - 1) * df) with (fila + i * df) in Hin by lia.
      replace (columna + dc + (i - 1) * dc) with (columna + i * dc) in Hin by lia.
      apply Hin. lia.
    + replace (fila + (k + 1) * df) with (fila + df + k * df) by lia.
      replace (columna + (k + 1) * dc) with (columna + dc + k * dc) by lia.
      assumption.
Qed.
End Contar.

Lemma en_racha_opuesta t fila columna ficha df dc i :
  en_racha t fila columna ficha (- df) (- dc) i <->
  en_racha t fila columna ficha df dc (- i).
Proof.
  unfold en_racha.
  replace (fila + i * - df) with (fila + - i * df) by lia.
  replace (columna + i * - dc) with (columna + - i * dc) by lia.
  reflexivity.
Qed.

(** The count is determined by the cells beyond the origin. *)
Lemma cuenta_unica (P : Z -> Prop) (k k' : Z) :
  0 <= k -> 0 <= k' ->
  (forall i, 1 <= i <= k -> P i) -> ~ P (k + 1) ->
  (forall i, 1 <= i <= k' -> P i) -> ~ P (k' + 1) ->
  k = k'.
Proof.
  intros Hk Hk' Hin Hout Hin' Hout'.
  destruct (Z.lt_trichotomy k k') as [Hlt|[Heq|Hgt]]; [|assumption|].
  - exfalso. apply Hout, Hin'. lia.
  - exfalso. apply Hout', Hin. lia.
Qed.

Lemma racha_maxima_unica t fila columna ficha df dc lo hi lo' hi' :
  racha_maxima t fila columna ficha df dc lo hi ->
  racha_maxima t fila columna ficha df dc lo' hi' ->
  lo = lo' /\ hi = hi'.
Proof.
  intros (Hb & Hin & Hlo & Hhi) (Hb' & Hin' & Hlo' & Hhi').
  split.
  - destruct (Z.lt_trichotomy lo lo') as [Hlt|[Heq|Hgt]]; [|assumption|].
    + exfalso. apply Hlo', Hin. lia.
    + exfalso. apply Hlo, Hin'. lia.
  - destruct (Z.lt_trichotomy hi hi') as [Hlt|[Heq|Hgt]]; [|assumption|].
    + exfalso. apply Hhi, Hin'. lia.
    + exfalso. apply Hhi', Hin. lia.
Qed.

Lemma en_racha_poner t fila columna ficha df dc v i :
  df <> 0 \/ dc <> 0 -> 0 <= fila -> 0 <= columna -> i <> 0 ->
  en_racha (poner t fila columna v) fila columna ficha df dc i <->
  en_racha t fila columna ficha df dc i.
Proof.
  intros Hdir Hf Hc Hi. unfold en_racha.
  rewrite celda_poner_ne; [reflexivity| |assumption|assumption].
  intros Heq. injection Heq as Ef Ec.
  destruct Hdir as [Hd|Hd]; nia.
Qed.

(** C7. [contar_fichas_direccion] on a grid, along any direction other than
    (0, 0): it returns the number [a] of consecutive cells holding [ficha]
    found from one step beyond (fila, columna), stopping at the border of
    the grid or at the first other cell; the origin is not counted (the
    result is the same whatever the origin holds) and the result is 0 when
    the first cell stepped to does not hold [ficha]; and when the origin
    holds [ficha], the forward count plus the backward count plus one is
    the length of the maximal run through the origin along that axis. *)
Theorem contar_fichas_direccion_racha
    (t : tablero) (fila columna ficha df dc : Z) :
  rectangular t -> df <> 0 \/ dc <> 0 ->
  exists a b,
    contar_fichas_direccion t fila columna ficha df dc = Ok a /\
    contar_fichas_direccion t fila columna ficha (- df) (- dc) = Ok b /\
    0 <= a /\ 0 <= b /\
    (forall i, 1 <= i <= a -> en_racha t fila columna ficha df dc i) /\
    ~ en_racha t fila columna ficha df dc (a + 1) /\
    (~ en_racha t fila columna ficha df dc 1 -> a = 0) /\
    (forall x v, celda t fila columna = Some x ->
       contar_fichas_direccion (poner t fila columna v) fila columna ficha df dc
       = Ok a) /\
    (en_racha t fila columna ficha df dc 0 ->
       racha_maxima t fila columna ficha df dc (- b) a /\
       forall lo hi, racha_maxima t fila columna ficha df dc lo hi ->
                     a + b + 1 = hi - lo + 1).
Proof.
  intros Hrect Hdir.
  destruct (contar_fichas_direccion_spec t ficha df dc Hrect Hdir fila columna)
    as (a & Ha & Hfa & Hina & Houta).
  assert (Hdir' : - df <> 0 \/ - dc <> 0) by lia.
  destruct (contar_fichas_direccion_spec t ficha (- df) (- dc) Hrect Hdir'
              fila columna) as (b & Hb & Hfb & Hinb & Houtb).
  assert (Hmax : en_racha t fila columna ficha df dc 0 ->
                 racha_maxima t fila columna ficha df dc (- b) a).
  { intros H0. split; [lia|]. split; [|split].
    - intros i Hi.
      destruct (Z.lt_trichotomy i 0) as [Hlt|[->|Hgt]].
      + rewrite <- (Z.opp_involutive i). apply en_racha_opuesta, Hinb. lia.
      + assumption.
      + apply Hina. lia.
    - intros H. apply Houtb. apply en_racha_opuesta.
      replace (- (b + 1)) with (- b - 1) by lia. assumption.
    - assumption. }
  exists a, b.
  split; [assumption|]. split; [assumption|].
  split; [assumption|]. split; [assumption|].
  split; [assumption|]. split; [assumption|].
  split; [|split].
  - intros H1.
    destruct (Z.eq_dec a 0) as [|Hne]; [assumption|].
    exfalso. apply H1, Hina. lia.
  - intros x v Hx.
    destruct (celda_nonneg _ _ _ _ Hx) as [Hf Hc].
    destruct (contar_fichas_direccion_spec (poner t fila columna v) ficha df dc
                (rectangular_poner _ _ _ _ Hrect) Hdir fila columna)
      as (a' & Ha' & Hfa' & Hina' & Houta').
    rewrite Hfa'. f_equal.
    apply (cuenta_unica (en_racha t fila columna ficha df dc)); try assumption.
    + intros i Hi. apply (en_racha_poner t fila columna ficha df dc v i);
        [assumption|assumption|assumption|lia|]. apply Hina'. assumption.
    + intros H. apply Houta'.
      apply en_racha_poner; [assumption|assumption|assumption|lia|assumption].
  - intros H0. split; [apply Hmax; assumption|].
    intros lo hi Hr.
    destruct (racha_maxima_unica _ _ _ _ _ _ _ _ _ _ Hr (Hmax H0)) as [-> ->].
    lia.
Qed.

(** ** Simulated placement *)

Lemma result_bind_Ok {A B : Type} (m : result A) (k : A -> result B) (b : B) :
  m ≫= k = Ok b -> exists a, m = Ok a /\ k a = Ok b.
Proof. destruct m; msimpl; intros H; try discriminate. eauto. Qed.

Lemma primera_libre_rango_desc t c n r :
  0 <= c -> primera_libre t c (rango_desc n) = Ok r ->
  (r = -1 /\
   forall f, 0 <= f < Z.of_nat n -> celda t f c <> Some CASILLA_VACIA) \/
  (0 <= r < Z.of_nat n /\ celda t r c = Some CASILLA_VACIA /\
   forall f, r < f < Z.of_nat n -> celda t f c <> Some CASILLA_VACIA).
Proof.
  intros Hc. induction n as [|n IH].
  - simpl. intros [= <-]. left. split; [reflexivity|]. intros; lia.
  - rewrite rango_desc_S. simpl. intros H.
    apply result_bind_Ok in H as (x & Hx & H).
    rewrite getitem2_celda in Hx by lia.
    destruct (celda t (Z.of_nat n) c) as [y|] eqn:Ey; [|discriminate].
    injection Hx as ->.
    destruct (x =? CASILLA_VACIA) eqn:Ex; zbool.
    + injection H as <-. subst x. right.
      split; [lia|]. split; [assumption|]. intros; lia.
    + destruct (IH H) as [[-> Hall]|(Hr & Hr0 & Hall)].
      * left. split; [reflexivity|]. intros f Hf.
        destruct (decide (f = Z.of_nat n)) as [->|]; [congruence|].
        apply Hall. lia.
      * right. split; [lia|]. split; [assumption|]. intros f Hf.
        destruct (decide (f = Z.of_nat n)) as [->|]; [congruence|].
        apply Hall. lia.
Qed.

Lemma primera_libre_total t c n :
  rectangular t -> 0 <= c < columnas t -> (n <= length t)%nat ->
  exists r, primera_libre t c (rango_desc n) = Ok r.
Proof.
  intros Hrect Hc. induction n as [|n IH]; intros Hn.
  - simpl. eauto.
  - rewrite rango_desc_S. simpl.
    destruct (celda_dentro t (Z.of_nat n) c Hrect) as [x Hx];
      [unfold filas; lia|assumption|].
    rewrite getitem2_celda, Hx by lia. msimpl.
    destruct (x =? CASILLA_VACIA); [eauto|]. apply IH. lia.
Qed.

Lemma total_direccion_ok t fila columna ficha d :
  rectangular t -> d.1 <> 0 \/ d.2 <> 0 ->
  exists v, total_direccion t fila columna ficha d = Ok v /\ 1 <= v.
Proof.
  intros Hrect Hd.
  assert (Hd' : - d.1 <> 0 \/ - d.2 <> 0) by lia.
  destruct (contar_fichas_direccion_spec t ficha d.1 d.2 Hrect Hd fila columna)
    as (a & Ha0 & Ha & _).
  destruct (contar_fichas_direccion_spec t ficha (- d.1) (- d.2) Hrect Hd'
              fila columna) as (b & Hb0 & Hb & _).
  unfold total_direccion. rewrite Ha, Hb. msimpl.
  eexists. split; [reflexivity|lia].
Qed.

Lemma direcciones_no_nulas d : d ∈ direcciones -> d.1 <> 0 \/ d.2 <> 0.
Proof.
  unfold direcciones. rewrite !elem_of_cons, elem_of_nil.
  intros [->|[->|[->|[->|[]]]]]; simpl; lia.
Qed.

Lemma maximo_direcciones_ok t fila columna ficha ds :
  rectangular t -> (forall d, d ∈ ds -> d.1 <> 0 \/ d.2 <> 0) ->
  forall m0, exists m,
    maximo_direcciones t fila columna ficha ds m0 = Ok m /\
    m0 <= m /\ (ds <> [] -> 1 <= m).
Proof.
  intros Hrect. induction ds as [|d ds IH]; intros Hds m0.
  - simpl. exists m0. split; [reflexivity|]. split; [lia|congruence].
  - simpl.
    destruct (total_direccion_ok t fila columna ficha d Hrect) as (v & Hv & Hv1).
    { apply Hds. left. }
    rewrite Hv. msimpl.
    destruct (IH (fun d' H => Hds d' (list_elem_of_further _ _ _ H))
                 (Z.max m0 v)) as (m & Hm & Hle & _).
    exists m. split; [assumption|]. split; lia.
Qed.

Ltac munfold :=
  unfold mbind, mret, result_bind, result_ret, M_bind, M_ret, leer;
  cbv beta.

Lemma escribir_celda t f c x v :
  celda t f c = Some x -> escribir f c v t = (Ok tt, poner t f c v).
Proof. intros H. unfold escribir. rewrite (setitem2_celda t f c x v H). reflexivity. Qed.

(** Whatever the board (also a list of rows of unequal lengths), a call
    either leaves it as it was, or stops on an exception with the simulated
    piece still in the empty cell it was written to. *)
Lemma fichas_en_linea_casos t ficha columna r t' :
  fichas_en_linea t ficha columna = (r, t') ->
  t' = t \/
  exists fila, celda t fila columna = Some CASILLA_VACIA /\
               t' = poner t fila columna ficha /\ (forall v, r <> Ok v) /\
               ficha_valida ficha = true.
Proof.
  unfold fichas_en_linea. destruct t as [|fila0 t0] eqn:Et.
  { intros [= _ <-]. left. reflexivity. }
  destruct (fuera_de_rango fila0 columna) eqn:Hr.
  { intros [= _ <-]. left. reflexivity. }
  destruct (negb (ficha_valida ficha)) eqn:Hv.
  { intros [= _ <-]. left. reflexivity. }
  rewrite <- Et. apply fuera_de_rango_false with (t := t0) in Hr.
  munfold.
  destruct (primera_libre t columna (rango_desc (length t))) as [fila| |] eqn:Hp;
    try (intros [= _ <-]; left; reflexivity).
  destruct (fila =? -1) eqn:Hf.
  { intros [= _ <-]. left. reflexivity. }
  zbool.
  apply primera_libre_rango_desc in Hp; [|lia].
  destruct Hp as [[-> _]|(Hfila & H0 & _)]; [lia|].
  rewrite (escribir_celda t fila columna _ ficha H0).
  pose proof (celda_poner_eq t fila columna _ ficha H0) as H1.
  destruct (maximo_direcciones (poner t fila columna ficha) fila columna ficha
              direcciones 0) as [m| |] eqn:Hm.
  - rewrite (escribir_celda _ fila columna _ CASILLA_VACIA H1).
    rewrite (poner_poner t fila columna _ ficha H0).
    intros [= _ <-]. left. reflexivity.
  - intros [= <- <-]. right. exists fila. repeat split; try assumption.
    intros v. discriminate.
  - intros [= <- <-]. right. exists fila. repeat split; try assumption.
    intros v. discriminate.
Qed.

(** On a grid the call always returns, with the board as it was; the value
    is at least 1 when a piece can be dropped in the column. *)
Lemma fichas_en_linea_rect t ficha columna :
  rectangular t ->
  exists v,
    fichas_en_linea t ficha columna = (Ok v, t) /\ 0 <= v /\
    (ficha_valida ficha = true -> 0 <= columna < columnas t ->
     (exists f, celda t f columna = Some CASILLA_VACIA) -> 1 <= v).
Proof.
  intros Hrect.
  unfold fichas_en_linea. destruct t as [|fila0 t0] eqn:Et.
  { exists 0. split; [reflexivity|]. split; [lia|].
    intros _ _ [f Hf]. rewrite celda_nil in Hf. discriminate. }
  destruct (fuera_de_rango fila0 columna) eqn:Hr.
  { exists 0. split; [reflexivity|]. split; [lia|].
    intros _ Hc. apply (fuera_de_rango_false fila0 t0) in Hc. congruence. }
  destruct (negb (ficha_valida ficha)) eqn:Hv.
  { exists 0. split; [reflexivity|]. split; [lia|]. zbool. congruence. }
  rewrite <- Et in *. apply fuera_de_rango_false with (t := t0) in Hr.
  rewrite <- Et in Hr. munfold.
  destruct (primera_libre_total t columna (length t) Hrect Hr) as [fila Hp];
    [lia|].
  rewrite Hp.
  apply primera_libre_rango_desc in Hp; [|lia].
  destruct Hp as [[-> Hall]|(Hfila & H0 & _)].
  - simpl. exists 0. split; [reflexivity|]. split; [lia|].
    intros _ _ [f Hf]. exfalso.
    destruct (celda_fuera t f columna _ Hrect Hf) as [Hf' _].
    apply (Hall f); assumption.
  - destruct (fila =? -1) eqn:Hf; zbool; [lia|].
    rewrite (escribir_celda t fila columna _ ficha H0).
    pose proof (celda_poner_eq t fila columna _ ficha H0) as H1.
    destruct (maximo_direcciones_ok (poner t fila columna ficha) fila columna
                ficha direcciones (rectangular_poner _ _ _ _ Hrect)
                direcciones_no_nulas 0) as (m & Hm & Hm0 & Hm1).
    rewrite Hm.
    rewrite (escribir_celda _ fila columna _ CASILLA_VACIA H1).
    rewrite (poner_poner t fila columna _ ficha H0).
    exists m. split; [reflexivity|]. split; [assumption|].
    intros _ _ _. apply Hm1. discriminate.
Qed.

(** C1. [fichas_en_linea] leaves the board unchanged: whenever it returns,
    the board is the one it was given; and on every grid, for every piece
    and column (out of range or full columns too), it does return, so the
    board after the call is the board before it. *)
Theorem fichas_en_linea_no_muta (t : tablero) (ficha columna : Z) :
  (forall v t', fichas_en_linea t ficha columna = (Ok v, t') -> t' = t) /\
  (rectangular t -> exists v, fichas_en_linea t ficha columna = (Ok v, t)).
Proof.
  split.
  - intros v t' H.
    destruct (fichas_en_linea_casos _ _ _ _ _ H) as [->|(fila & _ & _ & Hv & _)];
      [reflexivity|].
    exfalso. apply (Hv v). reflexivity.
  - intros Hrect.
    destruct (fichas_en_linea_rect t ficha columna Hrect) as (v & Hv & _).
    exists v. assumption.
Qed.

(** On a list of rows of unequal lengths, which no operation of the program
    builds, the count can run off a short row after the simulated piece was
    written: the exception leaves the piece on the board. *)
Lemma fichas_en_linea_irregular :
  ~ rectangular tablero_irregular /\
  fichas_en_linea tablero_irregular 1 0 = (Raise IndexError, [[0; 0]; [1]]).
Proof.
  split; [|reflexivity].
  unfold rectangular, tablero_irregular. simpl.
  intros H. apply Forall_cons in H as [_ H]. apply Forall_cons in H as [H _].
  discriminate.
Qed.

(** ** Placement *)

Lemma colocar_bucle_casos t ficha c n r t' :
  0 <= c -> colocar_bucle ficha c (rango_desc n) t = (r, t') ->
  (r <> Ok true /\ t' = t /\
   (r = Ok false ->
    forall f, 0 <= f < Z.of_nat n -> celda t f c <> Some CASILLA_VACIA)) \/
  (r = Ok true /\
   exists fila, 0 <= fila < Z.of_nat n /\
     celda t fila c = Some CASILLA_VACIA /\
     (forall f, fila < f < Z.of_nat n -> celda t f c <> Some CASILLA_VACIA) /\
     t' = poner t fila c ficha).
Proof.
  intros Hc. induction n as [|n IH].
  - simpl. intros [= <- <-]. left. split; [discriminate|].
    split; [reflexivity|]. intros; lia.
  - rewrite rango_desc_S. simpl. munfold.
    rewrite getitem2_celda by lia.
    destruct (celda t (Z.of_nat n) c) as [x|] eqn:Ex.
    + destruct (x =? CASILLA_VACIA) eqn:E0; zbool.
      * subst x. rewrite (escribir_celda t _ c _ ficha Ex).
        intros [= <- <-]. right. split; [reflexivity|].
        exists (Z.of_nat n). split; [lia|]. split; [assumption|].
        split; [intros; lia|reflexivity].
      * intros H. destruct (IH H) as [(Hr & -> & Hall)|(-> & fila & Hf & H0 & Hall & ->)].
        -- left. split; [assumption|]. split; [reflexivity|].
           intros Hfalse f Hf.
           destruct (decide (f = Z.of_nat n)) as [->|]; [congruence|].
           apply Hall; [assumption|lia].
        -- right. split; [reflexivity|]. exists fila.
           split; [lia|]. split; [assumption|]. split; [|reflexivity].
           intros f Hf'.
           destruct (decide (f = Z.of_nat n)) as [->|]; [congruence|].
           apply Hall. lia.
    + intros [= <- <-]. left. split; [discriminate|].
      split; [reflexivity|]. discriminate.
Qed.

Lemma colocar_bucle_total t ficha c n :
  rectangular t -> 0 <= c < columnas t -> (n <= length t)%nat ->
  exists b t', colocar_bucle ficha c (rango_desc n) t = (Ok b, t').
Proof.
  intros Hrect Hc. induction n as [|n IH]; intros Hn.
  - simpl. eexists _, _. reflexivity.
  - rewrite rango_desc_S. simpl. munfold.
    destruct (celda_dentro t (Z.of_nat n) c Hrect) as [x Hx];
      [unfold filas; lia|assumption|].
    rewrite getitem2_celda, Hx by lia.
    destruct (x =? CASILLA_VACIA) eqn:E0; zbool.
    + subst x. rewrite (escribir_celda t _ c _ ficha Hx).
      eexists _, _. reflexivity.
    + apply IH. lia.
Qed.

Lemma ficha_valida_true ficha :
  ficha_valida ficha = true <-> ficha = FICHA_CIRCULO \/ ficha = FICHA_EQUIS.
Proof. unfold ficha_valida. rewrite orb_true_iff, !Z.eqb_eq. reflexivity. Qed.

(** Every call of [colocar_ficha], on any list of rows: either it does not
    report success and the board is untouched, or it reports success and has
    written a valid piece into the lowest empty cell of the column. *)
Lemma colocar_ficha_casos t ficha columna r t' :
  colocar_ficha t ficha columna = (r, t') ->
  (r <> Ok true /\ t' = t /\
   (r = Ok false -> ficha_valida ficha = true -> 0 <= columna < columnas t ->
    columna_llena t columna)) \/
  (r = Ok true /\ ficha_valida ficha = true /\ 0 <= columna < columnas t /\
   exists fila, fila_de_caida t columna fila /\ t' = poner t fila columna ficha).
Proof.
  unfold colocar_ficha. destruct t as [|fila0 t0] eqn:Et.
  { intros [= <- <-]. left. split; [discriminate|]. split; [reflexivity|].
    intros _ _ Hc. unfold columnas in Hc. simpl in Hc. lia. }
  destruct (fuera_de_rango fila0 columna) eqn:Hr.
  { intros [= <- <-]. left. split; [discriminate|]. split; [reflexivity|].
    intros _ _ Hc. apply (fuera_de_rango_false fila0 t0) in Hc. congruence. }
  destruct (negb (ficha_valida ficha)) eqn:Hv.
  { intros [= <- <-]. left. split; [discriminate|]. split; [reflexivity|].
    zbool. congruence. }
  zbool. apply fuera_de_rango_false with (t := t0) in Hr.
  rewrite <- Et in *. intros H.
  apply colocar_bucle_casos in H; [|lia].
  destruct H as [(Hne & -> & Hall)|(-> & fila & Hf & H0 & Hall & ->)].
  - left. split; [assumption|]. split; [reflexivity|].
    intros Hfalse _ _ f Hf.
    destruct (celda_nonneg _ _ _ _ Hf) as [Hf0 _].
    pose proof Hf as Hf'. rewrite celda_lookup in Hf' by lia.
    destruct (t !! Z.to_nat f) as [row|] eqn:Erow; [|discriminate].
    apply lookup_lt_Some in Erow.
    apply (Hall Hfalse f); [lia|assumption].
  - right. split; [reflexivity|]. split; [assumption|]. split; [assumption|].
    exists fila. split; [|reflexivity]. split; assumption.
Qed.

Lemma colocar_ficha_total t ficha columna :
  rectangular t -> exists b t', colocar_ficha t ficha columna = (Ok b, t').
Proof.
  intros Hrect. unfold colocar_ficha. destruct t as [|fila0 t0] eqn:Et.
  { eexists _, _. reflexivity. }
  destruct (fuera_de_rango fila0 columna) eqn:Hr.
  { eexists _, _. reflexivity. }
  destruct (negb (ficha_valida ficha)).
  { eexists _, _. reflexivity. }
  apply fuera_de_rango_false with (t := t0) in Hr.
  rewrite <- Et in *. apply colocar_bucle_total; [assumption|assumption|lia].
Qed.

Lemma rectangular_replicate n (fila : list Z) : rectangular (replicate n fila).
Proof.
  unfold rectangular. apply Forall_forall. intros fila' Hfila.
  apply elem_of_replicate in Hfila as [-> Hn].
  destruct n; [congruence|]. reflexivity.
Qed.

(** C2, as the code has it.  On a grid, for a column within range that has
    an empty cell and a valid piece, [colocar_ficha] reports success with
    the boolean [True], writes the piece into the lowest empty row of that
    column and leaves every other cell as it was.  The value returned is the
    success flag, not the row. *)
Theorem colocar_ficha_gravedad (t : tablero) (ficha columna : Z) :
  rectangular t -> 0 <= columna < columnas t ->
  ficha_valida ficha = true ->
  (exists f, celda t f columna = Some CASILLA_VACIA) ->
  exists fila,
    fila_de_caida t columna fila /\
    colocar_ficha t ficha columna = (Ok true, poner t fila columna ficha) /\
    celda (poner t fila columna ficha) fila columna = Some ficha /\
    forall f c, (f, c) <> (fila, columna) ->
                celda (poner t fila columna ficha) f c = celda t f c.
Proof.
  intros Hrect Hc Hv [f0 Hf0].
  destruct (colocar_ficha_total t ficha columna Hrect) as (b & t' & Hcol).
  destruct (colocar_ficha_casos _ _ _ _ _ Hcol)
    as [(Hne & _ & Hall)|(Hb & _ & _ & fila & Hcaida & ->)].
  - exfalso. destruct b; [congruence|].
    apply (Hall eq_refl Hv Hc f0). assumption.
  - injection Hb as ->. exists fila. split; [assumption|].
    destruct Hcaida as [H0 Hsobre].
    destruct (celda_nonneg _ _ _ _ H0) as [Hfila Hcol0].
    split; [assumption|]. split.
    + apply (celda_poner_eq t fila columna _ ficha H0).
    + intros f c Hne. apply celda_poner_ne; assumption.
Qed.

Lemma colocar_ficha_gravedad_witness :
  exists fila,
    fila_de_caida tablero_6x7 0 fila /\
    colocar_ficha tablero_6x7 1 0 = (Ok true, poner tablero_6x7 fila 0 1) /\
    celda (poner tablero_6x7 fila 0 1) fila 0 = Some 1 /\
    forall f c, (f, c) <> (fila, 0) ->
                celda (poner tablero_6x7 fila 0 1) f c = celda tablero_6x7 f c.
Proof.
  apply (colocar_ficha_gravedad tablero_6x7 1 0).
  - apply rectangular_replicate.
  - unfold columnas. simpl. lia.
  - reflexivity.
  - exists 0. reflexivity.
Defined.

(** C2 as stated fails: on the empty 6x7 board the piece dropped in column 0
    lands in row 5, and the call returns [True], which is not 5 (nor is its
    integer value 1). *)
Lemma colocar_ficha_devuelve_bool :
  fila_de_caida tablero_6x7 0 5 /\
  colocar_ficha tablero_6x7 1 0 = (Ok true, poner tablero_6x7 5 0 1) /\
  Z.b2z true <> 5.
Proof.
  split; [|split].
  - split; [reflexivity|]. unfold filas. simpl. intros f Hf. lia.
  - reflexivity.
  - discriminate.
Qed.

(** C3, as the code has it.  [colocar_ficha] fails with the same value
    [False] when the column is outside [0, columnas) and when every cell of
    the column is occupied; and whenever the call does not report success,
    the board is left as it was. *)
Theorem colocar_ficha_fallos (t : tablero) (ficha columna : Z) :
  (~ 0 <= columna < columnas t ->
   colocar_ficha t ficha columna = (Ok false, t)) /\
  (rectangular t -> 0 <= columna < columnas t -> columna_llena t columna ->
   colocar_ficha t ficha columna = (Ok false, t)) /\
  (forall r t', colocar_ficha t ficha columna = (r, t') -> r <> Ok true ->
                t' = t).
Proof.
  split; [|split].
  - intros Hc. unfold colocar_ficha. destruct t as [|fila0 t0]; [reflexivity|].
    destruct (fuera_de_rango fila0 columna) eqn:Hr; [reflexivity|].
    apply fuera_de_rango_false with (t := t0) in Hr. contradiction.
  - intros Hrect Hc Hllena.
    destruct (colocar_ficha_total t ficha columna Hrect) as (b & t' & Hcol).
    destruct (colocar_ficha_casos _ _ _ _ _ Hcol)
      as [(Hne & -> & _)|(_ & _ & _ & fila & [H0 _] & _)].
    + destruct b; [congruence|assumption].
    + exfalso. apply (Hllena fila). assumption.
  - intros r t' Hcol Hne.
    destruct (colocar_ficha_casos _ _ _ _ _ Hcol) as [(_ & -> & _)|(Hr & _)];
      [reflexivity|contradiction].
Qed.

Lemma columna_llena_ejemplo : columna_llena tablero_columna_llena 0.
Proof.
  intros f Hf.
  destruct (celda_fuera _ _ _ _ (rectangular_replicate _ _) Hf) as [Hr _].
  unfold filas in Hr. simpl in Hr.
  assert (f = 0 \/ f = 1 \/ f = 2 \/ f = 3 \/ f = 4 \/ f = 5) as Hcases by lia.
  destruct Hcases as [->|[->|[->|[->|[->| ->]]]]]; discriminate.
Qed.

Lemma colocar_ficha_fallos_witness :
  colocar_ficha tablero_columna_llena 1 7 = (Ok false, tablero_columna_llena) /\
  colocar_ficha tablero_columna_llena 1 0 = (Ok false, tablero_columna_llena) /\
  (forall r t', colocar_ficha tablero_columna_llena 3 2 = (r, t') ->
                r <> Ok true -> t' = tablero_columna_llena).
Proof.
  split; [|split].
  - apply (proj1 (colocar_ficha_fallos tablero_columna_llena 1 7)).
    unfold columnas. simpl. lia.
  - apply (proj1 (proj2 (colocar_ficha_fallos tablero_columna_llena 1 0))).
    + apply rectangular_replicate.
    + unfold columnas. simpl. lia.
    + apply columna_llena_ejemplo.
  - apply (proj2 (proj2 (colocar_ficha_fallos tablero_columna_llena 3 2))).
Defined.

(** C3 as stated fails: a column out of range (7) and a full column (0) are
    answered with the same value, so the two failures cannot be told apart
    by the caller. *)
Lemma colocar_ficha_fallos_iguales :
  ~ 0 <= 7 < columnas tablero_columna_llena /\
  0 <= 0 < columnas tablero_columna_llena /\
  columna_llena tablero_columna_llena 0 /\
  (colocar_ficha tablero_columna_llena 1 7).1
  = (colocar_ficha tablero_columna_llena 1 0).1.
Proof.
  split; [|split; [|split]].
  - unfold columnas. simpl. lia.
  - unfold columnas. simpl. lia.
  - apply columna_llena_ejemplo.
  - reflexivity.
Qed.

(** ** Win detection *)

Lemma primera_ocupada_seq t c n :
  0 <= c -> forall s r,
  primera_ocupada t c (Z.of_nat <$> seq s n) = Ok r ->
  (r = -1 /\
   forall f, Z.of_nat s <= f < Z.of_nat (s + n) ->
             celda t f c = Some CASILLA_VACIA) \/
  (Z.of_nat s <= r < Z.of_nat (s + n) /\
   (exists x, celda t r c = Some x /\ x <> CASILLA_VACIA) /\
   forall f, Z.of_nat s <= f < r -> celda t f c = Some CASILLA_VACIA).
Proof.
  intros Hc. induction n as [|n IH]; intros s r.
  - simpl. intros [= <-]. left. split; [reflexivity|]. intros; lia.
  - simpl. intros H. apply result_bind_Ok in H as (x & Hx & H).
    rewrite getitem2_celda in Hx by lia.
    destruct (celda t (Z.of_nat s) c) as [y|] eqn:Ey; [|discriminate].
    injection Hx as ->.
    destruct (x =? CASILLA_VACIA) eqn:Ex; zbool.
    + subst x. destruct (IH _ _ H) as [[-> Hall]|(Hr & Hx & Hall)].
      * left. split; [reflexivity|]. intros f Hf.
        destruct (decide (f = Z.of_nat s)) as [->|]; [assumption|].
        apply Hall. lia.
      * right. split; [lia|]. split; [assumption|]. intros f Hf.
        destruct (decide (f = Z.of_nat s)) as [->|]; [assumption|].
        apply Hall. lia.
    + injection H as <-. right. split; [lia|].
      split; [eauto|]. intros; lia.
Qed.

Lemma primera_ocupada_total t c n :
  rectangular t -> 0 <= c < columnas t ->
  forall s, (s + n <= length t)%nat ->
  exists r, primera_ocupada t c (Z.of_nat <$> seq s n) = Ok r.
Proof.
  intros Hrect Hc. induction n as [|n IH]; intros s Hn.
  - simpl. eauto.
  - simpl.
    destruct (celda_dentro t (Z.of_nat s) c Hrect) as [x Hx];
      [unfold filas; lia|assumption|].
    rewrite getitem2_celda, Hx by lia. msimpl.
    destruct (x =? CASILLA_VACIA); [|eauto]. apply IH. lia.
Qed.

Lemma comprobar_direcciones_spec t fila columna ficha n ds :
  rectangular t -> (forall d, d ∈ ds -> d.1 <> 0 \/ d.2 <> 0) ->
  exists b,
    comprobar_direcciones t fila columna ficha n ds = Ok b /\
    (b = true <->
     exists d v, d ∈ ds /\ total_direccion t fila columna ficha d = Ok v /\
                 n <= v).
Proof.
  intros Hrect. induction ds as [|d ds IH]; intros Hds.
  - exists false. split; [reflexivity|]. split; [discriminate|].
    intros (d & v & Hd & _). apply elem_of_nil in Hd. contradiction.
  - simpl.
    destruct (total_direccion_ok t fila columna ficha d Hrect) as (v & Hv & _).
    { apply Hds. left. }
    rewrite Hv. msimpl.
    destruct (n <=? v) eqn:E; zbool.
    + exists true. split; [reflexivity|]. split; [|reflexivity].
      intros _. exists d, v. split; [left|]. split; assumption.
    + destruct IH as (b & Hb & Hiff).
      { intros d' Hd'. apply Hds. right. assumption. }
      exists b. split; [assumption|]. rewrite Hiff. split.
      * intros (d' & v' & Hd' & Hv' & Hn). exists d', v'.
        split; [right; assumption|]. split; assumption.
      * intros (d' & v' & Hd' & Hv' & Hn).
        apply elem_of_cons in Hd' as [->|Hd'].
        -- rewrite Hv in Hv'. injection Hv' as <-. lia.
        -- exists d', v'. split; [assumption|]. split; assumption.
Qed.

Lemma total_direccion_Ok t fila columna ficha d v :
  total_direccion t fila columna ficha d = Ok v <->
  exists a b,
    contar_fichas_direccion t fila columna ficha d.1 d.2 = Ok a /\
    contar_fichas_direccion t fila columna ficha (- d.1) (- d.2) = Ok b /\
    v = 1 + a + b.
Proof.
  unfold total_direccion. split.
  - intros H. apply result_bind_Ok in H as (a & Ha & H).
    apply result_bind_Ok in H as (b & Hb & H).
    injection H as <-. eauto.
  - intros (a & b & -> & -> & ->). reflexivity.
Qed.

Lemma comprobar_linea_sin_ancla t columna n :
  rectangular t -> (0 <= columna < columnas t -> columna_vacia t columna) ->
  comprobar_linea t columna n = Ok false.
Proof.
  intros Hrect Hvacia. unfold comprobar_linea.
  destruct t as [|fila0 t0] eqn:Et; [reflexivity|].
  destruct (fuera_de_rango fila0 columna) eqn:Hr; [reflexivity|].
  destruct (n <? 1); [reflexivity|].
  apply fuera_de_rango_false with (t := t0) in Hr.
  rewrite <- Et in *. specialize (Hvacia Hr).
  destruct (primera_ocupada_total t columna (length t) Hrect Hr 0%nat) as [r Hp];
    [lia|].
  unfold rango. rewrite Hp. msimpl.
  apply primera_ocupada_seq in Hp; [|lia].
  destruct Hp as [[-> _]|(Hr0 & (x & Hx & Hne) & _)]; [reflexivity|].
  exfalso. rewrite (Hvacia r) in Hx; [|unfold filas; lia].
  congruence.
Qed.

Lemma comprobar_linea_con_ancla t columna n fila ficha :
  rectangular t -> 1 <= n -> ancla t columna fila ->
  celda t fila columna = Some ficha ->
  exists b,
    comprobar_linea t columna n = Ok b /\
    (b = true <->
     exists d v, d ∈ direcciones /\
                 total_direccion t fila columna ficha d = Ok v /\ n <= v).
Proof.
  intros Hrect Hn [(x & Hx & Hne) Hsobre] Hficha.
  assert (x = ficha) as -> by congruence.
  destruct (celda_fuera _ _ _ _ Hrect Hficha) as [Hfila Hcol].
  unfold comprobar_linea.
  destruct t as [|fila0 t0] eqn:Et; [unfold filas in Hfila; simpl in Hfila; lia|].
  rewrite (proj2 (fuera_de_rango_false fila0 t0 columna) Hcol).
  rewrite (proj2 (Z.ltb_ge n 1)) by lia.
  rewrite <- Et in *.
  destruct (primera_ocupada_total t columna (length t) Hrect Hcol 0%nat) as [r Hp];
    [lia|].
  unfold rango. rewrite Hp. munfold.
  apply primera_ocupada_seq in Hp; [|lia].
  assert (r = fila) as ->.
  { destruct Hp as [[-> Hall]|(Hr0 & (y & Hy & Hney) & Hall)].
    - rewrite (Hall fila) in Hficha by (unfold filas in Hfila; lia). congruence.
    - destruct (Z.lt_trichotomy r fila) as [Hlt|[Heq|Hgt]]; [|assumption|].
      + rewrite (Hsobre r) in Hy by lia. congruence.
      + rewrite (Hall fila) in Hficha by lia. congruence. }
  rewrite (proj2 (Z.eqb_neq fila (-1))) by lia.
  rewrite getitem2_celda, Hficha by lia.
  apply comprobar_direcciones_spec; [assumption|apply direcciones_no_nulas].
Qed.

Lemma ancla_existe t columna :
  rectangular t -> 0 <= columna < columnas t ->
  columna_vacia t columna \/
  exists fila ficha, ancla t columna fila /\ celda t fila columna = Some ficha.
Proof.
  intros Hrect Hcol.
  destruct (primera_ocupada_total t columna (length t) Hrect Hcol 0%nat) as [r Hp];
    [lia|].
  apply primera_ocupada_seq in Hp; [|lia].
  destruct Hp as [[_ Hall]|(Hr & (x & Hx & Hne) & Hall)].
  - left. intros f Hf. apply Hall. unfold filas in Hf. lia.
  - right. exists r, x. split; [|assumption]. split; [eauto|].
    intros f Hf. apply Hall. lia.
Qed.

Lemma direcciones_cuatro (d : Z * Z) :
  d ∈ direcciones <->
  d = (0, 1) \/ d = (1, 0) \/ d = (1, 1) \/ d = (1, -1).
Proof.
  unfold direcciones. rewrite !elem_of_cons, elem_of_nil. tauto.
Qed.

Lemma existe_direccion (P : Z -> Z -> Prop) :
  (exists d, d ∈ direcciones /\ P d.1 d.2) <->
  P 0 1 \/ P 1 0 \/ P 1 1 \/ P 1 (-1).
Proof.
  split.
  - intros (d & Hd & HP). apply direcciones_cuatro in Hd.
    destruct Hd as [->|[->|[->| ->]]]; auto.
  - intros [H|[H|[H|H]]];
      [exists (0, 1)|exists (1, 0)|exists (1, 1)|exists (1, -1)];
      (split; [apply direcciones_cuatro; auto|exact H]).
Qed.

(** C5. On a grid, for a column within range and a win length of at least
    1, the column is either entirely empty or has a topmost occupied cell;
    [comprobar_linea] answers [False] when the column is entirely empty
    (so on a board with no piece it answers [False] for every column); and
    when the column holds a piece, it anchors at the topmost occupied cell
    and answers [True] exactly when, for one of the four axes, (0, 1)
    horizontal, (1, 0) vertical, (1, 1) and (1, -1) diagonal, one plus the
    counts of the anchor's piece forward and backward reaches the win
    length. *)
Theorem comprobar_linea_ancla (t : tablero) (columna n : Z) :
  rectangular t -> 0 <= columna < columnas t -> 1 <= n ->
  (columna_vacia t columna \/
   exists fila ficha, ancla t columna fila /\ celda t fila columna = Some ficha) /\
  (columna_vacia t columna -> comprobar_linea t columna n = Ok false) /\
  ((forall c, columna_vacia t c) ->
   forall c n', comprobar_linea t c n' = Ok false) /\
  (forall fila ficha,
     ancla t columna fila -> celda t fila columna = Some ficha ->
     exists res,
       comprobar_linea t columna n = Ok res /\
       (res = true <->
        exists df dc a b,
          ((df, dc) = (0, 1) \/ (df, dc) = (1, 0) \/
           (df, dc) = (1, 1) \/ (df, dc) = (1, -1)) /\
          contar_fichas_direccion t fila columna ficha df dc = Ok a /\
          contar_fichas_direccion t fila columna ficha (- df) (- dc) = Ok b /\
          n <= 1 + a + b)).
Proof.
  intros Hrect Hcol Hn. split; [|split; [|split]].
  - apply ancla_existe; assumption.
  - intros Hvacia. apply comprobar_linea_sin_ancla; auto.
  - intros Hvacio c n'. apply comprobar_linea_sin_ancla; auto.
  - intros fila ficha Hancla Hficha.
    destruct (comprobar_linea_con_ancla t columna n fila ficha Hrect Hn Hancla
                Hficha) as (res & Hres & Hiff).
    exists res. split; [assumption|]. rewrite Hiff. split.
    + intros (d & v & Hd & Hv & Hle).
      apply total_direccion_Ok in Hv as (a & b & Ha & Hb & ->).
      exists d.1, d.2, a, b. rewrite <- surjective_pairing.
      split; [apply direcciones_cuatro; assumption|auto].
    + intros (df & dc & a & b & Hd & Ha & Hb & Hle).
      exists (df, dc), (1 + a + b).
      split; [apply direcciones_cuatro; assumption|]. split; [|assumption].
      apply total_direccion_Ok. eauto.
Qed.

Lemma rectangular_tablero_tres : rectangular tablero_tres.
Proof. unfold rectangular, tablero_tres. simpl. repeat constructor. Qed.

Lemma comprobar_linea_ancla_witness :
  (columna_vacia tablero_tres 2 \/
   exists fila ficha,
     ancla tablero_tres 2 fila /\ celda tablero_tres fila 2 = Some ficha) /\
  (columna_vacia tablero_tres 2 -> comprobar_linea tablero_tres 2 3 = Ok false) /\
  ((forall c, columna_vacia tablero_tres c) ->
   forall c n', comprobar_linea tablero_tres c n' = Ok false) /\
  (forall fila ficha,
     ancla tablero_tres 2 fila -> celda tablero_tres fila 2 = Some ficha ->
     exists res,
       comprobar_linea tablero_tres 2 3 = Ok res /\
       (res = true <->
        exists df dc a b,
          ((df, dc) = (0, 1) \/ (df, dc) = (1, 0) \/
           (df, dc) = (1, 1) \/ (df, dc) = (1, -1)) /\
          contar_fichas_direccion tablero_tres fila 2 ficha df dc = Ok a /\
          contar_fichas_direccion tablero_tres fila 2 ficha (- df) (- dc)
          = Ok b /\
          3 <= 1 + a + b)).
Proof.
  apply (comprobar_linea_ancla tablero_tres 2 3).
  - apply rectangular_tablero_tres.
  - unfold columnas. simpl. lia.
  - lia.
Defined.

Lemma fichas_en_linea_no_muta_witness :
  exists v, fichas_en_linea tablero_tres 1 3 = (Ok v, tablero_tres).
Proof.
  apply (proj2 (fichas_en_linea_no_muta tablero_tres 1 3)).
  apply rectangular_tablero_tres.
Defined.

Lemma contar_fichas_direccion_racha_witness :
  exists a b,
    contar_fichas_direccion tablero_tres 5 1 1 0 1 = Ok a /\
    contar_fichas_direccion tablero_tres 5 1 1 (- 0) (- 1) = Ok b /\
    0 <= a /\ 0 <= b /\
    (forall i, 1 <= i <= a -> en_racha tablero_tres 5 1 1 0 1 i) /\
    ~ en_racha tablero_tres 5 1 1 0 1 (a + 1) /\
    (~ en_racha tablero_tres 5 1 1 0 1 1 -> a = 0) /\
    (forall x v, celda tablero_tres 5 1 = Some x ->
       contar_fichas_direccion (poner tablero_tres 5 1 v) 5 1 1 0 1 = Ok a) /\
    (en_racha tablero_tres 5 1 1 0 1 0 ->
       racha_maxima tablero_tres 5 1 1 0 1 (- b) a /\
       forall lo hi, racha_maxima tablero_tres 5 1 1 0 1 lo hi ->
                     a + b + 1 = hi - lo + 1).
Proof.
  apply (contar_fichas_direccion_racha tablero_tres 5 1 1 0 1).
  - apply rectangular_tablero_tres.
  - right. lia.
Defined.

(** With the direction (0, 0), which no caller passes, the loop of the source
    never leaves a cell that holds the piece. *)
Lemma contar_fichas_direccion_sin_avance :
  contar_fichas_direccion tablero_tres 5 1 1 0 0 = Diverge /\
  contar_fichas_direccion tablero_tres 5 1 2 0 0 = Ok 0.
Proof. split; reflexivity. Qed.

(** ** Board creation *)

Lemma celda_replicate n m (x : Z) i j :
  0 <= i < Z.of_nat n -> 0 <= j < Z.of_nat m ->
  celda (replicate n (replicate m x)) i j = Some x.
Proof.
  intros Hi Hj. rewrite celda_lookup by lia.
  rewrite lookup_replicate_2 by lia. simpl.
  apply lookup_replicate_2. lia.
Qed.

Lemma hay_casillas_libres_replicate n m :
  (0 < n)%nat -> (0 < m)%nat ->
  hay_casillas_libres (replicate n (replicate m CASILLA_VACIA)) = true.
Proof.
  intros Hn Hm. destruct n as [|n]; [lia|]. destruct m as [|m]; [lia|].
  reflexivity.
Qed.

(** C6. [crear_tablero] succeeds exactly when both arguments are integers
    with at least 6 rows and 7 columns (5 rows or 6 columns fail, 6 by 7
    succeeds) and fails, with its failure value [None], otherwise; the board
    it returns has the requested dimensions, every cell empty, and
    [hay_casillas_libres] answers [True] on it. *)
Theorem crear_tablero_spec (f c : pyval) :
  (is_Some (crear_tablero f c) <->
   exists fz cz, f = PyInt fz /\ c = PyInt cz /\ 6 <= fz /\ 7 <= cz) /\
  (crear_tablero f c = None <->
   ~ exists fz cz, f = PyInt fz /\ c = PyInt cz /\ 6 <= fz /\ 7 <= cz) /\
  crear_tablero (PyInt 5) c = None /\
  crear_tablero f (PyInt 6) = None /\
  is_Some (crear_tablero (PyInt 6) (PyInt 7)) /\
  forall t, crear_tablero f c = Some t ->
    exists fz cz,
      f = PyInt fz /\ c = PyInt cz /\
      filas t = fz /\ columnas t = cz /\ rectangular t /\
      (forall i j, 0 <= i < fz -> 0 <= j < cz ->
                   celda t i j = Some CASILLA_VACIA) /\
      hay_casillas_libres t = true.
Proof.
  assert (Hiff : is_Some (crear_tablero f c) <->
                 exists fz cz, f = PyInt fz /\ c = PyInt cz /\ 6 <= fz /\ 7 <= cz).
  { unfold crear_tablero. split.
    - intros [t Ht]. destruct f as [fz|]; [|discriminate].
      destruct c as [cz|]; [|discriminate].
      destruct ((fz <? 6) || (cz <? 7)) eqn:E; [discriminate|]. zbool.
      exists fz, cz. auto.
    - intros (fz & cz & -> & -> & Hf & Hc).
      rewrite (proj2 (Z.ltb_ge fz 6)), (proj2 (Z.ltb_ge cz 7)) by lia.
      simpl. eauto. }
  split; [assumption|]. split; [|split; [|split; [|split]]].
  - rewrite <- Hiff, <- not_eq_None_Some. split; [auto|].
    intros H. destruct (crear_tablero f c); [|reflexivity].
    exfalso. apply H. discriminate.
  - destruct c; reflexivity.
  - destruct f as [fz|]; [|reflexivity]. simpl.
    rewrite orb_true_r. reflexivity.
  - simpl. eauto.
  - intros t Ht.
    destruct (proj1 Hiff (ex_intro _ t Ht)) as (fz & cz & -> & -> & Hf & Hc).
    exists fz, cz. split; [reflexivity|]. split; [reflexivity|].
    unfold crear_tablero in Ht.
    rewrite (proj2 (Z.ltb_ge fz 6)), (proj2 (Z.ltb_ge cz 7)) in Ht by lia.
    simpl in Ht. injection Ht as <-.
    split; [|split; [|split; [|split]]].
    + unfold filas. rewrite length_replicate. lia.
    + unfold columnas. destruct (Z.to_nat fz) eqn:E; [lia|]. simpl.
      rewrite length_replicate. lia.
    + apply rectangular_replicate.
    + intros i j Hi Hj. apply celda_replicate; lia.
    + apply hay_casillas_libres_replicate; lia.
Qed.

Lemma crear_tablero_spec_witness :
  exists fz cz,
    PyInt 6 = PyInt fz /\ PyInt 7 = PyInt cz /\
    filas tablero_6x7 = fz /\ columnas tablero_6x7 = cz /\
    rectangular tablero_6x7 /\
    (forall i j, 0 <= i < fz -> 0 <= j < cz ->
                 celda tablero_6x7 i j = Some CASILLA_VACIA) /\
    hay_casillas_libres tablero_6x7 = true.
Proof.
  apply (proj2 (proj2 (proj2 (proj2 (proj2
           (crear_tablero_spec (PyInt 6) (PyInt 7))))))).
  reflexivity.
Defined.

(** ** Available columns *)

Lemma columna_esta_disponible_spec t c :
  exists b, columna_esta_disponible t c = Ok b /\ (b = true <-> disponible t c).
Proof.
  unfold columna_esta_disponible, disponible.
  destruct t as [|fila0 t0] eqn:Et.
  { exists false. split; [reflexivity|]. unfold columnas. simpl.
    split; [discriminate|lia]. }
  destruct (fuera_de_rango fila0 c) eqn:Hr.
  { exists false. split; [reflexivity|]. split; [discriminate|].
    intros [Hc _]. apply (fuera_de_rango_false fila0 t0) in Hc. congruence. }
  apply fuera_de_rango_false with (t := t0) in Hr.
  rewrite getitem2_celda by lia.
  assert (exists x, celda (fila0 :: t0) 0 c = Some x) as [x Hx].
  { rewrite celda_lookup by lia. simpl.
    apply lookup_lt_is_Some_2. rewrite columnas_cons in Hr. lia. }
  rewrite Hx. msimpl. exists (x =? CASILLA_VACIA). split; [reflexivity|].
  rewrite Z.eqb_eq. split.
  - intros ->. auto.
  - intros [_ [= ->]]. reflexivity.
Qed.

Lemma filtrar_disponibles_spec t cols :
  exists l,
    filtrar_disponibles t cols = Ok l /\
    (forall c, c ∈ l <-> c ∈ cols /\ disponible t c) /\
    (StronglySorted Z.lt cols -> StronglySorted Z.lt l).
Proof.
  induction cols as [|col cols (rest & Hrest & Hmem & Hsort)].
  - exists []. split; [reflexivity|]. split; [|auto].
    intros c. split; [intros H|intros [H _]]; apply elem_of_nil in H; contradiction.
  - simpl. destruct (columna_esta_disponible_spec t col) as (b & Hb & Hiff).
    rewrite Hb, Hrest. msimpl.
    exists (if b then col :: rest else rest). split; [reflexivity|]. split.
    + intros c. destruct b.
      * rewrite !elem_of_cons, Hmem. split.
        -- intros [->|[H1 H2]]; [|auto]. split; [auto|]. apply Hiff. reflexivity.
        -- intros [[->|H1] H2]; auto.
      * rewrite elem_of_cons, Hmem. split.
        -- intros [H1 H2]. auto.
        -- intros [[->|H1] H2]; [|auto].
           apply Hiff in H2. discriminate.
    + intros Hs. apply StronglySorted_cons in Hs as [Hall Hs].
      specialize (Hsort Hs). destruct b; [|assumption].
      apply StronglySorted_cons. split; [|assumption].
      rewrite Forall_forall in *. intros c Hc. apply Hall, Hmem. assumption.
Qed.

Lemma rango_ordenado n : StronglySorted Z.lt (rango n).
Proof.
  induction n as [|n IH]; [constructor|].
  rewrite rango_S. apply StronglySorted_app. split; [|split].
  - intros x1 x2 H1 H2. apply elem_of_rango in H1.
    apply list_elem_of_singleton in H2. lia.
  - assumption.
  - repeat constructor.
Qed.

(** The available columns: total, in ascending order, each of them within
    range and with an empty top cell. *)
Lemma obtener_columnas_disponibles_spec t :
  exists cols,
    obtener_columnas_disponibles t = Ok cols /\
    (forall c, c ∈ cols <-> disponible t c) /\
    StronglySorted Z.lt cols.
Proof.
  unfold obtener_columnas_disponibles. destruct t as [|fila0 t0] eqn:Et.
  - exists []. split; [reflexivity|]. split; [|constructor].
    intros c. unfold disponible, columnas. simpl. split.
    + intros H. apply elem_of_nil in H. contradiction.
    + lia.
  - destruct (filtrar_disponibles_spec (fila0 :: t0) (rango (length fila0)))
      as (l & Hl & Hmem & Hsort).
    exists l. split; [assumption|]. split; [|apply Hsort, rango_ordenado].
    intros c. rewrite Hmem, elem_of_rango. split; [tauto|].
    intros H. split; [|assumption]. destruct H as [H _].
    rewrite columnas_cons in H. assumption.
Qed.

Lemma random_choice_elem seed (l : list Z) :
  l <> [] -> exists c, random_choice seed l = Ok c /\ c ∈ l.
Proof.
  intros Hne. unfold random_choice. destruct l as [|x l'] eqn:El; [congruence|].
  rewrite <- El. rewrite getitem_nonneg by lia. rewrite Nat2Z.id.
  assert (seed `mod` length l < length l)%nat as Hlt.
  { apply Nat.mod_upper_bound. rewrite El. simpl. lia. }
  destruct (lookup_lt_is_Some_2 l _ Hlt) as [c Hc].
  rewrite Hc. exists c. split; [reflexivity|].
  eapply list_elem_of_lookup_2. eassumption.
Qed.

(** ** The strategies *)

Lemma primera_con_umbral_spec t ficha n cols :
  rectangular t ->
  exists o,
    primera_con_umbral ficha n cols t = (Ok o, t) /\
    match o with
    | Some c => exists pre post,
                  cols = pre ++ c :: post /\ alcanza t ficha n c /\
                  forall c', c' ∈ pre -> ~ alcanza t ficha n c'
    | None => forall c, c ∈ cols -> ~ alcanza t ficha n c
    end.
Proof.
  intros Hrect. induction cols as [|col cols (o & Ho & Hspec)].
  - exists None. split; [reflexivity|]. intros c Hc.
    apply elem_of_nil in Hc. contradiction.
  - simpl. munfold.
    destruct (fichas_en_linea_rect t ficha col Hrect) as (v & Hv & _).
    rewrite Hv. destruct (n <=? v) eqn:E; zbool.
    + exists (Some col). split; [reflexivity|]. exists [], cols.
      split; [reflexivity|]. split.
      * exists v. rewrite Hv. auto.
      * intros c' Hc'. apply elem_of_nil in Hc'. contradiction.
    + assert (Hno : ~ alcanza t ficha n col).
      { intros (v' & Hv' & Hle). rewrite Hv in Hv'. simpl in Hv'.
        injection Hv' as <-. lia. }
      exists o. split; [assumption|]. destruct o as [c|].
      * destruct Hspec as (pre & post & -> & Hc & Hpre).
        exists (col :: pre), post. split; [reflexivity|]. split; [assumption|].
        intros c' Hc'. apply elem_of_cons in Hc' as [->|Hc']; auto.
      * intros c Hc. apply elem_of_cons in Hc as [->|Hc]; auto.
Qed.

(** In an ascending list, the first column that qualifies is the smallest. *)
Lemma primera_es_menor (P : Z -> Prop) pre c post :
  StronglySorted Z.lt (pre ++ c :: post) ->
  (forall c', c' ∈ pre -> ~ P c') ->
  forall c', c' ∈ pre ++ c :: post -> P c' -> c <= c'.
Proof.
  intros Hs Hpre c' Hc' HP.
  apply StronglySorted_app in Hs as (_ & _ & Hs).
  apply StronglySorted_cons in Hs as [Hall _].
  rewrite Forall_forall in Hall.
  apply elem_of_app in Hc' as [Hc'|Hc'].
  - exfalso. apply (Hpre c'); assumption.
  - apply elem_of_cons in Hc' as [->|Hc']; [lia|].
    specialize (Hall _ Hc'). lia.
Qed.

Lemma maximizar_total t ficha cols :
  rectangular t ->
  forall mejor maxf,
  exists mejor' maxf',
    maximizar ficha cols mejor maxf t = (Ok (mejor', maxf'), t) /\
    forall c, c ∈ mejor' -> c ∈ mejor \/ c ∈ cols.
Proof.
  intros Hrect. induction cols as [|col cols IH]; intros mejor maxf.
  - exists mejor, maxf. split; [reflexivity|]. auto.
  - simpl. munfold.
    destruct (fichas_en_linea_rect t ficha col Hrect) as (v & Hv & _).
    rewrite Hv. destruct (maxf <? v).
    + destruct (IH [col] v) as (m' & x' & H & Hsub).
      exists m', x'. split; [assumption|]. intros c Hc.
      destruct (Hsub c Hc) as [H1|H1].
      * apply list_elem_of_singleton in H1 as ->. right. left.
      * right. right. assumption.
    + destruct (v =? maxf).
      * destruct (IH (mejor ++ [col]) maxf) as (m' & x' & H & Hsub).
        exists m', x'. split; [assumption|]. intros c Hc.
        destruct (Hsub c Hc) as [H1|H1].
        -- apply elem_of_app in H1 as [H1|H1]; [auto|].
           apply list_elem_of_singleton in H1 as ->. right. left.
        -- right. right. assumption.
      * destruct (IH mejor maxf) as (m' & x' & H & Hsub).
        exists m', x'. split; [assumption|]. intros c Hc.
        destruct (Hsub c Hc) as [H1|H1]; [auto|]. right. right. assumption.
Qed.

Lemma maximizar_positivo t ficha cols :
  (forall c, c ∈ cols ->
     exists v, fichas_en_linea t ficha c = (Ok v, t) /\ 1 <= v) ->
  forall mejor maxf mejor' maxf',
    maximizar ficha cols mejor maxf t = (Ok (mejor', maxf'), t) ->
    0 <= maxf -> (0 < maxf -> mejor <> []) ->
    maxf <= maxf' /\ (0 < maxf' -> mejor' <> []) /\ (cols <> [] -> 0 < maxf').
Proof.
  induction cols as [|col cols IH]; intros Hcols mejor maxf mejor' maxf'.
  - simpl. intros [= <- <-] H0 Hne. split; [lia|]. split; [assumption|congruence].
  - simpl. munfold.
    destruct (Hcols col) as (v & Hv & Hv1); [left|].
    assert (Hcols' : forall c, c ∈ cols ->
              exists v, fichas_en_linea t ficha c = (Ok v, t) /\ 1 <= v).
    { intros c Hc. apply Hcols. right. assumption. }
    rewrite Hv. destruct (maxf <? v) eqn:E1; zbool.
    + intros H H0 Hne.
      destruct (IH Hcols' [col] v _ _ H) as (Hle & Hne' & _);
        [lia|discriminate|].
      split; [lia|]. split; [assumption|]. intros _. lia.
    + destruct (v =? maxf) eqn:E2; zbool.
      * intros H H0 Hne.
        destruct (IH Hcols' (mejor ++ [col]) maxf _ _ H) as (Hle & Hne' & _);
          [lia| |].
        { intros _ Happ. apply app_eq_nil in Happ as [_ Happ]. discriminate. }
        split; [lia|]. split; [assumption|]. intros _. lia.
      * intros H H0 Hne.
        destruct (IH Hcols' mejor maxf _ _ H) as (Hle & Hne' & _);
          [lia|assumption|].
        split; [lia|]. split; [assumption|]. intros _. lia.
Qed.

Lemma ia_nivel_2_regla_vacio seed t ia jug n :
  obtener_columnas_disponibles t = Ok [] ->
  ia_nivel_2_regla seed t ia jug n = (Ok (SinMovimiento, -1), t).
Proof. intros H. unfold ia_nivel_2_regla. munfold. rewrite H. reflexivity. Qed.

(** What [ia_nivel_2] returns on a grid with a column available, by rule. *)
Lemma ia_nivel_2_regla_spec seed t ia jug n cols :
  rectangular t -> obtener_columnas_disponibles t = Ok cols -> cols <> [] ->
  exists r col,
    ia_nivel_2_regla seed t ia jug n = (Ok (r, col), t) /\ col ∈ cols /\
    match r with
    | SinMovimiento => False
    | Ganar =>
        alcanza t ia n col /\
        forall c', c' ∈ cols -> alcanza t ia n c' -> col <= c'
    | Bloquear =>
        (forall c, c ∈ cols -> ~ alcanza t ia n c) /\
        alcanza t jug n col /\
        forall c', c' ∈ cols -> alcanza t jug n c' -> col <= c'
    | Maximizar =>
        (forall c, c ∈ cols -> ~ alcanza t ia n c) /\
        (forall c, c ∈ cols -> ~ alcanza t jug n c) /\
        exists mejor maxf,
          maximizar ia cols [] 0 t = (Ok (mejor, maxf), t) /\
          mejor <> [] /\ 0 < maxf /\ col ∈ mejor
    | Aleatorio =>
        (forall c, c ∈ cols -> ~ alcanza t ia n c) /\
        (forall c, c ∈ cols -> ~ alcanza t jug n c) /\
        exists mejor maxf,
          maximizar ia cols [] 0 t = (Ok (mejor, maxf), t) /\
          ~ (mejor <> [] /\ 0 < maxf)
    end.
Proof.
  intros Hrect Hcols Hne.
  destruct (obtener_columnas_disponibles_spec t) as (cols' & Hcols' & _ & Hsort).
  rewrite Hcols in Hcols'. injection Hcols' as <-.
  unfold ia_nivel_2_regla. munfold. rewrite Hcols.
  destruct cols as [|c0 cols0] eqn:Ec; [congruence|]. rewrite <- Ec in *.
  destruct (primera_con_umbral_spec t ia n cols Hrect) as (g & Hg & Hgs).
  rewrite Hg. destruct g as [col|].
  { destruct Hgs as (pre & post & Hpp & Hal & Hpre).
    exists Ganar, col. split; [reflexivity|]. split.
    - rewrite Hpp. apply elem_of_app. right. left.
    - split; [assumption|]. intros c' Hc' Hal'.
      apply (primera_es_menor (alcanza t ia n) pre col post);
        [rewrite <- Hpp; assumption|assumption|rewrite <- Hpp; assumption|assumption]. }
  destruct (primera_con_umbral_spec t jug n cols Hrect) as (b & Hb & Hbs).
  rewrite Hb. destruct b as [col|].
  { destruct Hbs as (pre & post & Hpp & Hal & Hpre).
    exists Bloquear, col. split; [reflexivity|]. split.
    - rewrite Hpp. apply elem_of_app. right. left.
    - split; [assumption|]. split; [assumption|]. intros c' Hc' Hal'.
      apply (primera_es_menor (alcanza t jug n) pre col post);
        [rewrite <- Hpp; assumption|assumption|rewrite <- Hpp; assumption|assumption]. }
  destruct (maximizar_total t ia cols Hrect [] 0) as (mejor & maxf & Hm & Hsub).
  rewrite Hm. cbv beta iota. cbn [fst snd].
  destruct (negb (bool_decide (mejor = [])) && (0 <? maxf)) eqn:E.
  - apply andb_true_iff in E as [E1 E2]. apply negb_true_iff in E1.
    apply bool_decide_eq_false in E1. apply Z.ltb_lt in E2.
    destruct (random_choice_elem seed mejor E1) as (col & Hcol & Hin).
    rewrite Hcol. exists Maximizar, col. split; [reflexivity|]. split.
    + destruct (Hsub col Hin) as [H|H]; [|assumption].
      apply elem_of_nil in H. contradiction.
    + split; [assumption|]. split; [assumption|]. exists mejor, maxf. auto.
  - destruct (random_choice_elem seed cols Hne) as (col & Hcol & Hin).
    rewrite Hcol. exists Aleatorio, col. split; [reflexivity|].
    split; [assumption|]. split; [assumption|]. split; [assumption|].
    exists mejor, maxf. split; [reflexivity|]. intros [H1 H2].
    apply andb_false_iff in E as [E|E].
    + apply negb_false_iff, bool_decide_eq_true in E. contradiction.
    + apply Z.ltb_ge in E. lia.
Qed.

Lemma ia_nivel_2_de_regla seed t ia jug n r col t' :
  ia_nivel_2_regla seed t ia jug n = (Ok (r, col), t') ->
  ia_nivel_2 seed t ia jug n = (Ok col, t').
Proof. intros H. unfold ia_nivel_2. rewrite H. reflexivity. Qed.

(** C4. [ia_nivel_2] on a grid with at least one available column: if some
    available column lets the AI reach the win length, the smallest such
    column is returned; otherwise, if some available column lets the
    opponent reach it, the smallest of those is returned, whatever the AI's
    own best line elsewhere. *)
Theorem ia_nivel_2_ganar_bloquear
    (seed : nat) (t : tablero) (ia jug n : Z) (cols : list Z) :
  rectangular t -> obtener_columnas_disponibles t = Ok cols -> cols <> [] ->
  ((exists c, c ∈ cols /\ alcanza t ia n c) ->
   exists c0,
     ia_nivel_2 seed t ia jug n = (Ok c0, t) /\ c0 ∈ cols /\
     alcanza t ia n c0 /\
     forall c', c' ∈ cols -> alcanza t ia n c' -> c0 <= c') /\
  ((forall c, c ∈ cols -> ~ alcanza t ia n c) ->
   (exists c, c ∈ cols /\ alcanza t jug n c) ->
   exists c0,
     ia_nivel_2 seed t ia jug n = (Ok c0, t) /\ c0 ∈ cols /\
     alcanza t jug n c0 /\
     forall c', c' ∈ cols -> alcanza t jug n c' -> c0 <= c').
Proof.
  intros Hrect Hcols Hne.
  destruct (ia_nivel_2_regla_spec seed t ia jug n cols Hrect Hcols Hne)
    as (r & col & Hr & Hin & Hspec).
  apply ia_nivel_2_de_regla in Hr.
  split.
  - intros (c & Hc & Hal).
    destruct r; try contradiction.
    + exists col. destruct Hspec. auto.
    + exfalso. destruct Hspec as (Hno & _). apply (Hno c); assumption.
    + exfalso. destruct Hspec as (Hno & _). apply (Hno c); assumption.
    + exfalso. destruct Hspec as (Hno & _). apply (Hno c); assumption.
  - intros Hno (c & Hc & Hal).
    destruct r; try contradiction.
    + exfalso. destruct Hspec as (Hcol & _). apply (Hno col); assumption.
    + exists col. destruct Hspec as (_ & H1 & H2). auto.
    + exfalso. destruct Hspec as (_ & Hnoj & _). apply (Hnoj c); assumption.
    + exfalso. destruct Hspec as (_ & Hnoj & _). apply (Hnoj c); assumption.
Qed.

Lemma obtener_tablero_tres :
  obtener_columnas_disponibles tablero_tres = Ok [0; 1; 2; 3; 4; 5; 6].
Proof. reflexivity. Qed.

Lemma ia_nivel_2_ganar_bloquear_witness :
  ((exists c, c ∈ [0; 1; 2; 3; 4; 5; 6] /\ alcanza tablero_tres 2 4 c) ->
   exists c0,
     ia_nivel_2 0 tablero_tres 2 1 4 = (Ok c0, tablero_tres) /\
     c0 ∈ [0; 1; 2; 3; 4; 5; 6] /\
     alcanza tablero_tres 2 4 c0 /\
     forall c', c' ∈ [0; 1; 2; 3; 4; 5; 6] -> alcanza tablero_tres 2 4 c' ->
                c0 <= c') /\
  ((forall c, c ∈ [0; 1; 2; 3; 4; 5; 6] -> ~ alcanza tablero_tres 2 4 c) ->
   (exists c, c ∈ [0; 1; 2; 3; 4; 5; 6] /\ alcanza tablero_tres 1 4 c) ->
   exists c0,
     ia_nivel_2 0 tablero_tres 2 1 4 = (Ok c0, tablero_tres) /\
     c0 ∈ [0; 1; 2; 3; 4; 5; 6] /\
     alcanza tablero_tres 1 4 c0 /\
     forall c', c' ∈ [0; 1; 2; 3; 4; 5; 6] -> alcanza tablero_tres 1 4 c' ->
                c0 <= c').
Proof.
  apply (ia_nivel_2_ganar_bloquear 0 tablero_tres 2 1 4 [0; 1; 2; 3; 4; 5; 6]).
  - apply rectangular_tablero_tres.
  - apply obtener_tablero_tres.
  - discriminate.
Defined.

(** The scenario of the specification: with three pieces of the opponent in
    a row and the fourth slot open, the AI answers the blocking column. *)
Lemma ia_nivel_2_bloquea_tres : ia_nivel_2 0 tablero_tres 2 1 4 = (Ok 3, tablero_tres).
Proof. reflexivity. Qed.

(** C8. On a grid, [ia_nivel_1] and [ia_nivel_2] return -1 exactly when no
    column is available, that is when no cell of the top row is empty; when
    some column is available, both return one of the available columns. *)
Theorem ia_sin_movimiento (seed : nat) (t : tablero) (ia jug n : Z) :
  rectangular t ->
  exists cols,
    obtener_columnas_disponibles t = Ok cols /\
    (cols = [] <->
     forall c, 0 <= c < columnas t -> celda t 0 c <> Some CASILLA_VACIA) /\
    (ia_nivel_1 seed t = Ok (-1) <-> cols = []) /\
    ((ia_nivel_2 seed t ia jug n).1 = Ok (-1) <-> cols = []) /\
    (cols <> [] ->
     exists c1 c2,
       ia_nivel_1 seed t = Ok c1 /\ c1 ∈ cols /\
       ia_nivel_2 seed t ia jug n = (Ok c2, t) /\ c2 ∈ cols).
Proof.
  intros Hrect.
  destruct (obtener_columnas_disponibles_spec t) as (cols & Hcols & Hmem & _).
  exists cols. split; [assumption|].
  assert (Hpos : forall c, c ∈ cols -> 0 <= c).
  { intros c Hc. apply Hmem in Hc as [Hc _]. lia. }
  assert (H1 : cols <> [] -> exists c1, ia_nivel_1 seed t = Ok c1 /\ c1 ∈ cols).
  { intros Hne. unfold ia_nivel_1. rewrite Hcols. munfold.
    destruct (random_choice_elem seed cols Hne) as (c & Hc & Hin).
    exists c. split; [|assumption].
    destruct cols; [congruence|assumption]. }
  assert (H2 : cols <> [] ->
               exists c2, ia_nivel_2 seed t ia jug n = (Ok c2, t) /\ c2 ∈ cols).
  { intros Hne.
    destruct (ia_nivel_2_regla_spec seed t ia jug n cols Hrect Hcols Hne)
      as (r & col & Hr & Hin & _).
    exists col. split; [|assumption].
    eapply ia_nivel_2_de_regla. eassumption. }
  split; [|split; [|split]].
  - split.
    + intros -> c Hc H0. apply (elem_of_nil c). apply Hmem. split; assumption.
    + intros Hall. destruct cols as [|c cols']; [reflexivity|]. exfalso.
      assert (Hc : disponible t c) by (apply Hmem; left).
      destruct Hc as [Hc H0]. apply (Hall c); assumption.
  - split.
    + intros Hia. destruct cols as [|c cols'] eqn:Ec; [reflexivity|]. exfalso.
      rewrite <- Ec in *.
      destruct H1 as (c1 & Hc1 & Hin); [congruence|].
      rewrite Hia in Hc1. injection Hc1 as <-.
      specialize (Hpos _ Hin). lia.
    + intros ->. unfold ia_nivel_1. rewrite Hcols. reflexivity.
  - split.
    + intros Hia. destruct cols as [|c cols'] eqn:Ec; [reflexivity|]. exfalso.
      rewrite <- Ec in *.
      destruct H2 as (c2 & Hc2 & Hin); [congruence|].
      rewrite Hc2 in Hia. simpl in Hia. injection Hia as ->.
      specialize (Hpos _ Hin). lia.
    + intros ->. unfold ia_nivel_2.
      rewrite (ia_nivel_2_regla_vacio seed t ia jug n Hcols). reflexivity.
  - intros Hne. destruct (H1 Hne) as (c1 & Hc1 & Hin1).
    destruct (H2 Hne) as (c2 & Hc2 & Hin2).
    exists c1, c2. auto.
Qed.

Lemma ia_sin_movimiento_witness :
  exists cols,
    obtener_columnas_disponibles tablero_tres = Ok cols /\
    (cols = [] <->
     forall c, 0 <= c < columnas tablero_tres ->
               celda tablero_tres 0 c <> Some CASILLA_VACIA) /\
    (ia_nivel_1 4 tablero_tres = Ok (-1) <-> cols = []) /\
    ((ia_nivel_2 4 tablero_tres 2 1 4).1 = Ok (-1) <-> cols = []) /\
    (cols <> [] ->
     exists c1 c2,
       ia_nivel_1 4 tablero_tres = Ok c1 /\ c1 ∈ cols /\
       ia_nivel_2 4 tablero_tres 2 1 4 = (Ok c2, tablero_tres) /\ c2 ∈ cols).
Proof.
  apply (ia_sin_movimiento 4 tablero_tres 2 1 4).
  apply rectangular_tablero_tres.
Defined.

(** C9. On a grid, for a valid piece and an available column,
    [fichas_en_linea] returns at least 1; hence, when some column is
    available, the maximum tracked by rule 3 of [ia_nivel_2] is strictly
    positive with a non-empty list of best columns, and the move is never
    produced by the random choice of rule 4. *)
Theorem fichas_en_linea_positivo
    (seed : nat) (t : tablero) (ficha jug n : Z) :
  rectangular t -> ficha_valida ficha = true ->
  (forall c, disponible t c ->
     exists v, fichas_en_linea t ficha c = (Ok v, t) /\ 1 <= v) /\
  (forall cols, obtener_columnas_disponibles t = Ok cols -> cols <> [] ->
     exists mejor maxf,
       maximizar ficha cols [] 0 t = (Ok (mejor, maxf), t) /\
       0 < maxf /\ mejor <> []) /\
  (forall r col, (ia_nivel_2_regla seed t ficha jug n).1 = Ok (r, col) ->
                 r <> Aleatorio).
Proof.
  intros Hrect Hv.
  assert (H1 : forall c, disponible t c ->
                 exists v, fichas_en_linea t ficha c = (Ok v, t) /\ 1 <= v).
  { intros c [Hc H0].
    destruct (fichas_en_linea_rect t ficha c Hrect) as (v & Hfv & _ & Hpos).
    exists v. split; [assumption|]. apply Hpos; eauto. }
  assert (H2 : forall cols, obtener_columnas_disponibles t = Ok cols ->
                 cols <> [] ->
                 exists mejor maxf,
                   maximizar ficha cols [] 0 t = (Ok (mejor, maxf), t) /\
                   0 < maxf /\ mejor <> []).
  { intros cols Hcols Hne.
    destruct (obtener_columnas_disponibles_spec t) as (cols' & Hcols' & Hmem & _).
    rewrite Hcols in Hcols'. injection Hcols' as <-.
    destruct (maximizar_total t ficha cols Hrect [] 0) as (mejor & maxf & Hm & _).
    exists mejor, maxf. split; [assumption|].
    assert (Hcada : forall c, c ∈ cols ->
              exists v, fichas_en_linea t ficha c = (Ok v, t) /\ 1 <= v).
    { intros c Hc. apply H1, Hmem. assumption. }
    destruct (maximizar_positivo t ficha cols Hcada [] 0 mejor maxf Hm)
      as (_ & Hnon & Hpos); [lia|lia|].
    split; auto. }
  split; [assumption|]. split; [assumption|].
  intros r col Hr ->.
  destruct (obtener_columnas_disponibles_spec t) as (cols & Hcols & _).
  destruct (decide (cols = [])) as [->|Hne].
  - rewrite (ia_nivel_2_regla_vacio seed t ficha jug n Hcols) in Hr.
    discriminate.
  - destruct (ia_nivel_2_regla_spec seed t ficha jug n cols Hrect Hcols Hne)
      as (r' & col' & Hr' & _ & Hspec).
    rewrite Hr' in Hr. simpl in Hr. injection Hr as -> ->.
    destruct Hspec as (_ & _ & mejor & maxf & Hm & Hno).
    destruct (H2 cols Hcols Hne) as (mejor' & maxf' & Hm' & Hpos & Hnon).
    rewrite Hm in Hm'. injection Hm' as <- <-.
    apply Hno. auto.
Qed.

Lemma fichas_en_linea_positivo_witness :
  (forall c, disponible tablero_tres c ->
     exists v, fichas_en_linea tablero_tres 2 c = (Ok v, tablero_tres) /\
               1 <= v) /\
  (forall cols, obtener_columnas_disponibles tablero_tres = Ok cols ->
     cols <> [] ->
     exists mejor maxf,
       maximizar 2 cols [] 0 tablero_tres = (Ok (mejor, maxf), tablero_tres) /\
       0 < maxf /\ mejor <> []) /\
  (forall r col, (ia_nivel_2_regla 1 tablero_tres 2 1 4).1 = Ok (r, col) ->
                 r <> Aleatorio).
Proof.
  apply (fichas_en_linea_positivo 1 tablero_tres 2 1 4).
  - apply rectangular_tablero_tres.
  - reflexivity.
Defined.

(** With a piece that is not valid, which the game never passes, every
    simulated line is 0 and the move does come from rule 4. *)
Lemma ia_nivel_2_regla_aleatorio :
  ia_nivel_2_regla 5 tablero_6x7 3 1 4 = (Ok (Aleatorio, 5), tablero_6x7).
Proof. reflexivity. Qed.

(** ** Cells only ever go from empty to a piece *)

Lemma transicion_refl x : transicion x x.
Proof. left. reflexivity. Qed.

Lemma transicion_trans x y z : transicion x y -> transicion y z -> transicion x z.
Proof.
  unfold transicion, CASILLA_VACIA, FICHA_CIRCULO, FICHA_EQUIS.
  intros [->|[-> Hy]] [->|[Hy' Hz]]; auto.
Qed.

Lemma evoluciona_refl t : evoluciona t t.
Proof. intros f c. apply transicion_refl. Qed.

Lemma evoluciona_trans t1 t2 t3 :
  evoluciona t1 t2 -> evoluciona t2 t3 -> evoluciona t1 t3.
Proof. intros H1 H2 f c. eapply transicion_trans; [apply H1|apply H2]. Qed.

Lemma evoluciona_poner t fila columna ficha :
  celda t fila columna = Some CASILLA_VACIA -> ficha_valida ficha = true ->
  evoluciona t (poner t fila columna ficha).
Proof.
  intros H0 Hv f c.
  destruct (celda_nonneg _ _ _ _ H0) as [Hf Hc].
  destruct (decide ((f, c) = (fila, columna))) as [[= -> ->]|Hne].
  - right. split; [assumption|].
    rewrite (celda_poner_eq t fila columna _ ficha H0).
    apply ficha_valida_true in Hv as [->| ->]; auto.
  - left. apply celda_poner_ne; assumption.
Qed.

Lemma evoluciona_conserva t t' f c v :
  evoluciona t t' -> v <> CASILLA_VACIA -> celda t f c = Some v ->
  celda t' f c = Some v.
Proof.
  intros H Hv Hc. destruct (H f c) as [Heq|[H0 _]]; congruence.
Qed.

Lemma colocar_ficha_evoluciona t ficha columna :
  evoluciona t (colocar_ficha t ficha columna).2.
Proof.
  destruct (colocar_ficha t ficha columna) as [r t'] eqn:E.
  destruct (colocar_ficha_casos _ _ _ _ _ E)
    as [(_ & -> & _)|(_ & Hv & _ & fila & [H0 _] & ->)]; simpl.
  - apply evoluciona_refl.
  - apply evoluciona_poner; assumption.
Qed.

Lemma fichas_en_linea_conservador ficha columna :
  conservador (fun t => fichas_en_linea t ficha columna).
Proof.
  intros t. destruct (fichas_en_linea t ficha columna) as [r t'] eqn:E.
  destruct (fichas_en_linea_casos _ _ _ _ _ E)
    as [->|(fila & H0 & -> & _ & Hv)]; simpl.
  - apply evoluciona_refl.
  - apply evoluciona_poner; assumption.
Qed.

Lemma conservador_ret {A : Type} (a : A) : conservador (mret a).
Proof. intros t. apply evoluciona_refl. Qed.

Lemma conservador_leer {A : Type} (r : tablero -> result A) : conservador (leer r).
Proof. intros t. apply evoluciona_refl. Qed.

Lemma conservador_bind {A B : Type} (m : M A) (k : A -> M B) :
  conservador m -> (forall a, conservador (k a)) -> conservador (m ≫= k).
Proof.
  intros Hm Hk t. specialize (Hm t). munfold.
  destruct (m t) as [[a|e|] t1]; simpl in *; [|assumption|assumption].
  eapply evoluciona_trans; [eassumption|apply Hk].
Qed.

Lemma primera_con_umbral_conservador ficha n cols :
  conservador (primera_con_umbral ficha n cols).
Proof.
  induction cols as [|col cols IH]; simpl.
  - apply conservador_ret.
  - apply conservador_bind; [apply fichas_en_linea_conservador|].
    intros v. destruct (n <=? v); [apply conservador_ret|assumption].
Qed.

Lemma maximizar_conservador ficha cols :
  forall mejor maxf, conservador (maximizar ficha cols mejor maxf).
Proof.
  induction cols as [|col cols IH]; intros mejor maxf; simpl.
  - apply conservador_ret.
  - apply conservador_bind; [apply fichas_en_linea_conservador|].
    intros v. destruct (maxf <? v); [apply IH|].
    destruct (v =? maxf); apply IH.
Qed.

Lemma ia_nivel_2_evoluciona seed t ia jug n :
  evoluciona t (ia_nivel_2 seed t ia jug n).2.
Proof.
  unfold ia_nivel_2. simpl. unfold ia_nivel_2_regla.
  revert t. apply conservador_bind; [apply conservador_leer|].
  intros cols. destruct cols as [|c0 cols0]; [apply conservador_ret|].
  apply conservador_bind; [apply primera_con_umbral_conservador|].
  intros [col|]; [apply conservador_ret|].
  apply conservador_bind; [apply primera_con_umbral_conservador|].
  intros [col|]; [apply conservador_ret|].
  apply conservador_bind; [apply maximizar_conservador|].
  intros r. destruct (negb (bool_decide (r.1 = [])) && (0 <? r.2)).
  - apply conservador_bind; [apply conservador_leer|].
    intros col. apply conservador_ret.
  - apply conservador_bind; [apply conservador_leer|].
    intros col. apply conservador_ret.
Qed.

Lemma ejecutar_evoluciona t op : evoluciona t (ejecutar t op).
Proof.
  destruct op; simpl; try apply evoluciona_refl.
  - apply colocar_ficha_evoluciona.
  - apply (fichas_en_linea_conservador ficha columna t).
  - apply ia_nivel_2_evoluciona.
Qed.

Lemma ejecutar_todas_evoluciona ops :
  forall t, evoluciona t (ejecutar_todas t ops).
Proof.
  induction ops as [|op ops IH]; intros t; simpl.
  - apply evoluciona_refl.
  - eapply evoluciona_trans; [apply ejecutar_evoluciona|apply IH].
Qed.

(** C10. A cell that holds something never changes.  [colocar_ficha]
    refuses every piece other than the two valid ones, and when it succeeds
    it has written a valid piece into one cell that was empty and nothing
    else; the query operations leave the board as it is; so along any
    sequence of core operations each cell either keeps its content or goes
    once from empty to a piece, and an occupied cell keeps its value. *)
Theorem celdas_solo_se_ocupan :
  (forall t ficha columna,
     ficha_valida ficha = false ->
     colocar_ficha t ficha columna = (Ok false, t)) /\
  (forall t ficha columna t',
     colocar_ficha t ficha columna = (Ok true, t') ->
     ficha_valida ficha = true /\
     exists fila,
       celda t fila columna = Some CASILLA_VACIA /\
       celda t' fila columna = Some ficha /\
       forall f c, (f, c) <> (fila, columna) -> celda t' f c = celda t f c) /\
  (forall t ficha columna r t',
     colocar_ficha t ficha columna = (r, t') -> r <> Ok true -> t' = t) /\
  (forall t op, es_consulta op = true -> ejecutar t op = t) /\
  (forall t ops f c,
     transicion (celda t f c) (celda (ejecutar_todas t ops) f c)) /\
  (forall t ops f c v,
     v <> CASILLA_VACIA -> celda t f c = Some v ->
     celda (ejecutar_todas t ops) f c = Some v).
Proof.
  split; [|split; [|split; [|split; [|split]]]].
  - intros t ficha columna Hv. unfold colocar_ficha.
    destruct t as [|fila0 t0]; [reflexivity|].
    destruct (fuera_de_rango fila0 columna); [reflexivity|].
    rewrite Hv. reflexivity.
  - intros t ficha columna t' H.
    destruct (colocar_ficha_casos _ _ _ _ _ H)
      as [(Hne & _)|(_ & Hv & _ & fila & [H0 _] & ->)]; [congruence|].
    split; [assumption|]. exists fila. split; [assumption|].
    destruct (celda_nonneg _ _ _ _ H0) as [Hf Hc].
    split; [apply (celda_poner_eq t fila columna _ ficha H0)|].
    intros f c Hne. apply celda_poner_ne; assumption.
  - intros t ficha columna r t' H Hne.
    destruct (colocar_ficha_casos _ _ _ _ _ H) as [(_ & -> & _)|(Hr & _)];
      [reflexivity|contradiction].
  - intros t op Hop. destruct op; simpl in *; congruence.
  - intros t ops f c. apply ejecutar_todas_evoluciona.
  - intros t ops f c v Hv Hc.
    eapply evoluciona_conserva;
      [apply ejecutar_todas_evoluciona|assumption|assumption].
Qed.

Lemma celdas_solo_se_ocupan_witness :
  celda (ejecutar_todas tablero_tres
           [OpColocar 2 3; OpFichasEnLinea 1 3; OpIA2 0 1 2 4; OpColocar 1 3])
        5 3 = Some 2.
Proof.
  apply (proj2 (proj2 (proj2 (proj2 (proj2 celdas_solo_se_ocupan))))
           (ejecutar_todas tablero_tres [OpColocar 2 3])
           [OpFichasEnLinea 1 3; OpIA2 0 1 2 4; OpColocar 1 3] 5 3 2).
  - discriminate.
  - reflexivity.
Defined.

(** * Further properties of the game logic *)

(** ** Empty cells and available columns *)

Lemma celda_filas t f c x : celda t f c = Some x -> 0 <= f < filas t.
Proof.
  intros H. destruct (celda_nonneg _ _ _ _ H) as [Hf Hc].
  rewrite celda_lookup in H by assumption.
  destruct (t !! Z.to_nat f) as [r|] eqn:Er; [|discriminate].
  apply lookup_lt_Some in Er. unfold filas. lia.
Qed.

Lemma hay_casillas_libres_celda (t : tablero) :
  hay_casillas_libres t = true <->
  exists f c, celda t f c = Some CASILLA_VACIA.
Proof.
  unfold hay_casillas_libres. rewrite existsb_exists. split.
  - intros (fila & Hfila & Hx). apply existsb_exists in Hx as (x & Hx & H0).
    apply Z.eqb_eq in H0. subst x.
    apply list_elem_of_In, list_elem_of_lookup in Hfila as [i Hi].
    apply list_elem_of_In, list_elem_of_lookup in Hx as [j Hj].
    exists (Z.of_nat i), (Z.of_nat j).
    rewrite celda_lookup by lia. rewrite !Nat2Z.id, Hi. simpl. assumption.
  - intros (f & c & H). destruct (celda_nonneg _ _ _ _ H) as [Hf Hc].
    rewrite celda_lookup in H by assumption.
    destruct (t !! Z.to_nat f) as [fila|] eqn:Er; [|discriminate].
    simpl in H. exists fila. split.
    + apply list_elem_of_In. eapply list_elem_of_lookup_2. eassumption.
    + apply existsb_exists. exists CASILLA_VACIA. split; [|reflexivity].
      apply list_elem_of_In. eapply list_elem_of_lookup_2. eassumption.
Qed.

(** X1. [hay_casillas_libres] answers [True] exactly when some cell of the
    board is empty, whatever the shape of the list of rows. *)
Theorem hay_casillas_libres_spec (t : tablero) :
  (hay_casillas_libres t = true <->
   exists f c, celda t f c = Some CASILLA_VACIA) /\
  (hay_casillas_libres t = false <->
   forall f c, celda t f c <> Some CASILLA_VACIA).
Proof.
  split; [apply hay_casillas_libres_celda|].
  rewrite <- not_true_iff_false, hay_casillas_libres_celda. split.
  - intros H f c Hc. apply H. eauto.
  - intros H (f & c & Hc). apply (H f c). assumption.
Qed.

Lemma ordenada_sin_repetidos (l : list Z) : StronglySorted Z.lt l -> NoDup l.
Proof.
  induction 1 as [|x l Hs IH Hall]; [constructor|].
  constructor; [|assumption].
  intros Hx. rewrite Forall_forall in Hall. specialize (Hall _ Hx). lia.
Qed.

(** X2. [obtener_columnas_disponibles] never fails, whatever the shape of
    the list of rows; the list it returns is strictly ascending, without
    repetition, and holds exactly the columns for which
    [columna_esta_disponible] answers [True], that is the columns within
    range whose top cell is empty. *)
Theorem obtener_columnas_disponibles_ordenadas (t : tablero) :
  exists cols,
    obtener_columnas_disponibles t = Ok cols /\
    StronglySorted Z.lt cols /\ NoDup cols /\
    forall c,
      (c ∈ cols <-> columna_esta_disponible t c = Ok true) /\
      (c ∈ cols <-> 0 <= c < columnas t /\ celda t 0 c = Some CASILLA_VACIA).
Proof.
  destruct (obtener_columnas_disponibles_spec t) as (cols & Hcols & Hmem & Hs).
  exists cols. split; [assumption|]. split; [assumption|].
  split; [apply ordenada_sin_repetidos; assumption|].
  intros c. split; [|apply Hmem].
  rewrite Hmem.
  destruct (columna_esta_disponible_spec t c) as (b & Hb & Hiff).
  rewrite Hb, <- Hiff. split; [intros ->; reflexivity|congruence].
Qed.

(** ** The boards a game can reach *)

Lemma ficha_valida_no_vacia ficha : ficha_valida ficha = true -> ficha <> CASILLA_VACIA.
Proof.
  intros H. apply ficha_valida_true in H.
  unfold FICHA_CIRCULO, FICHA_EQUIS, CASILLA_VACIA in *. lia.
Qed.

Lemma gravedad_poner t fila c ficha :
  gravedad t -> fila_de_caida t c fila -> ficha <> CASILLA_VACIA ->
  gravedad (poner t fila c ficha).
Proof.
  intros Hg [H0 Hbajo] Hficha f f' c' Hf H.
  destruct (celda_nonneg _ _ _ _ H0) as [Hfila Hc].
  destruct (decide ((f', c') = (fila, c))) as [[= -> ->]|Hne'].
  { rewrite (celda_poner_eq t fila c _ ficha H0) in H. congruence. }
  rewrite celda_poner_ne in H by assumption.
  destruct (decide ((f, c') = (fila, c))) as [[= -> ->]|Hne].
  { exfalso. apply (Hbajo f'); [|assumption].
    pose proof (celda_filas _ _ _ _ H). lia. }
  rewrite celda_poner_ne by assumption.
  apply (Hg f f' c'); assumption.
Qed.

Lemma colocar_ficha_invariantes t ficha c r t' :
  rectangular t -> gravedad t -> colocar_ficha t ficha c = (r, t') ->
  rectangular t' /\ gravedad t' /\ filas t' = filas t /\ columnas t' = columnas t.
Proof.
  intros Hrect Hg H.
  destruct (colocar_ficha_casos _ _ _ _ _ H)
    as [(_ & -> & _)|(_ & Hv & _ & fila & Hcaida & ->)]; [auto|].
  split; [apply rectangular_poner; assumption|].
  split; [apply gravedad_poner; auto using ficha_valida_no_vacia|].
  split; [apply filas_poner|apply columnas_poner].
Qed.

Lemma ia_nivel_2_tablero seed t ia jug n :
  rectangular t -> exists c, ia_nivel_2 seed t ia jug n = (Ok c, t).
Proof.
  intros Hrect.
  destruct (obtener_columnas_disponibles_spec t) as (cols & Hcols & _).
  destruct (decide (cols = [])) as [->|Hne].
  - exists (-1). unfold ia_nivel_2.
    rewrite (ia_nivel_2_regla_vacio seed t ia jug n Hcols). reflexivity.
  - destruct (ia_nivel_2_regla_spec seed t ia jug n cols Hrect Hcols Hne)
      as (r & col & Hr & _).
    exists col. eapply ia_nivel_2_de_regla. eassumption.
Qed.

Lemma ejecutar_invariantes t op :
  rectangular t -> gravedad t ->
  rectangular (ejecutar t op) /\ gravedad (ejecutar t op) /\
  filas (ejecutar t op) = filas t /\ columnas (ejecutar t op) = columnas t.
Proof.
  intros Hrect Hg. destruct op; unfold ejecutar; auto.
  - destruct (colocar_ficha t ficha columna) as [r t'] eqn:E. simpl.
    eapply colocar_ficha_invariantes; eassumption.
  - destruct (fichas_en_linea_rect t ficha columna Hrect) as (v & -> & _).
    simpl. auto.
  - destruct (ia_nivel_2_tablero seed t ficha_ia ficha_jugador
                numero_fichas_linea Hrect) as (c & ->).
    simpl. auto.
Qed.

Lemma ejecutar_todas_invariantes ops :
  forall t, rectangular t -> gravedad t ->
  rectangular (ejecutar_todas t ops) /\ gravedad (ejecutar_todas t ops) /\
  filas (ejecutar_todas t ops) = filas t /\
  columnas (ejecutar_todas t ops) = columnas t.
Proof.
  induction ops as [|op ops IH]; intros t Hrect Hg; simpl; [auto|].
  destruct (ejecutar_invariantes t op Hrect Hg) as (Hr1 & Hg1 & Hf1 & Hc1).
  destruct (IH _ Hr1 Hg1) as (Hr2 & Hg2 & Hf2 & Hc2).
  split; [assumption|]. split; [assumption|]. split; congruence.
Qed.

Lemma columnas_replicate n m (x : Z) :
  (0 < n)%nat -> columnas (replicate n (replicate m x)) = Z.of_nat m.
Proof.
  intros Hn. destruct n; [lia|]. unfold columnas. simpl.
  rewrite length_replicate. reflexivity.
Qed.

Lemma gravedad_replicate n m : gravedad (replicate n (replicate m CASILLA_VACIA)).
Proof.
  intros f f' c Hf H.
  destruct (celda_fuera _ _ _ _ (rectangular_replicate _ _) H) as [Hf' Hc].
  unfold filas in Hf'. rewrite length_replicate in Hf'.
  rewrite columnas_replicate in Hc by lia.
  apply celda_replicate; lia.
Qed.

(** X3. Every board of a game is a grid that obeys gravity: starting from
    a board made by [crear_tablero], after any sequence of core operations
    the board is still a grid of the same dimensions (at least 6 by 7), in
    no column is there an empty cell below an occupied one, and every cell
    holds 0, 1 or 2. *)
Theorem tablero_de_partida
    (f c : pyval) (t0 : tablero) (ops : list operacion) :
  crear_tablero f c = Some t0 ->
  rectangular (ejecutar_todas t0 ops) /\
  gravedad (ejecutar_todas t0 ops) /\
  valores_validos (ejecutar_todas t0 ops) /\
  filas (ejecutar_todas t0 ops) = filas t0 /\
  columnas (ejecutar_todas t0 ops) = columnas t0 /\
  6 <= filas t0 /\ 7 <= columnas t0.
Proof.
  intros Hcrear. unfold crear_tablero in Hcrear.
  destruct f as [fz|]; [|discriminate]. destruct c as [cz|]; [|discriminate].
  destruct ((fz <? 6) || (cz <? 7)) eqn:E; [discriminate|]. zbool.
  injection Hcrear as <-.
  set (t0 := replicate (Z.to_nat fz) (replicate (Z.to_nat cz) CASILLA_VACIA)).
  destruct (ejecutar_todas_invariantes ops t0) as (Hr & Hg & Hf & Hc).
  { apply rectangular_replicate. }
  { apply gravedad_replicate. }
  split; [assumption|]. split; [assumption|].
  split; [|split; [assumption|split; [assumption|]]].
  - intros i j x Hx.
    pose proof (ejecutar_todas_evoluciona ops t0 i j) as Ht.
    rewrite Hx in Ht. destruct Ht as [Heq|[_ [Heq|Heq]]].
    + symmetry in Heq.
      destruct (celda_fuera _ _ _ _ (rectangular_replicate _ _) Heq) as [Hi Hj].
      unfold t0, filas in Hi. rewrite length_replicate in Hi.
      unfold t0 in Hj. rewrite columnas_replicate in Hj by lia.
      unfold t0 in Heq. rewrite celda_replicate in Heq by lia.
      left. congruence.
    + right. left. congruence.
    + right. right. congruence.
  - unfold t0, filas. rewrite length_replicate, columnas_replicate by lia. lia.
Qed.

Lemma tablero_de_partida_witness :
  rectangular (ejecutar_todas tablero_6x7 [OpColocar 1 3; OpIA2 0 2 1 4; OpColocar 2 3]) /\
  gravedad (ejecutar_todas tablero_6x7 [OpColocar 1 3; OpIA2 0 2 1 4; OpColocar 2 3]) /\
  valores_validos (ejecutar_todas tablero_6x7 [OpColocar 1 3; OpIA2 0 2 1 4; OpColocar 2 3]) /\
  filas (ejecutar_todas tablero_6x7 [OpColocar 1 3; OpIA2 0 2 1 4; OpColocar 2 3])
  = filas tablero_6x7 /\
  columnas (ejecutar_todas tablero_6x7 [OpColocar 1 3; OpIA2 0 2 1 4; OpColocar 2 3])
  = columnas tablero_6x7 /\
  6 <= filas tablero_6x7 /\ 7 <= columnas tablero_6x7.
Proof.
  apply (tablero_de_partida (PyInt 6) (PyInt 7) tablero_6x7).
  reflexivity.
Defined.

(** ** Moves that can be played *)

Lemma disponible_cima t f c :
  rectangular t -> gravedad t -> celda t f c = Some CASILLA_VACIA ->
  disponible t c.
Proof.
  intros Hrect Hg H.
  destruct (celda_fuera _ _ _ _ Hrect H) as [Hf Hc].
  split; [assumption|].
  destruct (decide (f = 0)) as [->|Hne]; [assumption|].
  apply (Hg 0 f c); [lia|assumption].
Qed.

Lemma colocar_ficha_en_disponible t ficha c :
  rectangular t -> ficha_valida ficha = true -> disponible t c ->
  exists fila, fila_de_caida t c fila /\
               colocar_ficha t ficha c = (Ok true, poner t fila c ficha).
Proof.
  intros Hrect Hv [Hc H0].
  destruct (colocar_ficha_total t ficha c Hrect) as (b & t' & Hcol).
  destruct (colocar_ficha_casos _ _ _ _ _ Hcol)
    as [(Hne & _ & Hall)|(Hb & _ & _ & fila & Hcaida & ->)].
  - exfalso. destruct b; [congruence|].
    apply (Hall eq_refl Hv Hc 0). assumption.
  - injection Hb as ->. eauto.
Qed.

Lemma columna_esta_disponible_true t c :
  columna_esta_disponible t c = Ok true <-> disponible t c.
Proof.
  destruct (columna_esta_disponible_spec t c) as (b & Hb & Hiff).
  rewrite Hb, <- Hiff. split; [congruence|intros ->; reflexivity].
Qed.

Lemma colocar_ficha_sii_disponible_aux (t : tablero) (ficha c : Z) :
  rectangular t -> gravedad t -> ficha_valida ficha = true ->
  ((colocar_ficha t ficha c).1 = Ok true <->
   columna_esta_disponible t c = Ok true).
Proof.
  intros Hrect Hg Hv. rewrite columna_esta_disponible_true. split.
  - intros H. destruct (colocar_ficha t ficha c) as [r t'] eqn:E.
    simpl in H. subst r.
    destruct (colocar_ficha_casos _ _ _ _ _ E)
      as [(Hne & _)|(_ & _ & _ & fila & [H0 _] & _)]; [congruence|].
    eapply disponible_cima; eassumption.
  - intros Hd.
    destruct (colocar_ficha_en_disponible t ficha c Hrect Hv Hd)
      as (fila & _ & ->).
    reflexivity.
Qed.

(** X4. On a grid that obeys gravity, a valid piece can be placed in a
    column exactly when [columna_esta_disponible] answers [True] for it: the
    check made before a move and the placement never disagree. *)
Theorem colocar_ficha_sii_disponible (t : tablero) (ficha c : Z) :
  rectangular t -> gravedad t -> ficha_valida ficha = true ->
  ((colocar_ficha t ficha c).1 = Ok true <->
   columna_esta_disponible t c = Ok true).
Proof. apply colocar_ficha_sii_disponible_aux. Qed.

Lemma gravedad_tablero_tres : gravedad tablero_tres.
Proof.
  intros f f' c Hf H.
  destruct (celda_fuera _ _ _ _ rectangular_tablero_tres H) as [Hf' Hc].
  unfold filas, columnas in *. simpl in Hf', Hc.
  assert (f' = 1 \/ f' = 2 \/ f' = 3 \/ f' = 4 \/ f' = 5) as Hcases by lia.
  assert (c = 0 \/ c = 1 \/ c = 2 \/ c = 3 \/ c = 4 \/ c = 5 \/ c = 6)
    as Hcol by lia.
  assert (f = 0 \/ f = 1 \/ f = 2 \/ f = 3 \/ f = 4) as Hrow by lia.
  destruct Hcases as [->|[->|[->|[->| ->]]]];
    destruct Hcol as [->|[->|[->|[->|[->|[->| ->]]]]]];
    try discriminate H;
    destruct Hrow as [->|[->|[->|[->| ->]]]];
    first [reflexivity | lia].
Qed.

Lemma colocar_ficha_sii_disponible_witness :
  (colocar_ficha tablero_tres 2 3).1 = Ok true <->
  columna_esta_disponible tablero_tres 3 = Ok true.
Proof.
  apply (colocar_ficha_sii_disponible tablero_tres 2 3).
  - apply rectangular_tablero_tres.
  - apply gravedad_tablero_tres.
  - reflexivity.
Defined.

Lemma ia_nivel_1_casos seed t :
  exists cols,
    obtener_columnas_disponibles t = Ok cols /\
    ((cols = [] /\ ia_nivel_1 seed t = Ok (-1)) \/
     (exists c, ia_nivel_1 seed t = Ok c /\ c ∈ cols)).
Proof.
  destruct (obtener_columnas_disponibles_spec t) as (cols & Hcols & _).
  exists cols. split; [assumption|].
  unfold ia_nivel_1. rewrite Hcols. munfold.
  destruct cols as [|c0 cols0] eqn:Ec; [left; auto|]. right.
  rewrite <- Ec. apply random_choice_elem. congruence.
Qed.

Lemma ia_nivel_2_casos seed t ia jug n :
  rectangular t ->
  exists cols,
    obtener_columnas_disponibles t = Ok cols /\
    ((cols = [] /\ ia_nivel_2 seed t ia jug n = (Ok (-1), t)) \/
     (exists c, ia_nivel_2 seed t ia jug n = (Ok c, t) /\ c ∈ cols)).
Proof.
  intros Hrect.
  destruct (obtener_columnas_disponibles_spec t) as (cols & Hcols & _).
  exists cols. split; [assumption|].
  destruct (decide (cols = [])) as [->|Hne].
  - left. split; [reflexivity|]. unfold ia_nivel_2.
    rewrite (ia_nivel_2_regla_vacio seed t ia jug n Hcols). reflexivity.
  - right.
    destruct (ia_nivel_2_regla_spec seed t ia jug n cols Hrect Hcols Hne)
      as (r & col & Hr & Hin & _).
    exists col. split; [|assumption]. eapply ia_nivel_2_de_regla. eassumption.
Qed.

Lemma disponible_no_negativa t c : disponible t c -> c <> -1.
Proof. intros [Hc _]. lia. Qed.

(** X5. The column proposed by either strategy can always be played: on a
    grid, when [ia_nivel_1] or [ia_nivel_2] returns a column other than -1,
    [colocar_ficha] with a valid piece succeeds in that column; and
    [ia_nivel_2] hands the board back exactly as it received it. *)
Theorem ia_movimiento_jugable
    (seed : nat) (t : tablero) (ia jug n ficha : Z) :
  rectangular t -> ficha_valida ficha = true ->
  (forall c, ia_nivel_1 seed t = Ok c -> c <> -1 ->
             exists t', colocar_ficha t ficha c = (Ok true, t')) /\
  (exists c, ia_nivel_2 seed t ia jug n = (Ok c, t) /\
             (c <> -1 -> exists t', colocar_ficha t ficha c = (Ok true, t'))).
Proof.
  intros Hrect Hv.
  destruct (obtener_columnas_disponibles_spec t) as (cols & Hcols & Hmem & _).
  split.
  - intros c Hc Hne.
    destruct (ia_nivel_1_casos seed t) as (cols' & Hcols' & Hcasos).
    rewrite Hcols in Hcols'. injection Hcols' as <-.
    destruct Hcasos as [[_ H]|(c' & H & Hin)].
    + rewrite Hc in H. congruence.
    + rewrite Hc in H. injection H as <-.
      destruct (colocar_ficha_en_disponible t ficha c Hrect Hv)
        as (fila & _ & Hcol); [apply Hmem; assumption|].
      eauto.
  - destruct (ia_nivel_2_casos seed t ia jug n Hrect) as (cols' & Hcols' & Hcasos).
    rewrite Hcols in Hcols'. injection Hcols' as <-.
    destruct Hcasos as [[_ H]|(c & H & Hin)].
    + exists (-1). split; [assumption|]. congruence.
    + exists c. split; [assumption|]. intros _.
      destruct (colocar_ficha_en_disponible t ficha c Hrect Hv)
        as (fila & _ & Hcol); [apply Hmem; assumption|].
      eauto.
Qed.

Lemma ia_movimiento_jugable_witness :
  (forall c, ia_nivel_1 3 tablero_tres = Ok c -> c <> -1 ->
             exists t', colocar_ficha tablero_tres 2 c = (Ok true, t')) /\
  (exists c, ia_nivel_2 3 tablero_tres 2 1 4 = (Ok c, tablero_tres) /\
             (c <> -1 ->
              exists t', colocar_ficha tablero_tres 2 c = (Ok true, t'))).
Proof.
  apply (ia_movimiento_jugable 3 tablero_tres 2 1 4 2).
  - apply rectangular_tablero_tres.
  - reflexivity.
Defined.

(** X6. On a grid that obeys gravity the board is full exactly when no
    column is available: [hay_casillas_libres] answers [False] if and only
    if [obtener_columnas_disponibles] is empty, if and only if [ia_nivel_1]
    returns -1, if and only if [ia_nivel_2] returns -1.  The strategies
    therefore find a move for as long as the game is not a draw. *)
Theorem empate_sii_sin_columnas (seed : nat) (t : tablero) (ia jug n : Z) :
  rectangular t -> gravedad t ->
  (hay_casillas_libres t = false <->
   obtener_columnas_disponibles t = Ok []) /\
  (hay_casillas_libres t = false <-> ia_nivel_1 seed t = Ok (-1)) /\
  (hay_casillas_libres t = false <->
   (ia_nivel_2 seed t ia jug n).1 = Ok (-1)).
Proof.
  intros Hrect Hg.
  destruct (obtener_columnas_disponibles_spec t) as (cols & Hcols & Hmem & _).
  assert (Hlibres : hay_casillas_libres t = false <-> cols = []).
  { rewrite <- not_true_iff_false, hay_casillas_libres_celda. split.
    - intros H. destruct cols as [|c cols']; [reflexivity|]. exfalso.
      apply H. assert (Hd : disponible t c) by (apply Hmem; left).
      destruct Hd as [_ H0]. eauto.
    - intros -> (f & c & H0).
      apply (elem_of_nil c), Hmem. eapply disponible_cima; eassumption. }
  rewrite !Hlibres, Hcols. split; [|split].
  - split; [intros ->; reflexivity|congruence].
  - destruct (ia_nivel_1_casos seed t) as (cols' & Hcols' & Hcasos).
    rewrite Hcols in Hcols'. injection Hcols' as <-.
    destruct Hcasos as [[-> H]|(c & H & Hin)].
    + split; auto.
    + rewrite H. split.
      * intros ->. apply elem_of_nil in Hin. contradiction.
      * intros [= ->]. apply Hmem, disponible_no_negativa in Hin. congruence.
  - destruct (ia_nivel_2_casos seed t ia jug n Hrect) as (cols' & Hcols' & Hcasos).
    rewrite Hcols in Hcols'. injection Hcols' as <-.
    destruct Hcasos as [[-> H]|(c & H & Hin)].
    + rewrite H. split; auto.
    + rewrite H. simpl. split.
      * intros ->. apply elem_of_nil in Hin. contradiction.
      * intros [= ->]. apply Hmem, disponible_no_negativa in Hin. congruence.
Qed.

Lemma empate_sii_sin_columnas_witness :
  (hay_casillas_libres tablero_tres = false <->
   obtener_columnas_disponibles tablero_tres = Ok []) /\
  (hay_casillas_libres tablero_tres = false <->
   ia_nivel_1 2 tablero_tres = Ok (-1)) /\
  (hay_casillas_libres tablero_tres = false <->
   (ia_nivel_2 2 tablero_tres 2 1 4).1 = Ok (-1)).
Proof.
  apply (empate_sii_sin_columnas 2 tablero_tres 2 1 4).
  - apply rectangular_tablero_tres.
  - apply gravedad_tablero_tres.
Defined.

(** ** The lookahead and the real move *)

Lemma maximo_direcciones_umbral t fila columna ficha ds :
  rectangular t -> (forall d, d ∈ ds -> d.1 <> 0 \/ d.2 <> 0) ->
  forall m0, exists m,
    maximo_direcciones t fila columna ficha ds m0 = Ok m /\
    forall n, n <= m <->
              n <= m0 \/
              exists d v, d ∈ ds /\
                          total_direccion t fila columna ficha d = Ok v /\
                          n <= v.
Proof.
  intros Hrect. induction ds as [|d ds IH]; intros Hds m0.
  - exists m0. split; [reflexivity|]. intros n. split; [auto|].
    intros [H|(d & v & Hd & _)]; [assumption|].
    apply elem_of_nil in Hd. contradiction.
  - simpl.
    destruct (total_direccion_ok t fila columna ficha d Hrect) as (v & Hv & _).
    { apply Hds. left. }
    rewrite Hv. munfold.
    destruct (IH (fun d' H => Hds d' (list_elem_of_further _ _ _ H))
                 (Z.max m0 v)) as (m & Hm & Hiff).
    exists m. split; [assumption|]. intros n. rewrite Hiff. split.
    + intros [H|(d' & v' & Hd' & Hv' & Hn)].
      * destruct (Z.max_spec m0 v) as [[_ Heq]|[_ Heq]]; rewrite Heq in H.
        -- right. exists d, v. split; [left|]. auto.
        -- left. assumption.
      * right. exists d', v'. split; [right; assumption|]. auto.
    + intros [H|(d' & v' & Hd' & Hv' & Hn)]; [left; lia|].
      apply elem_of_cons in Hd' as [->|Hd'].
      * rewrite Hv in Hv'. injection Hv' as <-. left. lia.
      * right. exists d', v'. auto.
Qed.

Lemma fila_de_caida_unica t c fila fila' :
  fila_de_caida t c fila -> fila_de_caida t c fila' -> fila = fila'.
Proof.
  intros [H0 Hb] [H0' Hb'].
  pose proof (celda_filas _ _ _ _ H0). pose proof (celda_filas _ _ _ _ H0').
  destruct (Z.lt_trichotomy fila fila') as [Hlt|[Heq|Hgt]]; [|assumption|].
  - exfalso. apply (Hb fila'); [lia|assumption].
  - exfalso. apply (Hb' fila); [lia|assumption].
Qed.

(** The value of the lookahead is the maximum computed on the board with
    the piece in its landing row. *)
Lemma fichas_en_linea_caida t ficha c fila :
  rectangular t -> ficha_valida ficha = true -> 0 <= c < columnas t ->
  fila_de_caida t c fila ->
  exists m,
    maximo_direcciones (poner t fila c ficha) fila c ficha direcciones 0 = Ok m /\
    fichas_en_linea t ficha c = (Ok m, t).
Proof.
  intros Hrect Hv Hc Hcaida.
  destruct (maximo_direcciones_ok (poner t fila c ficha) fila c ficha
              direcciones (rectangular_poner _ _ _ _ Hrect)
              direcciones_no_nulas 0) as (m & Hm & _).
  exists m. split; [assumption|].
  unfold fichas_en_linea. destruct t as [|fila0 t0] eqn:Et.
  { unfold columnas in Hc. simpl in Hc. lia. }
  rewrite (proj2 (fuera_de_rango_false fila0 t0 c) Hc).
  rewrite Hv. cbn [negb]. rewrite <- Et in *. munfold.
  destruct (primera_libre_total t c (length t) Hrect Hc) as [r Hp]; [lia|].
  rewrite Hp. apply primera_libre_rango_desc in Hp; [|lia].
  assert (r = fila) as ->.
  { destruct Hp as [[-> Hall]|(Hr & Hr0 & Hall)].
    - exfalso. destruct Hcaida as [H0 _].
      pose proof (celda_filas _ _ _ _ H0) as Hf. unfold filas in Hf.
      apply (Hall fila); assumption.
    - apply (fila_de_caida_unica t c); [|assumption].
      split; [assumption|]. intros f Hf. apply Hall. unfold filas in Hf. lia. }
  destruct Hcaida as [H0 _].
  pose proof (celda_nonneg _ _ _ _ H0) as [Hfila _].
  rewrite (proj2 (Z.eqb_neq fila (-1))) by lia.
  rewrite (escribir_celda t fila c _ ficha H0).
  rewrite Hm.
  rewrite (escribir_celda _ fila c _ CASILLA_VACIA
             (celda_poner_eq t fila c _ ficha H0)).
  rewrite (poner_poner t fila c _ ficha H0). reflexivity.
Qed.

Lemma ancla_tras_colocar t c fila ficha :
  gravedad t -> fila_de_caida t c fila -> ficha <> CASILLA_VACIA ->
  ancla (poner t fila c ficha) c fila /\
  celda (poner t fila c ficha) fila c = Some ficha.
Proof.
  intros Hg [H0 _] Hficha.
  pose proof (celda_nonneg _ _ _ _ H0) as [Hfila Hc].
  pose proof (celda_poner_eq t fila c _ ficha H0) as H1.
  split; [|assumption]. split; [eauto|].
  intros f Hf. rewrite celda_poner_ne; [|intros [= ->]; lia|lia|lia].
  apply (Hg f fila c); [lia|assumption].
Qed.

(** Placing the piece and checking the column gives what the lookahead
    announced. *)
Lemma comprobar_tras_colocar t ficha c n t' :
  rectangular t -> gravedad t -> 1 <= n ->
  colocar_ficha t ficha c = (Ok true, t') ->
  exists v, fichas_en_linea t ficha c = (Ok v, t) /\
            comprobar_linea t' c n = Ok (n <=? v).
Proof.
  intros Hrect Hg Hn Hcol.
  destruct (colocar_ficha_casos _ _ _ _ _ Hcol)
    as [(Hne & _)|(_ & Hv & Hc & fila & Hcaida & ->)]; [congruence|].
  destruct (fichas_en_linea_caida t ficha c fila Hrect Hv Hc Hcaida)
    as (m & Hm & Hfichas).
  exists m. split; [assumption|].
  destruct (ancla_tras_colocar t c fila ficha Hg Hcaida
              (ficha_valida_no_vacia _ Hv)) as [Hancla Hcelda].
  destruct (comprobar_linea_con_ancla (poner t fila c ficha) c n fila ficha
              (rectangular_poner _ _ _ _ Hrect) Hn Hancla Hcelda)
    as (b & Hb & Hiff).
  rewrite Hb. f_equal.
  destruct (maximo_direcciones_umbral (poner t fila c ficha) fila c ficha
              direcciones (rectangular_poner _ _ _ _ Hrect)
              direcciones_no_nulas 0) as (m' & Hm' & Humbral).
  rewrite Hm in Hm'. injection Hm' as <-.
  destruct (n <=? m) eqn:E; zbool.
  - apply Hiff. apply Humbral in E as [E|E]; [lia|assumption].
  - destruct b; [|reflexivity]. exfalso.
    assert (n <= m); [|lia]. apply Humbral. right. apply Hiff. reflexivity.
Qed.

(** X7. The lookahead agrees with the real move.  On a grid that obeys
    gravity, when [colocar_ficha] places a piece in a column,
    [comprobar_linea] on the resulting board reports a win for the win
    length [n >= 1] exactly when the value [fichas_en_linea] gave for that
    piece and column on the board before the move is at least [n]. *)
Theorem fichas_en_linea_predice (t t' : tablero) (ficha c n : Z) :
  rectangular t -> gravedad t -> 1 <= n ->
  colocar_ficha t ficha c = (Ok true, t') ->
  exists v, fichas_en_linea t ficha c = (Ok v, t) /\
            comprobar_linea t' c n = Ok (n <=? v).
Proof. apply comprobar_tras_colocar. Qed.

Lemma fichas_en_linea_predice_witness :
  exists v, fichas_en_linea tablero_tres 1 3 = (Ok v, tablero_tres) /\
            comprobar_linea (poner tablero_tres 5 3 1) 3 4 = Ok (4 <=? v).
Proof.
  apply (fichas_en_linea_predice tablero_tres (poner tablero_tres 5 3 1) 1 3 4).
  - apply rectangular_tablero_tres.
  - apply gravedad_tablero_tres.
  - lia.
  - reflexivity.
Defined.

(** ** What the rules of [ia_nivel_2] achieve *)

Lemma gana_si_alcanza t ficha n c :
  rectangular t -> gravedad t -> 1 <= n -> ficha_valida ficha = true ->
  disponible t c -> alcanza t ficha n c ->
  exists t', colocar_ficha t ficha c = (Ok true, t') /\
             comprobar_linea t' c n = Ok true.
Proof.
  intros Hrect Hg Hn Hv Hd (v & Hfv & Hle).
  destruct (colocar_ficha_en_disponible t ficha c Hrect Hv Hd)
    as (fila & _ & Hcol).
  destruct (comprobar_tras_colocar t ficha c n _ Hrect Hg Hn Hcol)
    as (v' & Hfv' & Hcomp).
  rewrite Hfv' in Hfv. simpl in Hfv. injection Hfv as ->.
  eexists. split; [eassumption|]. rewrite Hcomp.
  rewrite (proj2 (Z.leb_le n v)) by assumption. reflexivity.
Qed.

Lemma no_gana_si_no_alcanza t ficha n c t' :
  rectangular t -> gravedad t -> 1 <= n -> ~ alcanza t ficha n c ->
  colocar_ficha t ficha c = (Ok true, t') ->
  comprobar_linea t' c n = Ok false.
Proof.
  intros Hrect Hg Hn Hno Hcol.
  destruct (comprobar_tras_colocar t ficha c n _ Hrect Hg Hn Hcol)
    as (v & Hfv & Hcomp).
  rewrite Hcomp. destruct (n <=? v) eqn:E; [|reflexivity]. zbool.
  exfalso. apply Hno. exists v. rewrite Hfv. auto.
Qed.

Lemma colocada_en_disponible t ficha c t' :
  rectangular t -> gravedad t -> colocar_ficha t ficha c = (Ok true, t') ->
  disponible t c.
Proof.
  intros Hrect Hg Hcol.
  destruct (colocar_ficha_casos _ _ _ _ _ Hcol)
    as [(Hne & _)|(_ & _ & _ & fila & [H0 _] & _)]; [congruence|].
  eapply disponible_cima; eassumption.
Qed.

(** X8. The first two rules of [ia_nivel_2] are exact.  On a grid that
    obeys gravity, with valid pieces and a win length of at least 1: a
    column returned by rule 1 wins at once when the AI plays it; a column
    returned by rule 2 is one where the opponent would win at once; when
    rule 1 does not fire, no move of the AI wins at once; and when neither
    rule fires, no move of the opponent wins at once either. *)
Theorem ia_nivel_2_jugada_decisiva
    (seed : nat) (t : tablero) (ia jug n : Z) (r : regla) (col : Z) :
  rectangular t -> gravedad t -> 1 <= n ->
  ficha_valida ia = true -> ficha_valida jug = true ->
  ia_nivel_2_regla seed t ia jug n = (Ok (r, col), t) ->
  (r = Ganar ->
   exists t', colocar_ficha t ia col = (Ok true, t') /\
              comprobar_linea t' col n = Ok true) /\
  (r = Bloquear ->
   exists t', colocar_ficha t jug col = (Ok true, t') /\
              comprobar_linea t' col n = Ok true) /\
  (r <> Ganar ->
   forall c t', colocar_ficha t ia c = (Ok true, t') ->
                comprobar_linea t' c n = Ok false) /\
  (r <> Ganar -> r <> Bloquear ->
   forall c t', colocar_ficha t jug c = (Ok true, t') ->
                comprobar_linea t' c n = Ok false).
Proof.
  intros Hrect Hg Hn Hia Hjug Hr.
  destruct (obtener_columnas_disponibles_spec t) as (cols & Hcols & Hmem & _).
  destruct (decide (cols = [])) as [->|Hne].
  { rewrite (ia_nivel_2_regla_vacio seed t ia jug n Hcols) in Hr.
    injection Hr as <- <-.
    split; [discriminate|]. split; [discriminate|].
    split; [intros _|intros _ _]; intros c t' Hcol; exfalso;
      apply (elem_of_nil c), Hmem; eapply colocada_en_disponible; eassumption. }
  destruct (ia_nivel_2_regla_spec seed t ia jug n cols Hrect Hcols Hne)
    as (r' & col' & Hr' & Hin & Hspec).
  rewrite Hr in Hr'. injection Hr' as <- <-.
  apply Hmem in Hin.
  assert (Hsin : forall ficha,
            (forall c, c ∈ cols -> ~ alcanza t ficha n c) ->
            forall c t', colocar_ficha t ficha c = (Ok true, t') ->
                         comprobar_linea t' c n = Ok false).
  { intros ficha Hno c t' Hcol.
    apply (no_gana_si_no_alcanza t ficha n c t'); try assumption.
    apply Hno, Hmem. eapply colocada_en_disponible; eassumption. }
  destruct r; try contradiction.
  - destruct Hspec as [Hal _].
    split; [intros _; apply gana_si_alcanza; assumption|].
    split; [discriminate|]. split; [congruence|congruence].
  - destruct Hspec as (Hno & Hal & _).
    split; [discriminate|].
    split; [intros _; apply gana_si_alcanza; assumption|].
    split; [intros _; apply Hsin; assumption|congruence].
  - destruct Hspec as (Hno & Hnoj & _).
    split; [discriminate|]. split; [discriminate|].
    split; [intros _|intros _ _]; apply Hsin; assumption.
  - destruct Hspec as (Hno & Hnoj & _).
    split; [discriminate|]. split; [discriminate|].
    split; [intros _|intros _ _]; apply Hsin; assumption.
Qed.

Lemma ia_nivel_2_jugada_decisiva_witness :
  (Bloquear = Ganar ->
   exists t', colocar_ficha tablero_tres 2 3 = (Ok true, t') /\
              comprobar_linea t' 3 4 = Ok true) /\
  (Bloquear = Bloquear ->
   exists t', colocar_ficha tablero_tres 1 3 = (Ok true, t') /\
              comprobar_linea t' 3 4 = Ok true) /\
  (Bloquear <> Ganar ->
   forall c t', colocar_ficha tablero_tres 2 c = (Ok true, t') ->
                comprobar_linea t' c 4 = Ok false) /\
  (Bloquear <> Ganar -> Bloquear <> Bloquear ->
   forall c t', colocar_ficha tablero_tres 1 c = (Ok true, t') ->
                comprobar_linea t' c 4 = Ok false).
Proof.
  apply (ia_nivel_2_jugada_decisiva 0 tablero_tres 2 1 4 Bloquear 3).
  - apply rectangular_tablero_tres.
  - apply gravedad_tablero_tres.
  - lia.
  - reflexivity.
  - reflexivity.
  - reflexivity.
Defined.

(** The loop of rule 3 on a grid: the value it ends with is the largest
    seen, and the list it ends with holds the columns that reach it. *)
Lemma maximizar_spec t ficha cols :
  rectangular t ->
  forall mejor maxf mejor' maxf',
    maximizar ficha cols mejor maxf t = (Ok (mejor', maxf'), t) ->
    maxf <= maxf' /\
    (forall c v, c ∈ cols -> fichas_en_linea t ficha c = (Ok v, t) ->
                 v <= maxf') /\
    (forall c, c ∈ mejor' ->
       (c ∈ mejor /\ maxf' = maxf) \/
       (c ∈ cols /\ fichas_en_linea t ficha c = (Ok maxf', t))) /\
    (maxf' = maxf -> forall c, c ∈ mejor -> c ∈ mejor') /\
    (forall c, c ∈ cols -> fichas_en_linea t ficha c = (Ok maxf', t) ->
               c ∈ mejor').
Proof.
  intros Hrect. induction cols as [|col cols IH];
    intros mejor maxf mejor' maxf'.
  - simpl. intros [= <- <-]. split; [lia|].
    split; [intros c v Hc; apply elem_of_nil in Hc; contradiction|].
    split; [auto|]. split; [auto|].
    intros c Hc. apply elem_of_nil in Hc. contradiction.
  - simpl. munfold.
    destruct (fichas_en_linea_rect t ficha col Hrect) as (v & Hv & _).
    rewrite Hv.
    assert (Hval : forall c w, c ∈ col :: cols ->
              fichas_en_linea t ficha c = (Ok w, t) ->
              (c = col /\ w = v) \/ c ∈ cols).
    { intros c w Hc Hw. apply elem_of_cons in Hc as [->|Hc]; [|auto].
      left. rewrite Hv in Hw. injection Hw as <-. auto. }
    destruct (maxf <? v) eqn:E1; zbool.
    + intros H. destruct (IH _ _ _ _ H) as (Hle & Hmax & Hsub & Hkeep & Hall).
      split; [lia|]. split; [|split; [|split]].
      * intros c w Hc Hw.
        destruct (Hval c w Hc Hw) as [[-> ->]|Hc']; [lia|eauto].
      * intros c Hc. right. destruct (Hsub c Hc) as [[H1 H2]|[H1 H2]].
        -- apply list_elem_of_singleton in H1 as ->.
           split; [left|]. rewrite H2. assumption.
        -- split; [right; assumption|assumption].
      * intros Heq. lia.
      * intros c Hc Hw.
        destruct (Hval c _ Hc Hw) as [[-> Heq]|Hc']; [|auto].
        apply Hkeep; [assumption|left].
    + destruct (v =? maxf) eqn:E2; zbool.
      * subst v. intros H.
        destruct (IH _ _ _ _ H) as (Hle & Hmax & Hsub & Hkeep & Hall).
        split; [lia|]. split; [|split; [|split]].
        -- intros c w Hc Hw.
           destruct (Hval c w Hc Hw) as [[-> ->]|Hc']; [lia|eauto].
        -- intros c Hc. destruct (Hsub c Hc) as [[H1 H2]|[H1 H2]].
           ++ apply elem_of_app in H1 as [H1|H1]; [left; auto|].
              apply list_elem_of_singleton in H1 as ->.
              right. split; [left|]. rewrite H2. assumption.
           ++ right. split; [right; assumption|assumption].
        -- intros Heq c Hc. apply Hkeep; [assumption|].
           apply elem_of_app. left. assumption.
        -- intros c Hc Hw.
           destruct (Hval c _ Hc Hw) as [[-> Heq]|Hc']; [|auto].
           apply Hkeep; [assumption|]. apply elem_of_app. right. left.
      * intros H.
        destruct (IH _ _ _ _ H) as (Hle & Hmax & Hsub & Hkeep & Hall).
        split; [lia|]. split; [|split; [|split]].
        -- intros c w Hc Hw.
           destruct (Hval c w Hc Hw) as [[-> ->]|Hc']; [lia|eauto].
        -- intros c Hc. destruct (Hsub c Hc) as [[H1 H2]|[H1 H2]].
           ++ left. auto.
           ++ right. split; [right; assumption|assumption].
        -- assumption.
        -- intros c Hc Hw.
           destruct (Hval c _ Hc Hw) as [[-> Heq]|Hc']; [|auto].
           lia.
Qed.

(** X9. Rule 3 of [ia_nivel_2] maximises.  On a grid, when the move comes
    from rule 3, the column returned is available and no available column
    has a larger value of [fichas_en_linea] for the AI's piece; the columns
    among which it is drawn are exactly the available columns that reach
    that largest value. *)
Theorem ia_nivel_2_maximiza
    (seed : nat) (t : tablero) (ia jug n col : Z) (cols : list Z) :
  rectangular t -> obtener_columnas_disponibles t = Ok cols ->
  ia_nivel_2_regla seed t ia jug n = (Ok (Maximizar, col), t) ->
  exists mejor maxf,
    maximizar ia cols [] 0 t = (Ok (mejor, maxf), t) /\
    col ∈ mejor /\ col ∈ cols /\
    fichas_en_linea t ia col = (Ok maxf, t) /\
    (forall c v, c ∈ cols -> fichas_en_linea t ia c = (Ok v, t) -> v <= maxf) /\
    (forall c, c ∈ mejor <->
               c ∈ cols /\ fichas_en_linea t ia c = (Ok maxf, t)).
Proof.
  intros Hrect Hcols Hr.
  destruct (decide (cols = [])) as [->|Hne].
  { rewrite (ia_nivel_2_regla_vacio seed t ia jug n Hcols) in Hr. discriminate. }
  destruct (ia_nivel_2_regla_spec seed t ia jug n cols Hrect Hcols Hne)
    as (r' & col' & Hr' & Hin & Hspec).
  rewrite Hr in Hr'. injection Hr' as <- <-.
  destruct Hspec as (_ & _ & mejor & maxf & Hm & _ & _ & Hcol).
  destruct (maximizar_spec t ia cols Hrect _ _ _ _ Hm)
    as (_ & Hmax & Hsub & _ & Hall).
  assert (Hmejor : forall c, c ∈ mejor ->
            c ∈ cols /\ fichas_en_linea t ia c = (Ok maxf, t)).
  { intros c Hc. destruct (Hsub c Hc) as [[H _]|H]; [|assumption].
    apply elem_of_nil in H. contradiction. }
  exists mejor, maxf. split; [assumption|]. split; [assumption|].
  split; [assumption|]. split; [apply Hmejor; assumption|].
  split; [assumption|].
  intros c. split; [apply Hmejor|]. intros [Hc Hv]. apply Hall; assumption.
Qed.

Lemma ia_nivel_2_maximiza_witness :
  exists mejor maxf,
    maximizar 2 [0; 1; 2; 3; 4; 5; 6] [] 0 tablero_6x7
    = (Ok (mejor, maxf), tablero_6x7) /\
    5 ∈ mejor /\ 5 ∈ [0; 1; 2; 3; 4; 5; 6] /\
    fichas_en_linea tablero_6x7 2 5 = (Ok maxf, tablero_6x7) /\
    (forall c v, c ∈ [0; 1; 2; 3; 4; 5; 6] ->
                 fichas_en_linea tablero_6x7 2 c = (Ok v, tablero_6x7) ->
                 v <= maxf) /\
    (forall c, c ∈ mejor <->
               c ∈ [0; 1; 2; 3; 4; 5; 6] /\
               fichas_en_linea tablero_6x7 2 c = (Ok maxf, tablero_6x7)).
Proof.
  apply (ia_nivel_2_maximiza 5 tablero_6x7 2 1 4 5 [0; 1; 2; 3; 4; 5; 6]).
  - apply rectangular_replicate.
  - reflexivity.
  - reflexivity.
Defined.

(** ** Lines on the board *)

Lemma total_direccion_en_linea t fila c ficha d v n :
  rectangular t -> d.1 <> 0 \/ d.2 <> 0 -> 1 <= n ->
  en_racha t fila c ficha d.1 d.2 0 ->
  total_direccion t fila c ficha d = Ok v ->
  (n <= v <-> en_linea t fila c ficha d.1 d.2 n).
Proof.
  intros Hrect Hd Hn H0 Hv.
  assert (Hd' : - d.1 <> 0 \/ - d.2 <> 0) by lia.
  destruct (contar_fichas_direccion_spec t ficha d.1 d.2 Hrect Hd fila c)
    as (a & Ha0 & Ha & Hina & Houta).
  destruct (contar_fichas_direccion_spec t ficha (- d.1) (- d.2) Hrect Hd'
              fila c) as (b & Hb0 & Hb & Hinb & Houtb).
  apply total_direccion_Ok in Hv as (a' & b' & Ha' & Hb' & ->).
  rewrite Ha in Ha'. injection Ha' as <-.
  rewrite Hb in Hb'. injection Hb' as <-.
  assert (Hrun : forall i, - b <= i <= a -> en_racha t fila c ficha d.1 d.2 i).
  { intros i Hi. destruct (Z.lt_trichotomy i 0) as [Hlt|[->|Hgt]].
    - rewrite <- (Z.opp_involutive i). apply en_racha_opuesta, Hinb. lia.
    - assumption.
    - apply Hina. lia. }
  split.
  - intros Hle. exists (Z.max (- b) (1 - n)). split; [lia|].
    intros i Hi. apply Hrun. lia.
  - intros (s & Hs & Hwin).
    assert (- b <= s).
    { destruct (Z.le_gt_cases (- b) s) as [|Hlt]; [assumption|]. exfalso.
      apply Houtb, en_racha_opuesta.
      replace (- (b + 1)) with (- b - 1) by lia. apply Hwin. lia. }
    assert (s + n - 1 <= a).
    { destruct (Z.le_gt_cases (s + n - 1) a) as [|Hlt]; [assumption|]. exfalso.
      apply Houta, Hwin. lia. }
    lia.
Qed.

Lemma comprobar_linea_detecta t c n fila ficha :
  rectangular t -> 1 <= n -> ancla t c fila ->
  celda t fila c = Some ficha ->
  exists b,
    comprobar_linea t c n = Ok b /\
    (b = true <->
     exists d, d ∈ direcciones /\ en_linea t fila c ficha d.1 d.2 n).
Proof.
  intros Hrect Hn Hancla Hficha.
  destruct (comprobar_linea_con_ancla t c n fila ficha Hrect Hn Hancla Hficha)
    as (b & Hb & Hiff).
  exists b. split; [assumption|]. rewrite Hiff.
  assert (H0 : forall d, en_racha t fila c ficha d.1 d.2 0).
  { intros d. unfold en_racha. rewrite !Z.mul_0_l, !Z.add_0_r. assumption. }
  split.
  - intros (d & v & Hd & Hv & Hle). exists d. split; [assumption|].
    apply (total_direccion_en_linea t fila c ficha d v n);
      auto using direcciones_no_nulas.
  - intros (d & Hd & Hlinea).
    destruct (total_direccion_ok t fila c ficha d Hrect
                (direcciones_no_nulas d Hd)) as (v & Hv & _).
    exists d, v. split; [assumption|]. split; [assumption|].
    apply (total_direccion_en_linea t fila c ficha d v n);
      auto using direcciones_no_nulas.
Qed.

(** X10. What [comprobar_linea] detects.  On a grid, for a column whose
    topmost piece is [ficha] in row [fila] and a win length [n >= 1], the
    answer is [True] exactly when [n] consecutive cells that include
    (fila, columna) all hold [ficha], along the horizontal (0, 1), the
    vertical (1, 0) or one of the diagonals (1, 1) and (1, -1). *)
Theorem comprobar_linea_en_linea (t : tablero) (c n fila ficha : Z) :
  rectangular t -> 1 <= n -> ancla t c fila ->
  celda t fila c = Some ficha ->
  exists b,
    comprobar_linea t c n = Ok b /\
    (b = true <->
     en_linea t fila c ficha 0 1 n \/ en_linea t fila c ficha 1 0 n \/
     en_linea t fila c ficha 1 1 n \/ en_linea t fila c ficha 1 (-1) n).
Proof.
  intros Hrect Hn Hancla Hficha.
  destruct (comprobar_linea_detecta t c n fila ficha Hrect Hn Hancla Hficha)
    as (b & Hb & Hiff).
  exists b. split; [assumption|]. rewrite Hiff.
  apply (existe_direccion (fun df dc => en_linea t fila c ficha df dc n)).
Qed.

Lemma ancla_tablero_tres : ancla tablero_tres 2 5.
Proof.
  split; [exists 1; split; [reflexivity|discriminate]|].
  intros f Hf.
  assert (f = 0 \/ f = 1 \/ f = 2 \/ f = 3 \/ f = 4) as Hcases by lia.
  destruct Hcases as [->|[->|[->|[->| ->]]]]; reflexivity.
Qed.

Lemma comprobar_linea_en_linea_witness :
  exists b,
    comprobar_linea tablero_tres 2 3 = Ok b /\
    (b = true <->
     en_linea tablero_tres 5 2 1 0 1 3 \/ en_linea tablero_tres 5 2 1 1 0 3 \/
     en_linea tablero_tres 5 2 1 1 1 3 \/ en_linea tablero_tres 5 2 1 1 (-1) 3).
Proof.
  apply (comprobar_linea_en_linea tablero_tres 2 3 5 1).
  - apply rectangular_tablero_tres.
  - lia.
  - apply ancla_tablero_tres.
  - reflexivity.
Defined.

Lemma en_linea_cota t fila c ficha df dc n :
  rectangular t -> df <> 0 \/ dc <> 0 -> 1 <= n ->
  en_linea t fila c ficha df dc n -> n <= Z.max (filas t) (columnas t).
Proof.
  intros Hrect Hd Hn (s & Hs & Hwin).
  pose proof (Hwin s ltac:(lia)) as H1.
  pose proof (Hwin (s + n - 1) ltac:(lia)) as H2.
  unfold en_racha in H1, H2.
  apply (celda_fuera _ _ _ _ Hrect) in H1, H2.
  destruct (Z.eq_dec df 0) as [Hdf|Hdf].
  - assert (dc <> 0) by lia. nia.
  - nia.
Qed.

(** X11. No line is longer than the board.  On a grid, [comprobar_linea]
    answers [False] for every column when the win length exceeds both
    dimensions, and the value [fichas_en_linea] announces for a move that
    [colocar_ficha] can make never exceeds the larger dimension. *)
Theorem linea_acotada (t : tablero) (c : Z) :
  rectangular t ->
  (forall n, Z.max (filas t) (columnas t) < n ->
             comprobar_linea t c n = Ok false) /\
  (gravedad t ->
   forall ficha t' v,
     colocar_ficha t ficha c = (Ok true, t') ->
     fichas_en_linea t ficha c = (Ok v, t) ->
     1 <= v <= Z.max (filas t) (columnas t)).
Proof.
  intros Hrect. split.
  - intros n Hn.
    assert (1 <= n) as Hn1 by (unfold filas, columnas in Hn; lia).
    destruct (decide (0 <= c < columnas t)) as [Hc|Hc];
      [|apply comprobar_linea_sin_ancla; [assumption|intros; contradiction]].
    destruct (ancla_existe t c Hrect Hc) as [Hv|(fila & ficha & Ha & Hf)];
      [apply comprobar_linea_sin_ancla; auto|].
    destruct (comprobar_linea_con_ancla t c n fila ficha Hrect Hn1 Ha Hf)
      as (b & Hb & Hiff).
    rewrite Hb. destruct b; [|reflexivity]. exfalso.
    destruct (proj1 Hiff eq_refl) as (d & v & Hd & Hv & Hle).
    assert (H0 : en_racha t fila c ficha d.1 d.2 0).
    { unfold en_racha. rewrite !Z.mul_0_l, !Z.add_0_r. assumption. }
    apply (total_direccion_en_linea t fila c ficha d v n Hrect
             (direcciones_no_nulas d Hd) Hn1 H0 Hv) in Hle.
    apply en_linea_cota in Hle; auto using direcciones_no_nulas. lia.
  - intros Hg ficha t' v Hcol Hv.
    set (m := Z.max (filas t) (columnas t)).
    assert (0 <= m) by (unfold m, filas, columnas; lia).
    destruct (comprobar_tras_colocar t ficha c 1 t' Hrect Hg ltac:(lia) Hcol)
      as (v1 & Hv1 & Hc1).
    destruct (comprobar_tras_colocar t ficha c (m + 1) t' Hrect Hg ltac:(lia)
                Hcol) as (v2 & Hv2 & Hc2).
    rewrite Hv in Hv1, Hv2. injection Hv1 as <-. injection Hv2 as <-.
    destruct (colocar_ficha_invariantes _ _ _ _ _ Hrect Hg Hcol)
      as (Hrect' & Hg' & Hf' & Hcols').
    destruct (colocar_ficha_casos _ _ _ _ _ Hcol)
      as [(Hne & _)|(_ & Hval & Hc & fila & Hcaida & ->)]; [congruence|].
    destruct (ancla_tras_colocar t c fila ficha Hg Hcaida
                (ficha_valida_no_vacia _ Hval)) as [Hancla Hcelda].
    split.
    + destruct (fichas_en_linea_rect t ficha c Hrect) as (v' & Hv' & _ & Hpos).
      rewrite Hv in Hv'. injection Hv' as <-.
      apply Hpos; [assumption|assumption|].
      destruct Hcaida as [H0 _]. eauto.
    + destruct (m + 1 <=? v) eqn:E; zbool; [|lia]. exfalso.
      destruct (comprobar_linea_con_ancla (poner t fila c ficha) c (m + 1) fila
                  ficha Hrect' ltac:(lia) Hancla Hcelda) as (b & Hb & Hiff).
      rewrite Hc2 in Hb. injection Hb as <-.
      destruct (proj1 Hiff eq_refl) as (d & w & Hd & Hw & Hle).
      assert (H0 : en_racha (poner t fila c ficha) fila c ficha d.1 d.2 0).
      { unfold en_racha. rewrite !Z.mul_0_l, !Z.add_0_r. assumption. }
      apply (total_direccion_en_linea _ fila c ficha d w (m + 1) Hrect'
               (direcciones_no_nulas d Hd) ltac:(lia) H0 Hw) in Hle.
      apply en_linea_cota in Hle; auto using direcciones_no_nulas; [|lia].
      rewrite Hf', Hcols' in Hle. unfold m in Hle. lia.
Qed.

Lemma linea_acotada_witness :
  (forall n, Z.max (filas tablero_tres) (columnas tablero_tres) < n ->
             comprobar_linea tablero_tres 2 n = Ok false) /\
  (gravedad tablero_tres ->
   forall ficha t' v,
     colocar_ficha tablero_tres ficha 2 = (Ok true, t') ->
     fichas_en_linea tablero_tres ficha 2 = (Ok v, tablero_tres) ->
     1 <= v <= Z.max (filas tablero_tres) (columnas tablero_tres)).
Proof.
  apply (linea_acotada tablero_tres 2).
  apply rectangular_tablero_tres.
Defined.

(** ** Filling a column *)

Lemma colocar_ficha_llena t ficha c :
  columna_llena t c -> colocar_ficha t ficha c = ((colocar_ficha t ficha c).1, t) /\
  (rectangular t -> colocar_ficha t ficha c = (Ok false, t)).
Proof.
  intros Hllena.
  destruct (colocar_ficha t ficha c) as [r t'] eqn:E. simpl.
  destruct (colocar_ficha_casos _ _ _ _ _ E)
    as [(Hne & -> & _)|(_ & _ & _ & fila & [H0 _] & _)].
  - split; [reflexivity|]. intros Hrect.
    destruct (colocar_ficha_total t ficha c Hrect) as (b & t'' & Hcol).
    rewrite E in Hcol. injection Hcol as -> _.
    destruct b; [congruence|reflexivity].
  - exfalso. apply (Hllena fila). assumption.
Qed.

Lemma soltar_llena t c fichas :
  rectangular t -> columna_llena t c ->
  soltar t c fichas = (replicate (length fichas) (Ok false), t).
Proof.
  intros Hrect Hllena. induction fichas as [|p ps IH]; [reflexivity|].
  simpl. rewrite (proj2 (colocar_ficha_llena t p c Hllena) Hrect). simpl.
  rewrite IH. reflexivity.
Qed.

(** A column whose rows above [k] are empty and whose rows from [k] on are
    occupied receives the pieces one above the other. *)
Lemma soltar_spec fichas :
  forall t c k,
    rectangular t -> 0 <= c < columnas t -> 0 <= k <= filas t ->
    (forall f, 0 <= f < k -> celda t f c = Some CASILLA_VACIA) ->
    (forall f, k <= f < filas t -> celda t f c <> Some CASILLA_VACIA) ->
    Forall (fun p => ficha_valida p = true) fichas ->
    let n := Z.min k (Z.of_nat (length fichas)) in
    (soltar t c fichas).1
    = replicate (Z.to_nat n) (Ok true)
      ++ replicate (length fichas - Z.to_nat n) (Ok false) /\
    rectangular (soltar t c fichas).2 /\
    (forall i p, fichas !! i = Some p -> Z.of_nat i < k ->
                 celda (soltar t c fichas).2 (k - 1 - Z.of_nat i) c = Some p) /\
    (forall f, 0 <= f < k - n ->
               celda (soltar t c fichas).2 f c = Some CASILLA_VACIA) /\
    (forall f c', c' <> c \/ k <= f ->
                  celda (soltar t c fichas).2 f c' = celda t f c').
Proof.
  induction fichas as [|p ps IH]; intros t c k Hrect Hc Hk Hvac Hocc Hval n.
  - simpl. unfold n. simpl. rewrite Z.min_r by lia. simpl.
    split; [reflexivity|]. split; [assumption|].
    split; [intros i p' Hi; discriminate|].
    split; [intros f Hf; apply Hvac; lia|auto].
  - apply Forall_cons in Hval as [Hp Hval].
    destruct (decide (k = 0)) as [->|Hk0].
    { assert (Hllena : columna_llena t c).
      { intros f Hf. pose proof (celda_filas _ _ _ _ Hf).
        apply (Hocc f); [lia|assumption]. }
      rewrite (soltar_llena t c (p :: ps) Hrect Hllena).
      unfold n. rewrite Z.min_l by lia. cbn [fst snd].
      change (Z.to_nat 0) with 0%nat. rewrite Nat.sub_0_r.
      split; [reflexivity|]. split; [assumption|].
      split; [intros; lia|]. split; [intros; lia|auto]. }
    assert (Hcaida : fila_de_caida t c (k - 1)).
    { split; [apply Hvac; lia|]. intros f Hf. apply Hocc. lia. }
    assert (Hd : disponible t c).
    { split; [assumption|]. apply Hvac. lia. }
    destruct (colocar_ficha_en_disponible t p c Hrect Hp Hd)
      as (fila & Hcaida' & Hcol).
    rewrite (fila_de_caida_unica _ _ _ _ Hcaida' Hcaida) in Hcol.
    clear fila Hcaida'.
    simpl. rewrite Hcol. simpl.
    set (t1 := poner t (k - 1) c p) in *.
    destruct Hcaida as [H0 _].
    assert (Hp0 : p <> CASILLA_VACIA) by (apply ficha_valida_no_vacia; assumption).
    destruct (IH t1 c (k - 1)) as (Hres & Hrect' & Hcells & Hvac' & Hframe).
    + apply rectangular_poner. assumption.
    + unfold t1. rewrite columnas_poner. assumption.
    + unfold t1. rewrite filas_poner. lia.
    + intros f Hf. unfold t1. rewrite celda_poner_ne; [|intros [= ->]; lia|lia|lia].
      apply Hvac. lia.
    + intros f Hf. unfold t1 in *. rewrite filas_poner in Hf.
      destruct (decide (f = k - 1)) as [->|Hne].
      * rewrite (celda_poner_eq t (k - 1) c _ p H0). congruence.
      * rewrite celda_poner_ne; [|intros [= ->]; lia|lia|lia].
        apply Hocc. lia.
    + assumption.
    + assert (Hn : n = 1 + Z.min (k - 1) (Z.of_nat (length ps))).
      { unfold n. simpl length. lia. }
      split; [|split; [assumption|split; [|split]]].
      * rewrite Hres, Hn.
        replace (Z.to_nat (1 + Z.min (k - 1) (Z.of_nat (length ps))))
          with (S (Z.to_nat (Z.min (k - 1) (Z.of_nat (length ps))))) by lia.
        reflexivity.
      * intros i p' Hi Hik. destruct i as [|i].
        -- simpl in Hi. injection Hi as <-.
           replace (k - 1 - Z.of_nat 0) with (k - 1) by lia.
           rewrite Hframe by (right; lia).
           apply (celda_poner_eq t (k - 1) c _ p H0).
        -- simpl in Hi.
           replace (k - 1 - Z.of_nat (S i)) with (k - 1 - 1 - Z.of_nat i) by lia.
           apply Hcells; [assumption|lia].
      * intros f Hf. apply Hvac'. lia.
      * intros f c' Hfc. rewrite Hframe by (destruct Hfc; [left; assumption|right; lia]).
        unfold t1. apply celda_poner_ne; [|lia|lia].
        intros [= -> ->]. destruct Hfc; [congruence|lia].
Qed.

(** X12. Filling a column.  On a grid, when valid pieces are dropped one
    after the other in an empty column of height [H], the first [H] calls
    of [colocar_ficha] succeed and every later one fails; the i-th piece
    dropped ends in row [H - 1 - i], the rows above the pile stay empty and
    the other columns are untouched. *)
Theorem soltar_en_columna_vacia (t : tablero) (c : Z) (fichas : list Z) :
  rectangular t -> 0 <= c < columnas t -> columna_vacia t c ->
  Forall (fun p => ficha_valida p = true) fichas ->
  (soltar t c fichas).1
  = replicate (Nat.min (length t) (length fichas)) (Ok true)
    ++ replicate (length fichas - length t) (Ok false) /\
  (forall i p, fichas !! i = Some p -> Z.of_nat i < filas t ->
               celda (soltar t c fichas).2 (filas t - 1 - Z.of_nat i) c
               = Some p) /\
  (forall f, 0 <= f < filas t - Z.of_nat (length fichas) ->
             celda (soltar t c fichas).2 f c = Some CASILLA_VACIA) /\
  (forall f c', c' <> c ->
                celda (soltar t c fichas).2 f c' = celda t f c').
Proof.
  intros Hrect Hc Hvacia Hval.
  destruct (soltar_spec fichas t c (filas t) Hrect Hc) as
    (Hres & _ & Hcells & Hvac & Hframe).
  - unfold filas. lia.
  - assumption.
  - intros f Hf. lia.
  - assumption.
  - split; [|split; [assumption|split]].
    + rewrite Hres. unfold filas. f_equal; f_equal; lia.
    + intros f Hf. apply Hvac. lia.
    + intros f c' Hne. apply Hframe. left. assumption.
Qed.

Lemma columna_vacia_6x7 : columna_vacia tablero_6x7 3.
Proof.
  intros f Hf. unfold filas in Hf. simpl in Hf.
  apply (celda_replicate 6 7 0); lia.
Qed.

Lemma soltar_en_columna_vacia_witness :
  (soltar tablero_6x7 3 [1; 2; 1; 2; 1; 2; 1]).1
  = replicate (Nat.min (length tablero_6x7) 7) (Ok true)
    ++ replicate (7 - length tablero_6x7) (Ok false) /\
  (forall i p, [1; 2; 1; 2; 1; 2; 1] !! i = Some p ->
               Z.of_nat i < filas tablero_6x7 ->
               celda (soltar tablero_6x7 3 [1; 2; 1; 2; 1; 2; 1]).2
                     (filas tablero_6x7 - 1 - Z.of_nat i) 3 = Some p) /\
  (forall f, 0 <= f < filas tablero_6x7 - Z.of_nat 7 ->
             celda (soltar tablero_6x7 3 [1; 2; 1; 2; 1; 2; 1]).2 f 3
             = Some CASILLA_VACIA) /\
  (forall f c', c' <> 3 ->
                celda (soltar tablero_6x7 3 [1; 2; 1; 2; 1; 2; 1]).2 f c'
                = celda tablero_6x7 f c').
Proof.
  apply (soltar_en_columna_vacia tablero_6x7 3 [1; 2; 1; 2; 1; 2; 1]).
  - apply rectangular_replicate.
  - unfold columnas. simpl. lia.
  - apply columna_vacia_6x7.
  - repeat constructor.
Defined.

(** ** Counting the empty cells *)

Lemma vacias_fila_cons x fila :
  vacias_fila (x :: fila)
  = ((if decide (x = CASILLA_VACIA) then 1 else 0) + vacias_fila fila)%nat.
Proof.
  unfold vacias_fila. rewrite filter_cons.
  destruct (decide (x = CASILLA_VACIA)); reflexivity.
Qed.

Lemma vacias_cons fila t : vacias (fila :: t) = (vacias_fila fila + vacias t)%nat.
Proof. reflexivity. Qed.

Lemma vacias_fila_insert fila j v :
  fila !! j = Some CASILLA_VACIA -> v <> CASILLA_VACIA ->
  vacias_fila fila = S (vacias_fila (<[j := v]> fila)).
Proof.
  revert j. induction fila as [|x fila IH]; intros j Hj Hv; [discriminate|].
  destruct j as [|j]; simpl in *.
  - injection Hj as ->. rewrite !vacias_fila_cons.
    rewrite decide_True by reflexivity. rewrite decide_False by assumption.
    reflexivity.
  - rewrite !vacias_fila_cons. rewrite (IH j Hj Hv). lia.
Qed.

Lemma vacias_poner t f c v :
  celda t f c = Some CASILLA_VACIA -> v <> CASILLA_VACIA ->
  vacias t = S (vacias (poner t f c v)).
Proof.
  intros H Hv. destruct (celda_nonneg _ _ _ _ H) as [Hf Hc].
  rewrite celda_lookup in H by assumption.
  unfold poner, vacias. generalize dependent (Z.to_nat f). clear Hf f.
  induction t as [|fila t IH]; intros i H; [discriminate|].
  destruct i as [|i]; simpl in *.
  - rewrite (vacias_fila_insert fila (Z.to_nat c) v H Hv). reflexivity.
  - specialize (IH i H). unfold fmap, alter in IH. lia.
Qed.

Lemma vacias_fila_cero fila :
  existsb (Z.eqb CASILLA_VACIA) fila = false <-> vacias_fila fila = 0%nat.
Proof.
  induction fila as [|x fila IH]; [split; reflexivity|].
  cbn [existsb]. rewrite vacias_fila_cons, orb_false_iff, IH.
  destruct (decide (x = CASILLA_VACIA)) as [->|Hne].
  - split; [intros [H _]; discriminate|lia].
  - rewrite (proj2 (Z.eqb_neq CASILLA_VACIA x)) by congruence.
    split; [intros [_ H]; lia|intros H; split; [reflexivity|lia]].
Qed.

Lemma vacias_cero t : hay_casillas_libres t = false <-> vacias t = 0%nat.
Proof.
  unfold hay_casillas_libres, vacias.
  induction t as [|fila t IH]; [split; reflexivity|].
  cbn [existsb fmap list_fmap sum_list sum_list_with].
  rewrite orb_false_iff, IH, vacias_fila_cero. unfold id. lia.
Qed.

Lemma vacias_replicate n m :
  vacias (replicate n (replicate m CASILLA_VACIA)) = (n * m)%nat.
Proof.
  assert (Hfila : vacias_fila (replicate m CASILLA_VACIA) = m).
  { induction m as [|m IH]; [reflexivity|].
    simpl. rewrite vacias_fila_cons, decide_True by reflexivity. lia. }
  induction n as [|n IH]; [reflexivity|].
  change (vacias (replicate m CASILLA_VACIA
                  :: replicate n (replicate m CASILLA_VACIA))
          = (m + n * m)%nat).
  rewrite vacias_cons, IH, Hfila. reflexivity.
Qed.

(** X13. The empty cells count the moves that remain.  A new board has
    rows times columns empty cells; every successful [colocar_ficha] leaves
    exactly one empty cell fewer, and an unsuccessful one leaves the count
    as it is; and [hay_casillas_libres] answers [False], which ends the
    game in a draw, exactly when the count is zero. *)
Theorem vacias_cuenta_jugadas :
  (forall f c t, crear_tablero f c = Some t ->
                 Z.of_nat (vacias t) = filas t * columnas t) /\
  (forall t ficha c t',
     colocar_ficha t ficha c = (Ok true, t') -> vacias t = S (vacias t')) /\
  (forall t ficha c r t',
     colocar_ficha t ficha c = (r, t') -> r <> Ok true ->
     vacias t' = vacias t) /\
  (forall t, hay_casillas_libres t = false <-> vacias t = 0%nat).
Proof.
  split; [|split; [|split]].
  - intros f c t Hcrear. unfold crear_tablero in Hcrear.
    destruct f as [fz|]; [|discriminate]. destruct c as [cz|]; [|discriminate].
    destruct ((fz <? 6) || (cz <? 7)) eqn:E; [discriminate|]. zbool.
    injection Hcrear as <-.
    rewrite vacias_replicate. unfold filas.
    rewrite length_replicate, columnas_replicate by lia. lia.
  - intros t ficha c t' Hcol.
    destruct (colocar_ficha_casos _ _ _ _ _ Hcol)
      as [(Hne & _)|(_ & Hv & _ & fila & [H0 _] & ->)]; [congruence|].
    apply vacias_poner; [assumption|].
    apply ficha_valida_no_vacia. assumption.
  - intros t ficha c r t' Hcol Hne.
    destruct (colocar_ficha_casos _ _ _ _ _ Hcol) as [(_ & -> & _)|(Hr & _)];
      [reflexivity|contradiction].
  - apply vacias_cero.
Qed.

Lemma vacias_cuenta_jugadas_witness :
  vacias tablero_tres = S (vacias (poner tablero_tres 5 3 2)).
Proof.
  apply (proj1 (proj2 vacias_cuenta_jugadas) tablero_tres 2 3).
  reflexivity.
Defined.

(** ** The game loop *)

Lemma comprobar_linea_total t c n :
  rectangular t -> exists b, comprobar_linea t c n = Ok b.
Proof.
  intros Hrect.
  destruct (decide (1 <= n)) as [Hn|Hn].
  - destruct (decide (0 <= c < columnas t)) as [Hc|Hc].
    + destruct (ancla_existe t c Hrect Hc) as [Hv|(fila & ficha & Ha & Hf)].
      * exists false. apply comprobar_linea_sin_ancla; auto.
      * destruct (comprobar_linea_con_ancla t c n fila ficha Hrect Hn Ha Hf)
          as (b & Hb & _).
        eauto.
    + exists false. apply comprobar_linea_sin_ancla; [assumption|].
      intros; contradiction.
  - exists false. unfold comprobar_linea.
    destruct t as [|fila0 t0]; [reflexivity|].
    destruct (fuera_de_rango fila0 c); [reflexivity|].
    rewrite (proj2 (Z.ltb_lt n 1)) by lia. reflexivity.
Qed.

Lemma cambiar_turno_valida turno :
  ficha_valida turno = true ->
  ficha_valida (cambiar_turno turno) = true /\
  cambiar_turno turno <> turno /\
  cambiar_turno (cambiar_turno turno) = turno.
Proof.
  intros Hv. apply ficha_valida_true in Hv.
  destruct Hv as [-> | ->]; repeat split; discriminate.
Qed.

(** X14. One turn of the game.  On a grid that obeys gravity, when the
    player to move holds a valid piece and the chosen column is one for
    which [columna_esta_disponible] answers [True], the turn never takes the
    error branch of the loop: the piece lands in the lowest empty row of the
    column; the game is won exactly when [n] consecutive cells through the
    new piece hold the mover's piece along the horizontal (0, 1), the
    vertical (1, 0) or one of the diagonals (1, 1) and (1, -1); it is a
    draw only when it
    is not won and the board is full; otherwise the turn passes to the
    other piece, on a board that is again a grid obeying gravity with a
    cell left to play. *)
Theorem jugada_en_disponible (t : tablero) (turno c n : Z) :
  rectangular t -> gravedad t -> ficha_valida turno = true -> 1 <= n ->
  columna_esta_disponible t c = Ok true ->
  exists fila r,
    fila_de_caida t c fila /\
    jugada t turno c n = (Ok r, poner t fila c turno) /\
    r <> ErrorColocar /\
    (r = Victoria <->
     en_linea (poner t fila c turno) fila c turno 0 1 n \/
     en_linea (poner t fila c turno) fila c turno 1 0 n \/
     en_linea (poner t fila c turno) fila c turno 1 1 n \/
     en_linea (poner t fila c turno) fila c turno 1 (-1) n) /\
    (r = Empate -> hay_casillas_libres (poner t fila c turno) = false) /\
    (forall turno', r = Continua turno' ->
       ficha_valida turno' = true /\ turno' <> turno /\
       hay_casillas_libres (poner t fila c turno) = true /\
       rectangular (poner t fila c turno) /\
       gravedad (poner t fila c turno)).
Proof.
  intros Hrect Hg Hv Hn Hd. apply columna_esta_disponible_true in Hd.
  destruct (colocar_ficha_en_disponible t turno c Hrect Hv Hd)
    as (fila & Hcaida & Hcol).
  set (t' := poner t fila c turno) in *.
  assert (Hrect' : rectangular t') by (apply rectangular_poner; assumption).
  assert (Hg' : gravedad t').
  { apply gravedad_poner; auto using ficha_valida_no_vacia. }
  destruct (ancla_tras_colocar t c fila turno Hg Hcaida
              (ficha_valida_no_vacia _ Hv)) as [Hancla Hcelda].
  fold t' in Hancla, Hcelda.
  destruct (comprobar_linea_con_ancla t' c n fila turno Hrect' Hn Hancla Hcelda)
    as (b & Hb & Hiff).
  assert (Hlinea : b = true <->
            en_linea t' fila c turno 0 1 n \/ en_linea t' fila c turno 1 0 n \/
            en_linea t' fila c turno 1 1 n \/ en_linea t' fila c turno 1 (-1) n).
  { rewrite <- (existe_direccion (fun df dc => en_linea t' fila c turno df dc n)).
    rewrite Hiff.
    assert (H0 : forall d, en_racha t' fila c turno d.1 d.2 0).
    { intros d. unfold en_racha. rewrite !Z.mul_0_l, !Z.add_0_r. assumption. }
    split.
    - intros (d & v & Hd' & Hv' & Hle). exists d. split; [assumption|].
      apply (total_direccion_en_linea t' fila c turno d v n);
        auto using direcciones_no_nulas.
    - intros (d & Hd' & Hl).
      destruct (total_direccion_ok t' fila c turno d Hrect'
                  (direcciones_no_nulas d Hd')) as (v & Hv' & _).
      exists d, v. split; [assumption|]. split; [assumption|].
      apply (total_direccion_en_linea t' fila c turno d v n);
        auto using direcciones_no_nulas. }
  exists fila.
  unfold jugada. rewrite Hcol, Hb.
  destruct b.
  - exists Victoria. split; [assumption|]. split; [reflexivity|].
    split; [discriminate|]. split; [|split; [discriminate|discriminate]].
    split; [intros _; apply Hlinea; reflexivity|reflexivity].
  - assert (Hno : ~ (en_linea t' fila c turno 0 1 n \/
                     en_linea t' fila c turno 1 0 n \/
                     en_linea t' fila c turno 1 1 n \/
                     en_linea t' fila c turno 1 (-1) n)).
    { intros H. apply Hlinea in H. discriminate. }
    destruct (hay_casillas_libres t') eqn:Hl; cbn [negb].
    + eexists. split; [assumption|]. split; [reflexivity|].
      split; [discriminate|]. split; [split; [discriminate|contradiction]|].
      split; [discriminate|].
      intros turno' [= <-].
      destruct (cambiar_turno_valida turno Hv) as (H1 & H2 & _). auto.
    + exists Empate. split; [assumption|]. split; [reflexivity|].
      split; [discriminate|]. split; [split; [discriminate|contradiction]|].
      split; [auto|discriminate].
Qed.

Lemma jugada_en_disponible_witness :
  exists fila r,
    fila_de_caida tablero_tres 3 fila /\
    jugada tablero_tres 1 3 4 = (Ok r, poner tablero_tres fila 3 1) /\
    r <> ErrorColocar /\
    (r = Victoria <->
     en_linea (poner tablero_tres fila 3 1) fila 3 1 0 1 4 \/
     en_linea (poner tablero_tres fila 3 1) fila 3 1 1 0 4 \/
     en_linea (poner tablero_tres fila 3 1) fila 3 1 1 1 4 \/
     en_linea (poner tablero_tres fila 3 1) fila 3 1 1 (-1) 4) /\
    (r = Empate -> hay_casillas_libres (poner tablero_tres fila 3 1) = false) /\
    (forall turno', r = Continua turno' ->
       ficha_valida turno' = true /\ turno' <> 1 /\
       hay_casillas_libres (poner tablero_tres fila 3 1) = true /\
       rectangular (poner tablero_tres fila 3 1) /\
       gravedad (poner tablero_tres fila 3 1)).
Proof.
  apply (jugada_en_disponible tablero_tres 1 3 4).
  - apply rectangular_tablero_tres.
  - apply gravedad_tablero_tres.
  - reflexivity.
  - lia.
  - reflexivity.
Defined.

Lemma jugada_casos t turno c n :
  rectangular t -> gravedad t -> ficha_valida turno = true ->
  exists r t',
    jugada t turno c n = (Ok r, t') /\ rectangular t' /\ gravedad t' /\
    (r = ErrorColocar -> t' = t /\ columna_esta_disponible t c <> Ok true) /\
    (r <> ErrorColocar ->
     vacias t = S (vacias t') /\ columna_esta_disponible t c = Ok true) /\
    (forall turno', r = Continua turno' ->
       turno' = cambiar_turno turno /\ hay_casillas_libres t' = true).
Proof.
  intros Hrect Hg Hv. unfold jugada.
  destruct (colocar_ficha_total t turno c Hrect) as (b & t' & Hcol).
  rewrite Hcol.
  destruct (colocar_ficha_invariantes _ _ _ _ _ Hrect Hg Hcol)
    as (Hrect' & Hg' & _).
  pose proof (colocar_ficha_sii_disponible_aux t turno c Hrect Hg Hv) as Hsii.
  rewrite Hcol in Hsii. simpl in Hsii.
  destruct b.
  - assert (Hvac : vacias t = S (vacias t')).
    { destruct (colocar_ficha_casos _ _ _ _ _ Hcol)
        as [(Hne & _)|(_ & _ & _ & fila & [H0 _] & ->)]; [congruence|].
      apply vacias_poner; [assumption|].
      apply ficha_valida_no_vacia. assumption. }
    assert (Hd : columna_esta_disponible t c = Ok true) by (apply Hsii; reflexivity).
    destruct (comprobar_linea_total t' c n Hrect') as [b Hb]. rewrite Hb.
    destruct b.
    + exists Victoria, t'. split; [reflexivity|].
      split; [assumption|]. split; [assumption|].
      split; [discriminate|]. split; [auto|discriminate].
    + destruct (hay_casillas_libres t') eqn:Hl; cbn [negb].
      * eexists _, t'. split; [reflexivity|].
        split; [assumption|]. split; [assumption|].
        split; [discriminate|]. split; [auto|].
        intros turno' [= <-]. auto.
      * exists Empate, t'. split; [reflexivity|].
        split; [assumption|]. split; [assumption|].
        split; [discriminate|]. split; [auto|discriminate].
  - exists ErrorColocar, t'. split; [reflexivity|].
    split; [assumption|]. split; [assumption|].
    split; [|split; [congruence|discriminate]].
    intros _. split.
    + destruct (colocar_ficha_casos _ _ _ _ _ Hcol) as [(_ & -> & _)|(Hr & _)];
        [reflexivity|discriminate].
    + intros Hd. apply Hsii in Hd. discriminate.
Qed.

(** X15. The game loop.  On a grid that obeys gravity, starting with a
    valid piece to move, the loop run on any list of chosen columns never
    fails with an exception and keeps the board a grid obeying gravity.  If
    the game is still going on when the list is used up, one piece was
    placed per turn (the empty cells decreased by the length of the list),
    the piece to move is the first player's after an even number of turns
    and the other one's after an odd number, and an empty cell remains: a
    game cannot last more turns than the board has empty cells. *)
Theorem partida_en_curso (elegidas : list Z) (t : tablero) (turno n : Z) :
  rectangular t -> gravedad t -> ficha_valida turno = true ->
  exists r t',
    partida t turno n elegidas = (Ok r, t') /\
    rectangular t' /\ gravedad t' /\
    forall turno',
      r = Continua turno' ->
      (vacias t' + length elegidas = vacias t)%nat /\
      turno' = (if Nat.even (length elegidas) then turno
                else cambiar_turno turno) /\
      (elegidas <> [] ->
       hay_casillas_libres t' = true /\ (length elegidas < vacias t)%nat).
Proof.
  revert t turno. induction elegidas as [|c resto IH]; intros t turno Hrect Hg Hv.
  - exists (Continua turno), t. split; [reflexivity|].
    split; [assumption|]. split; [assumption|].
    intros turno' [= <-]. split; [simpl; lia|]. split; [reflexivity|].
    congruence.
  - cbn [partida].
    destruct (jugada_casos t turno c n Hrect Hg Hv)
      as (r & t1 & Hj & Hrect1 & Hg1 & Herr & Hok & Hcont).
    rewrite Hj.
    destruct r as [| |turno1|];
      try (eexists _, t1; split; [reflexivity|];
           split; [assumption|]; split; [assumption|]; discriminate).
    destruct (Hcont turno1 eq_refl) as [-> Hl1].
    destruct (Hok ltac:(discriminate)) as [Hvac _].
    destruct (cambiar_turno_valida turno Hv) as (Hv1 & _ & Hinv).
    destruct (IH t1 (cambiar_turno turno) Hrect1 Hg1 Hv1)
      as (r & t' & Hp & Hrect' & Hg' & Hfin).
    exists r, t'. split; [assumption|]. split; [assumption|].
    split; [assumption|].
    intros turno' Hr. destruct (Hfin turno' Hr) as (Hcount & Hturno & Hresto).
    assert (Hpos : (0 < vacias t')%nat).
    { destruct resto as [|c' resto'].
      - simpl in Hp. injection Hp as _ <-.
        destruct (vacias t1) eqn:E; [|lia].
        apply vacias_cero in E. congruence.
      - destruct Hresto as [Hl _]; [discriminate|].
        destruct (vacias t') eqn:E; [|lia].
        apply vacias_cero in E. congruence. }
    split; [simpl; lia|]. split.
    + rewrite Hturno. cbn [length]. rewrite Nat.even_succ, <- Nat.negb_even.
      destruct (Nat.even (length resto)); cbn [negb]; [reflexivity|assumption].
    + intros _. split; [|simpl; lia].
      apply not_false_iff_true. intros Hfalse. apply vacias_cero in Hfalse. lia.
Qed.

Lemma partida_en_curso_witness :
  exists r t',
    partida tablero_6x7 1 4 [3; 3; 4] = (Ok r, t') /\
    rectangular t' /\ gravedad t' /\
    forall turno',
      r = Continua turno' ->
      (vacias t' + length [3; 3; 4] = vacias tablero_6x7)%nat /\
      turno' = (if Nat.even (length [3; 3; 4]) then 1 else cambiar_turno 1) /\
      ([3; 3; 4] <> [] ->
       hay_casillas_libres t' = true /\
       (length [3; 3; 4] < vacias tablero_6x7)%nat).
Proof.
  apply (partida_en_curso [3; 3; 4] tablero_6x7 1 4).
  - apply rectangular_replicate.
  - apply (gravedad_replicate 6 7).
  - reflexivity.
Defined.

(** ** Display *)

Lemma evaluar_bind {A B : Type} (a : A) (k : A -> Imp B) :
  evaluar (Ok a) ≫= k = k a.
Proof. unfold evaluar, mbind, Imp_bind. destruct (k a). reflexivity. Qed.

Lemma para_ext {A : Type} (l : list A) (f g : A -> Imp unit) :
  (forall x, x ∈ l -> f x = g x) -> para l f = para l g.
Proof.
  induction l as [|x l IH]; intros H; [reflexivity|].
  simpl. rewrite (H x) by left. rewrite IH; [reflexivity|].
  intros y Hy. apply H. right. assumption.
Qed.

Lemma Imp_bind_fin {A B : Type} (m : Imp A) (k : A -> Imp B) :
  (exists a, m.2 = Ok a) -> (forall a, exists b, (k a).2 = Ok b) ->
  exists b, (m ≫= k).2 = Ok b.
Proof.
  intros [a Ha] Hk. destruct m as [s r]. simpl in Ha. subst r.
  unfold mbind, Imp_bind. simpl. apply Hk.
Qed.

Lemma para_fin {A : Type} (l : list A) (f : A -> Imp unit) :
  (forall x, x ∈ l -> exists u, (f x).2 = Ok u) ->
  exists u, (para l f).2 = Ok u.
Proof.
  induction l as [|x l IH]; intros H; [exists tt; reflexivity|].
  simpl. destruct (H x) as [u Hu]; [left|].
  destruct (f x) as [s r]. simpl in Hu. subst r.
  unfold mbind, Imp_bind. simpl. apply IH.
  intros y Hy. apply H. right. assumption.
Qed.

Lemma imprimir_fin s : exists u, (imprimir s).2 = Ok u.
Proof. exists tt. reflexivity. Qed.

Lemma mostrar_celda_fin x : exists u, (mostrar_celda x).2 = Ok u.
Proof.
  unfold mostrar_celda.
  destruct (x =? CASILLA_VACIA); [apply imprimir_fin|].
  destruct (x =? FICHA_CIRCULO); [apply imprimir_fin|].
  destruct (x =? FICHA_EQUIS); [apply imprimir_fin|]. exists tt. reflexivity.
Qed.

Lemma mostrar_celda_columna_fin fila col r c x :
  exists u, (mostrar_celda_columna fila col r c x).2 = Ok u.
Proof.
  unfold mostrar_celda_columna.
  destruct (x =? CASILLA_VACIA); [apply imprimir_fin|].
  destruct ((fila =? r) && (col =? c)); [apply imprimir_fin|].
  destruct (x =? FICHA_CIRCULO); [apply imprimir_fin|].
  destruct (x =? FICHA_EQUIS); [apply imprimir_fin|]. exists tt. reflexivity.
Qed.

Lemma mostrar_numeros_fin n : exists u, (mostrar_numeros n).2 = Ok u.
Proof.
  unfold mostrar_numeros.
  apply Imp_bind_fin; [apply imprimir_fin|]. intros _.
  apply Imp_bind_fin; [|intros _; apply imprimir_fin].
  apply para_fin. intros col _. apply imprimir_fin.
Qed.

(** The rows of both functions, for any way of printing a cell. *)
Lemma filas_fin t (celda_texto : Z -> Z -> Z -> Imp unit) :
  rectangular t ->
  (forall fila col x, exists u, (celda_texto fila col x).2 = Ok u) ->
  exists u,
    (para (rango (length t)) (fun fila =>
       _ ← imprimir "  |";
       _ ← para (rango (length (default [] (head t)))) (fun col =>
             x ← evaluar (getitem2 t fila col);
             celda_texto fila col x);
       imprimir LF)).2 = Ok u.
Proof.
  intros Hrect Hcelda. apply para_fin. intros fila Hfila.
  apply elem_of_rango in Hfila.
  apply Imp_bind_fin; [apply imprimir_fin|]. intros _.
  apply Imp_bind_fin; [|intros _; apply imprimir_fin].
  apply para_fin. intros col Hcol. apply elem_of_rango in Hcol.
  destruct (celda_dentro t fila col Hrect) as [x Hx];
    [unfold filas; lia|unfold columnas; lia|].
  rewrite getitem2_celda, Hx by lia. rewrite evaluar_bind. apply Hcelda.
Qed.

Lemma mostrar_resaltado_fin t r c :
  rectangular t -> exists u, (mostrar_resaltado t r c).2 = Ok u.
Proof.
  intros Hrect. unfold mostrar_resaltado.
  apply Imp_bind_fin; [apply mostrar_numeros_fin|]. intros _.
  apply Imp_bind_fin; [|intros _; apply imprimir_fin].
  apply (filas_fin t (fun fila col x => mostrar_celda_columna fila col r c x));
    [assumption|].
  intros. apply mostrar_celda_columna_fin.
Qed.

Lemma Imp_bind_ext {A B : Type} (m m' : Imp A) (k k' : A -> Imp B) :
  m = m' -> (forall a, k a = k' a) -> m ≫= k = m' ≫= k'.
Proof.
  intros <- H. unfold mbind, Imp_bind. destruct m as [s [a|e|]]; [|reflexivity..].
  rewrite H. reflexivity.
Qed.

Lemma mostrar_celda_sin_resaltar fila col c x :
  0 <= fila -> mostrar_celda_columna fila col (-1) c x = mostrar_celda x.
Proof.
  intros Hfila. unfold mostrar_celda_columna, mostrar_celda.
  rewrite (proj2 (Z.eqb_neq fila (-1))) by lia. reflexivity.
Qed.

(** Without a row to highlight, the text is that of [mostrar_tablero]. *)
Lemma mostrar_tablero_resaltado t c :
  t <> [] -> mostrar_resaltado t (-1) c = mostrar_tablero t.
Proof.
  intros Hne. destruct t as [|fila0 t0] eqn:Et; [congruence|].
  unfold mostrar_tablero, mostrar_resaltado. cbn [head default]. unfold id.
  apply Imp_bind_ext; [reflexivity|]. intros _.
  apply Imp_bind_ext; [|reflexivity].
  apply para_ext. intros fila Hfila. apply elem_of_rango in Hfila.
  apply Imp_bind_ext; [reflexivity|]. intros _.
  apply Imp_bind_ext; [|reflexivity].
  apply para_ext. intros col Hcol.
  apply Imp_bind_ext; [reflexivity|]. intros x.
  apply mostrar_celda_sin_resaltar. lia.
Qed.

Lemma primera_ocupada_rango_desc t c n r :
  0 <= c -> primera_ocupada t c (rango_desc n) = Ok r ->
  (r = -1 /\
   forall f, 0 <= f < Z.of_nat n -> celda t f c = Some CASILLA_VACIA) \/
  (0 <= r < Z.of_nat n /\
   (exists x, celda t r c = Some x /\ x <> CASILLA_VACIA) /\
   forall f, r < f < Z.of_nat n -> celda t f c = Some CASILLA_VACIA).
Proof.
  intros Hc. induction n as [|n IH].
  - simpl. intros [= <-]. left. split; [reflexivity|]. intros; lia.
  - rewrite rango_desc_S. simpl. intros H.
    apply result_bind_Ok in H as (x & Hx & H).
    rewrite getitem2_celda in Hx by lia.
    destruct (celda t (Z.of_nat n) c) as [y|] eqn:Ey; [|discriminate].
    injection Hx as ->.
    destruct (x =? CASILLA_VACIA) eqn:Ex; zbool.
    + subst x. destruct (IH H) as [[-> Hall]|(Hr & Hx & Hall)].
      * left. split; [reflexivity|]. intros f Hf.
        destruct (decide (f = Z.of_nat n)) as [->|]; [assumption|].
        apply Hall. lia.
      * right. split; [lia|]. split; [assumption|]. intros f Hf.
        destruct (decide (f = Z.of_nat n)) as [->|]; [assumption|].
        apply Hall. lia.
    + injection H as <-. right. split; [lia|]. split; [eauto|]. intros; lia.
Qed.

Lemma primera_ocupada_desc_total t c n :
  rectangular t -> 0 <= c < columnas t -> (n <= length t)%nat ->
  exists r, primera_ocupada t c (rango_desc n) = Ok r.
Proof.
  intros Hrect Hc. induction n as [|n IH]; intros Hn.
  - simpl. eauto.
  - rewrite rango_desc_S. simpl.
    destruct (celda_dentro t (Z.of_nat n) c Hrect) as [x Hx];
      [unfold filas; lia|assumption|].
    rewrite getitem2_celda, Hx by lia. msimpl.
    destruct (x =? CASILLA_VACIA); [|eauto]. apply IH. lia.
Qed.

Lemma mostrar_tablero_columna_unfold t c :
  t <> [] -> 0 <= c < columnas t ->
  mostrar_tablero_columna t c
  = (fila_ultima ← evaluar (primera_ocupada t c (rango_desc (length t)));
     mostrar_resaltado t fila_ultima c).
Proof.
  intros Hne Hc. destruct t as [|fila0 t0] eqn:Et; [congruence|].
  unfold mostrar_tablero_columna.
  rewrite (proj2 (fuera_de_rango_false fila0 t0 c) Hc). reflexivity.
Qed.

(** The row found by [mostrar_tablero_columna]: -1 on an empty column,
    otherwise the bottom row, since nothing is empty below a piece. *)
Lemma fila_ultima_fondo t c :
  rectangular t -> gravedad t -> 0 <= c < columnas t ->
  (columna_vacia t c ->
   primera_ocupada t c (rango_desc (length t)) = Ok (-1)) /\
  (~ columna_vacia t c ->
   primera_ocupada t c (rango_desc (length t)) = Ok (filas t - 1) /\
   exists x, celda t (filas t - 1) c = Some x /\ x <> CASILLA_VACIA).
Proof.
  intros Hrect Hg Hc.
  destruct (primera_ocupada_desc_total t c (length t) Hrect Hc) as [r Hp];
    [lia|].
  rewrite Hp. pose proof Hp as Hspec.
  apply primera_ocupada_rango_desc in Hspec; [|lia].
  fold (filas t) in Hspec. split.
  - intros Hvacia.
    destruct Hspec as [[-> _]|(Hr & (x & Hx & Hne) & _)]; [reflexivity|].
    rewrite (Hvacia r Hr) in Hx. congruence.
  - intros Hno.
    destruct Hspec as [[-> Hall]|(Hr & (x & Hx & Hne) & Hall)];
      [contradiction|].
    assert (r = filas t - 1) as ->; [|eauto].
    destruct (decide (r = filas t - 1)) as [|Hlt]; [assumption|]. exfalso.
    assert (H0 : celda t (filas t - 1) c = Some CASILLA_VACIA)
      by (apply Hall; lia).
    rewrite (Hg r (filas t - 1) c) in Hx; [congruence|lia|assumption].
Qed.

Lemma fila_ultima_vacia t c :
  rectangular t -> 0 <= c < columnas t -> columna_vacia t c ->
  primera_ocupada t c (rango_desc (length t)) = Ok (-1).
Proof.
  intros Hrect Hc Hvacia.
  destruct (primera_ocupada_desc_total t c (length t) Hrect Hc) as [r Hp];
    [lia|].
  rewrite Hp. apply primera_ocupada_rango_desc in Hp; [|lia].
  destruct Hp as [[-> _]|(Hr & (x & Hx & Hne) & _)]; [reflexivity|].
  rewrite (Hvacia r Hr) in Hx. congruence.
Qed.

Lemma columnas_no_vacio t c : 0 <= c < columnas t -> t <> [].
Proof. intros Hc ->. unfold columnas in Hc. simpl in Hc. lia. Qed.

Lemma append_asociativa (a b c : string) : (a +:+ b) +:+ c = a +:+ b +:+ c.
Proof.
  induction a as [|x a IH]; [reflexivity|].
  change (String x ((a +:+ b) +:+ c) = String x (a +:+ b +:+ c)).
  f_equal. exact IH.
Qed.

Lemma para_texto {A : Type} (l : list A) (f : A -> Imp unit) (g : A -> string) :
  (forall x, x ∈ l -> f x = (g x, Ok tt)) ->
  para l f = (unir (g <$> l), Ok tt).
Proof.
  induction l as [|x l IH]; intros H; [reflexivity|].
  simpl. rewrite (H x) by left. rewrite IH; [reflexivity|].
  intros y Hy. apply H. right. assumption.
Qed.

Lemma Imp_bind_texto {A B : Type} (s s' : string) (a : A) (b : result B)
    (k : A -> Imp B) :
  k a = (s', b) -> (s, Ok a) ≫= k = (s +:+ s', b).
Proof. intros H. unfold mbind, Imp_bind. rewrite H. reflexivity. Qed.

Lemma mostrar_celda_columna_texto fila col r c x :
  mostrar_celda_columna fila col r c x
  = ((mostrar_celda_columna fila col r c x).1, Ok tt).
Proof.
  unfold mostrar_celda_columna.
  destruct (x =? CASILLA_VACIA); [reflexivity|].
  destruct ((fila =? r) && (col =? c)); [reflexivity|].
  destruct (x =? FICHA_CIRCULO); [reflexivity|].
  destruct (x =? FICHA_EQUIS); reflexivity.
Qed.

Lemma rango_lookup n f :
  0 <= f < Z.of_nat n -> rango n !! Z.to_nat f = Some f.
Proof.
  intros Hf. unfold rango. rewrite list_lookup_fmap, lookup_seq_lt by lia.
  simpl. f_equal. lia.
Qed.

(** The text of [mostrar_tablero_columna] on a grid, once the row to
    highlight is known: the line of numbers, one line for each row, the
    closing line. *)
Lemma mostrar_resaltado_texto t r c :
  rectangular t ->
  mostrar_resaltado t r c
  = (LF +:+ "  " +:+
     unir ((fun col => centrar 4 (pretty (col + 1)))
             <$> rango (Z.to_nat (columnas t))) +:+ LF +:+
     lineas ((fun fila =>
                (fun col => match celda t fila col with
                            | Some x => (mostrar_celda_columna fila col r c x).1
                            | None => ""
                            end) <$> rango (Z.to_nat (columnas t)))
               <$> rango (Z.to_nat (filas t))) +:+
     "  " +:+ repetir "----" (Z.to_nat (columnas t)) +:+ LF,
     Ok tt).
Proof.
  intros Hrect. unfold mostrar_resaltado, mostrar_numeros, columnas, filas.
  rewrite !Nat2Z.id.
  set (C := length (default [] (head t))).
  rewrite (para_texto (rango C) _ (fun col => centrar 4 (pretty (col + 1))))
    by reflexivity.
  rewrite (para_texto (rango (length t)) _
             (fun fila => "  |" +:+
                unir ((fun col => match celda t fila col with
                                  | Some x =>
                                      (mostrar_celda_columna fila col r c x).1
                                  | None => ""
                                  end) <$> rango C) +:+ LF)).
  - unfold imprimir, mbind, Imp_bind. cbn [fst snd]. unfold lineas.
    rewrite <- list_fmap_compose. unfold compose.
    rewrite !append_asociativa. reflexivity.
  - intros fila Hfila. apply elem_of_rango in Hfila.
    unfold imprimir at 1. apply Imp_bind_texto.
    rewrite (para_texto (rango C) _
               (fun col => match celda t fila col with
                           | Some x => (mostrar_celda_columna fila col r c x).1
                           | None => ""
                           end)).
    + reflexivity.
    + intros col Hcol. apply elem_of_rango in Hcol.
      destruct (celda_dentro t fila col Hrect) as [x Hx];
        [unfold filas; lia|unfold columnas; fold C; lia|].
      rewrite getitem2_celda, Hx by lia. rewrite evaluar_bind.
      apply mostrar_celda_columna_texto.
Qed.

Lemma mostrar_tablero_columna_resalta_aux t t' ficha c fila :
  rectangular t -> gravedad t ->
  colocar_ficha t ficha c = (Ok true, t') -> fila_de_caida t c fila ->
  (exists celdas : list (list string),
     mostrar_tablero_columna t' c
     = (LF +:+ "  " +:+
        unir ((fun col => centrar 4 (pretty (col + 1)))
                <$> rango (Z.to_nat (columnas t))) +:+ LF +:+
        lineas celdas +:+
        "  " +:+ repetir "----" (Z.to_nat (columnas t)) +:+ LF,
        Ok tt) /\
     length celdas = Z.to_nat (filas t) /\
     Forall (fun l => length l = Z.to_nat (columnas t)) celdas /\
     forall f col x,
       celda t' f col = Some x ->
       exists s,
         celdas !! Z.to_nat f ≫= (.!! Z.to_nat col) = Some s /\
         (f = filas t - 1 /\ col = c ->
          s = " " +:+ COLOR_ULTIMA +:+
              (if x =? FICHA_CIRCULO then "O" else "X") +:+
              COLOR_RESET +:+ " |") /\
         (~ (f = filas t - 1 /\ col = c) -> s = (mostrar_celda x).1)) /\
  (exists x, celda t' (filas t - 1) c = Some x /\ x <> CASILLA_VACIA) /\
  (fila = filas t - 1 <-> columna_vacia t c).
Proof.
  intros Hrect Hg Hcol Hcaida.
  destruct (colocar_ficha_invariantes _ _ _ _ _ Hrect Hg Hcol)
    as (Hrect' & Hg' & Hf' & Hc').
  destruct (colocar_ficha_casos _ _ _ _ _ Hcol)
    as [(Hne & _)|(_ & Hv & Hc & fila' & Hcaida' & ->)]; [congruence|].
  rewrite (fila_de_caida_unica _ _ _ _ Hcaida' Hcaida) in *. clear fila' Hcaida'.
  set (t' := poner t fila c ficha) in *.
  destruct Hcaida as [H0 Hbajo].
  pose proof (celda_filas _ _ _ _ H0) as Hfila.
  assert (Hno : ~ columna_vacia t' c).
  { intros Hvacia. specialize (Hvacia fila). rewrite Hf' in Hvacia.
    unfold t' in Hvacia. rewrite (celda_poner_eq t fila c _ ficha H0) in Hvacia.
    apply ficha_valida_no_vacia in Hv. specialize (Hvacia Hfila). congruence. }
  assert (Hc2 : 0 <= c < columnas t') by (rewrite Hc'; assumption).
  destruct (fila_ultima_fondo t' c Hrect' Hg' Hc2) as [_ Hfondo].
  destruct (Hfondo Hno) as [Hp Hx]. rewrite Hf' in Hp, Hx.
  split; [|split; [assumption|]].
  - eexists. split; [|split; [|split]].
    + rewrite mostrar_tablero_columna_unfold;
        [|apply (columnas_no_vacio t' c); assumption|assumption].
      rewrite Hp, evaluar_bind.
      rewrite (mostrar_resaltado_texto t' (filas t - 1) c Hrect').
      rewrite Hf', Hc'. reflexivity.
    + rewrite length_fmap. unfold rango. rewrite length_fmap, length_seq.
      reflexivity.
    + apply Forall_fmap, Forall_forall. intros f _. simpl.
      rewrite length_fmap. unfold rango. rewrite length_fmap, length_seq.
      reflexivity.
    + intros f col x Hcelda.
      destruct (celda_fuera _ _ _ _ Hrect' Hcelda) as [Hf Hcol'].
      rewrite Hf' in Hf. rewrite Hc' in Hcol'.
      rewrite list_lookup_fmap, rango_lookup by lia. simpl.
      rewrite list_lookup_fmap, rango_lookup by lia. simpl.
      rewrite Hcelda. eexists. split; [reflexivity|].
      unfold mostrar_celda_columna, mostrar_celda. split.
      * intros [-> ->]. destruct Hx as (y & Hy & Hney).
        assert (x = y) as -> by congruence.
        rewrite (proj2 (Z.eqb_neq y CASILLA_VACIA)) by assumption.
        rewrite !Z.eqb_refl. reflexivity.
      * intros Hotra.
        destruct (x =? CASILLA_VACIA); [reflexivity|].
        destruct ((f =? filas t - 1) && (col =? c)) eqn:E; [|reflexivity].
        zbool. exfalso. apply Hotra. lia.
  - split.
    + intros -> f Hf. destruct (decide (f = filas t - 1)) as [->|Hne];
        [assumption|].
      apply (Hg f (filas t - 1) c); [lia|assumption].
    + intros Hvacia. destruct (decide (fila = filas t - 1)) as [|Hne];
        [assumption|]. exfalso.
      apply (Hbajo (filas t - 1)); [lia|]. apply Hvacia. lia.
Qed.

(** X16. Which piece [mostrar_tablero_columna] highlights.  On a grid that
    obeys gravity, after [colocar_ficha] has placed a piece in a column,
    [mostrar_tablero_columna] for that column prints the line of column
    numbers, one line for each row and the closing line.  The cell of the
    bottom row in that column holds a piece and is the one printed between
    [COLOR_ULTIMA] and [COLOR_RESET]; every other cell is printed as
    [mostrar_tablero] prints it.  The highlighted piece is the one just
    placed exactly when the column was empty before the move. *)
Theorem mostrar_tablero_columna_resalta
    (t t' : tablero) (ficha c fila : Z) :
  rectangular t -> gravedad t ->
  colocar_ficha t ficha c = (Ok true, t') -> fila_de_caida t c fila ->
  (exists celdas : list (list string),
     mostrar_tablero_columna t' c
     = (LF +:+ "  " +:+
        unir ((fun col => centrar 4 (pretty (col + 1)))
                <$> rango (Z.to_nat (columnas t))) +:+ LF +:+
        lineas celdas +:+
        "  " +:+ repetir "----" (Z.to_nat (columnas t)) +:+ LF,
        Ok tt) /\
     length celdas = Z.to_nat (filas t) /\
     Forall (fun l => length l = Z.to_nat (columnas t)) celdas /\
     forall f col x,
       celda t' f col = Some x ->
       exists s,
         celdas !! Z.to_nat f ≫= (.!! Z.to_nat col) = Some s /\
         (f = filas t - 1 /\ col = c ->
          s = " " +:+ COLOR_ULTIMA +:+
              (if x =? FICHA_CIRCULO then "O" else "X") +:+
              COLOR_RESET +:+ " |") /\
         (~ (f = filas t - 1 /\ col = c) -> s = (mostrar_celda x).1)) /\
  (exists x, celda t' (filas t - 1) c = Some x /\ x <> CASILLA_VACIA) /\
  (fila = filas t - 1 <-> columna_vacia t c).
Proof. apply mostrar_tablero_columna_resalta_aux. Qed.

Lemma mostrar_tablero_columna_resalta_witness :
  (exists celdas : list (list string),
     mostrar_tablero_columna (poner tablero_tres 4 1 2) 1
     = (LF +:+ "  " +:+
        unir ((fun col => centrar 4 (pretty (col + 1)))
                <$> rango (Z.to_nat (columnas tablero_tres))) +:+ LF +:+
        lineas celdas +:+
        "  " +:+ repetir "----" (Z.to_nat (columnas tablero_tres)) +:+ LF,
        Ok tt) /\
     length celdas = Z.to_nat (filas tablero_tres) /\
     Forall (fun l => length l = Z.to_nat (columnas tablero_tres)) celdas /\
     forall f col x,
       celda (poner tablero_tres 4 1 2) f col = Some x ->
       exists s,
         celdas !! Z.to_nat f ≫= (.!! Z.to_nat col) = Some s /\
         (f = filas tablero_tres - 1 /\ col = 1 ->
          s = " " +:+ COLOR_ULTIMA +:+
              (if x =? FICHA_CIRCULO then "O" else "X") +:+
              COLOR_RESET +:+ " |") /\
         (~ (f = filas tablero_tres - 1 /\ col = 1) ->
          s = (mostrar_celda x).1)) /\
  (exists x, celda (poner tablero_tres 4 1 2) (filas tablero_tres - 1) 1 = Some x /\
             x <> CASILLA_VACIA) /\
  (4 = filas tablero_tres - 1 <-> columna_vacia tablero_tres 1).
Proof.
  apply (mostrar_tablero_columna_resalta tablero_tres
           (poner tablero_tres 4 1 2) 2 1 4).
  - apply rectangular_tablero_tres.
  - apply gravedad_tablero_tres.
  - reflexivity.
  - split; [reflexivity|]. intros f Hf. unfold filas in Hf. simpl in Hf.
    assert (f = 5) as -> by lia. discriminate.
Defined.

(** X17. The two display functions on a grid.  Neither fails;
    [mostrar_tablero_columna] prints nothing for a column out of range,
    and for a column within range that holds no piece it prints exactly the
    text of [mostrar_tablero], with no cell highlighted. *)
Theorem mostrar_tablero_columna_sin_ficha (t : tablero) (c : Z) :
  rectangular t ->
  (mostrar_tablero t).2 = Ok tt /\
  (mostrar_tablero_columna t c).2 = Ok tt /\
  (~ 0 <= c < columnas t -> mostrar_tablero_columna t c = ("", Ok tt)) /\
  (0 <= c < columnas t -> columna_vacia t c ->
   mostrar_tablero_columna t c = mostrar_tablero t).
Proof.
  intros Hrect.
  assert (Hfuera : ~ 0 <= c < columnas t ->
                   mostrar_tablero_columna t c = ("", Ok tt)).
  { intros Hc. unfold mostrar_tablero_columna.
    destruct t as [|fila0 t0]; [reflexivity|].
    destruct (fuera_de_rango fila0 c) eqn:Hr; [reflexivity|].
    apply fuera_de_rango_false with (t := t0) in Hr. contradiction. }
  assert (Hunit : forall m : Imp unit, (exists u, m.2 = Ok u) -> m.2 = Ok tt).
  { intros m [[] Hu]. assumption. }
  split; [|split; [|split; [assumption|]]].
  - destruct t as [|fila0 t0] eqn:Et; [reflexivity|]. rewrite <- Et in *.
    rewrite <- (mostrar_tablero_resaltado t 0) by congruence.
    apply Hunit, mostrar_resaltado_fin. assumption.
  - destruct (decide (0 <= c < columnas t)) as [Hc|Hc];
      [|rewrite Hfuera by assumption; reflexivity].
    rewrite mostrar_tablero_columna_unfold;
      [|apply (columnas_no_vacio t c); assumption|assumption].
    destruct (primera_ocupada_desc_total t c (length t) Hrect Hc) as [r Hp];
      [lia|].
    rewrite Hp, evaluar_bind. apply Hunit, mostrar_resaltado_fin. assumption.
  - intros Hc Hvacia.
    rewrite mostrar_tablero_columna_unfold;
      [|apply (columnas_no_vacio t c); assumption|assumption].
    rewrite (fila_ultima_vacia t c Hrect Hc Hvacia), evaluar_bind.
    apply mostrar_tablero_resaltado. apply (columnas_no_vacio t c). assumption.
Qed.

Lemma mostrar_tablero_columna_sin_ficha_witness :
  (mostrar_tablero tablero_tres).2 = Ok tt /\
  (mostrar_tablero_columna tablero_tres 4).2 = Ok tt /\
  (~ 0 <= 4 < columnas tablero_tres ->
   mostrar_tablero_columna tablero_tres 4 = ("", Ok tt)) /\
  (0 <= 4 < columnas tablero_tres -> columna_vacia tablero_tres 4 ->
   mostrar_tablero_columna tablero_tres 4 = mostrar_tablero tablero_tres).
Proof.
  apply (mostrar_tablero_columna_sin_ficha tablero_tres 4).
  apply rectangular_tablero_tres.
Defined.

(** ** Keyboard input *)

Lemma solicitar_numero_devuelve int_de mensaje minimo maximo entradas :
  forall v resto,
    (solicitar_numero int_de mensaje minimo maximo entradas).2
    = (Devuelve v, resto) <->
    exists rechazadas s,
      entradas = rechazadas ++ Linea s :: resto /\
      Forall (rechazada int_de minimo maximo) rechazadas /\
      int_de s = Some v /\ minimo <= v <= maximo.
Proof.
  induction entradas as [|e entradas IH]; intros v resto.
  - simpl. split; [discriminate|].
    intros (rs & s & Heq & _). destruct rs; discriminate.
  - destruct e as [s|]; cbn [solicitar_numero].
    + destruct (int_de s) as [valor|] eqn:Es.
      * destruct ((minimo <=? valor) && (valor <=? maximo)) eqn:E.
        -- zbool. cbn [snd]. split.
           ++ intros [= <- <-]. exists [], s. simpl. auto.
           ++ intros (rs & s' & Heq & Hrs & Hs' & Hv).
              destruct rs as [|r rs].
              ** simpl in Heq. injection Heq as <- <-.
                 rewrite Es in Hs'. injection Hs' as <-. reflexivity.
              ** exfalso. simpl in Heq. injection Heq as <- _.
                 apply Forall_cons in Hrs as [(s0 & [= <-] & Hr) _].
                 destruct Hr as [Hr|(v' & Hr & Hno)]; [congruence|].
                 rewrite Es in Hr. injection Hr as <-. lia.
        -- cbn [snd]. rewrite IH. split.
           ++ intros (rs & s' & -> & Hrs & Hs' & Hv).
              exists (Linea s :: rs), s'. split; [reflexivity|].
              split; [|auto]. constructor; [|assumption].
              exists s. split; [reflexivity|]. right. exists valor.
              split; [assumption|].
              apply andb_false_iff in E as [E|E]; zbool; lia.
           ++ intros (rs & s' & Heq & Hrs & Hs' & Hv).
              destruct rs as [|r rs].
              ** exfalso. simpl in Heq. injection Heq as <- <-.
                 rewrite Es in Hs'. injection Hs' as <-.
                 apply andb_false_iff in E as [E|E]; zbool; lia.
              ** simpl in Heq. injection Heq as <- ->.
                 apply Forall_cons in Hrs as [_ Hrs].
                 exists rs, s'. auto.
      * cbn [snd]. rewrite IH. split.
        -- intros (rs & s' & -> & Hrs & Hs' & Hv).
           exists (Linea s :: rs), s'. split; [reflexivity|].
           split; [|auto]. constructor; [|assumption].
           exists s. split; [reflexivity|]. left. assumption.
        -- intros (rs & s' & Heq & Hrs & Hs' & Hv).
           destruct rs as [|r rs].
           ++ exfalso. simpl in Heq. injection Heq as <- <-. congruence.
           ++ simpl in Heq. injection Heq as <- ->.
              apply Forall_cons in Hrs as [_ Hrs].
              exists rs, s'. auto.
    + cbn [snd]. split; [discriminate|].
      intros (rs & s' & Heq & Hrs & _). exfalso.
      destruct rs as [|r rs]; [discriminate|].
      simpl in Heq. injection Heq as <- _.
      apply Forall_cons in Hrs as [(s0 & Hs0 & _) _]. discriminate.
Qed.

Lemma rechazada_dec int_de minimo maximo e :
  rechazada int_de minimo maximo e \/
  e = Interrupcion \/
  exists s v, e = Linea s /\ int_de s = Some v /\ minimo <= v <= maximo.
Proof.
  destruct e as [s|]; [|auto].
  destruct (int_de s) as [v|] eqn:Es.
  - destruct (decide (minimo <= v <= maximo)) as [Hv|Hv].
    + right. right. eauto.
    + left. exists s. split; [reflexivity|]. right. eauto.
  - left. exists s. auto.
Qed.

(** The inputs turned down are skipped. *)
Lemma solicitar_numero_rechazadas int_de mensaje minimo maximo rs cola :
  Forall (rechazada int_de minimo maximo) rs ->
  (solicitar_numero int_de mensaje minimo maximo (rs ++ cola)).2
  = (solicitar_numero int_de mensaje minimo maximo cola).2.
Proof.
  induction 1 as [|e rs (s & -> & He) Hrs IH]; [reflexivity|].
  cbn [app solicitar_numero].
  destruct He as [He|(v & He & Hno)]; rewrite He; [assumption|].
  destruct ((minimo <=? v) && (v <=? maximo)) eqn:E; [|assumption].
  exfalso. zbool. lia.
Qed.

(** X18. The prompt of [solicitar_numero].  The inputs are read in order;
    every line that is not an integer of the range is turned down and the
    prompt repeated; the function returns the first integer of the range,
    leaving the inputs after it unread; it ends the program with exit code
    0 if the user interrupts before that, and the end of the input reaches
    the caller as an error.  A value returned is always within the
    range. *)
Theorem solicitar_numero_spec
    (int_de : string -> option Z) (mensaje : string) (minimo maximo : Z)
    (entradas : list entrada) :
  (exists rechazadas cola,
     entradas = rechazadas ++ cola /\
     Forall (rechazada int_de minimo maximo) rechazadas /\
     match cola with
     | [] =>
         (solicitar_numero int_de mensaje minimo maximo entradas).2
         = (FinDeEntrada, [])
     | Interrupcion :: resto =>
         (solicitar_numero int_de mensaje minimo maximo entradas).2
         = (Sale 0, resto)
     | Linea s :: resto =>
         exists v, int_de s = Some v /\ minimo <= v <= maximo /\
                   (solicitar_numero int_de mensaje minimo maximo entradas).2
                   = (Devuelve v, resto)
     end) /\
  (forall v resto,
     (solicitar_numero int_de mensaje minimo maximo entradas).2
     = (Devuelve v, resto) -> minimo <= v <= maximo).
Proof.
  split.
  - induction entradas as [|e entradas (rs & cola & -> & Hrs & Hcola)].
    + exists [], []. split; [reflexivity|]. split; [constructor|reflexivity].
    + destruct (rechazada_dec int_de minimo maximo e)
        as [He|[->|(s & v & -> & Hs & Hv)]].
      * exists (e :: rs), cola. split; [reflexivity|].
        split; [constructor; assumption|].
        change (e :: rs ++ cola) with ((e :: rs) ++ cola).
        rewrite (solicitar_numero_rechazadas int_de mensaje minimo maximo
                   (e :: rs) cola) by (constructor; assumption).
        rewrite (solicitar_numero_rechazadas int_de mensaje minimo maximo
                   rs cola Hrs) in Hcola.
        exact Hcola.
      * exists [], (Interrupcion :: rs ++ cola).
        split; [reflexivity|]. split; [constructor|reflexivity].
      * exists [], (Linea s :: rs ++ cola).
        split; [reflexivity|]. split; [constructor|].
        exists v. split; [assumption|]. split; [assumption|].
        cbn [app solicitar_numero]. rewrite Hs.
        rewrite (proj2 (Z.leb_le minimo v)), (proj2 (Z.leb_le v maximo)) by lia.
        reflexivity.
  - intros v resto Hd.
    apply solicitar_numero_devuelve in Hd as (rs & s & _ & _ & _ & Hv).
    assumption.
Qed.

(** X19. [preguntar_jugar_otra_vez] answers [True] exactly when the first
    input that is an integer among 1 and 2 is 1, and [False] exactly when
    it is 2; the inputs before it are lines turned down, those after it
    are left unread. *)
Theorem preguntar_jugar_otra_vez_spec
    (int_de : string -> option Z) (entradas : list entrada)
    (b : bool) (resto : list entrada) :
  (preguntar_jugar_otra_vez int_de entradas).2 = (Devuelve b, resto) <->
  exists rechazadas s v,
    entradas = rechazadas ++ Linea s :: resto /\
    Forall (rechazada int_de 1 2) rechazadas /\
    int_de s = Some v /\
    ((v = 1 /\ b = true) \/ (v = 2 /\ b = false)).
Proof.
  unfold preguntar_jugar_otra_vez. cbn [snd].
  destruct (solicitar_numero int_de "Selecciona una opción: " 1 2 entradas)
    as [texto [fin resto']] eqn:E.
  cbn [fst snd]. split.
  - intros Hfin. destruct fin as [opcion| |]; try discriminate.
    injection Hfin as <- <-.
    assert (Hd : (solicitar_numero int_de "Selecciona una opción: " 1 2
                    entradas).2 = (Devuelve opcion, resto'))
      by (rewrite E; reflexivity).
    apply solicitar_numero_devuelve in Hd as (rs & s & -> & Hrs & Hs & Hv).
    exists rs, s, opcion. split; [reflexivity|]. split; [assumption|].
    split; [assumption|].
    destruct (decide (opcion = 1)) as [->|Hne]; [left; auto|].
    right. split; [lia|]. apply Z.eqb_neq. assumption.
  - intros (rs & s & v & Heq & Hrs & Hs & Hv).
    assert (Hd : (solicitar_numero int_de "Selecciona una opción: " 1 2
                    entradas).2 = (Devuelve v, resto)).
    { apply solicitar_numero_devuelve. exists rs, s.
      split; [assumption|]. split; [assumption|]. split; [assumption|].
      destruct Hv as [[-> _]|[-> _]]; lia. }
    rewrite E in Hd. cbn [snd] in Hd. injection Hd as -> ->.
    destruct Hv as [[-> ->]|[-> ->]]; reflexivity.
Qed.

(** ** Edge cases of the line detector *)

Lemma fichas_en_linea_imposible t ficha c t' :
  rectangular t -> colocar_ficha t ficha c = (Ok false, t') ->
  fichas_en_linea t ficha c = (Ok 0, t).
Proof.
  intros Hrect. unfold colocar_ficha, fichas_en_linea.
  destruct t as [|fila0 t0] eqn:Et; [reflexivity|].
  destruct (fuera_de_rango fila0 c) eqn:Hr; [reflexivity|].
  destruct (negb (ficha_valida ficha)); [reflexivity|].
  apply fuera_de_rango_false with (t := t0) in Hr.
  rewrite <- Et in *. intros Hcol. munfold.
  apply colocar_bucle_casos in Hcol; [|lia].
  destruct Hcol as [(_ & _ & Hall)|(Hb & _)]; [|discriminate].
  destruct (primera_libre_total t c (length t) Hrect Hr) as [r Hp]; [lia|].
  rewrite Hp. apply primera_libre_rango_desc in Hp; [|lia].
  destruct Hp as [[-> _]|(Hr0 & H0 & _)]; [reflexivity|].
  exfalso. apply (Hall eq_refl r); assumption.
Qed.

(** X20. [fichas_en_linea] is 0 exactly for the moves that cannot be made.
    On a grid it always returns a value, which is 0 when [colocar_ficha]
    with the same piece and column fails (piece not valid, column out of
    range or full) and at least 1 when it succeeds. *)
Theorem fichas_en_linea_cero_sii (t : tablero) (ficha c : Z) :
  rectangular t ->
  exists v,
    fichas_en_linea t ficha c = (Ok v, t) /\
    (v = 0 <-> (colocar_ficha t ficha c).1 = Ok false) /\
    (1 <= v <-> (colocar_ficha t ficha c).1 = Ok true).
Proof.
  intros Hrect.
  destruct (colocar_ficha_total t ficha c Hrect) as (b & t' & Hcol).
  rewrite Hcol. cbn [fst]. destruct b.
  - destruct (colocar_ficha_casos _ _ _ _ _ Hcol)
      as [(Hne & _)|(_ & Hv & Hc & fila & Hcaida & _)]; [congruence|].
    destruct (fichas_en_linea_caida t ficha c fila Hrect Hv Hc Hcaida)
      as (m & Hm & Hfichas).
    destruct (maximo_direcciones_ok (poner t fila c ficha) fila c ficha
                direcciones (rectangular_poner _ _ _ _ Hrect)
                direcciones_no_nulas 0) as (m' & Hm' & _ & Hpos).
    rewrite Hm in Hm'. injection Hm' as <-.
    assert (1 <= m) by (apply Hpos; discriminate).
    exists m. split; [assumption|]. split; split; try discriminate; auto; lia.
  - exists 0. split; [eapply fichas_en_linea_imposible; eassumption|].
    split; split; try discriminate; auto; lia.
Qed.

Lemma fichas_en_linea_cero_sii_witness :
  exists v,
    fichas_en_linea tablero_columna_llena 1 0 = (Ok v, tablero_columna_llena) /\
    (v = 0 <-> (colocar_ficha tablero_columna_llena 1 0).1 = Ok false) /\
    (1 <= v <-> (colocar_ficha tablero_columna_llena 1 0).1 = Ok true).
Proof.
  apply (fichas_en_linea_cero_sii tablero_columna_llena 1 0).
  apply rectangular_replicate.
Defined.

Lemma contar_bucle_sin_avance t ficha f c :
  rectangular t -> celda t f c = Some ficha ->
  forall fuel contador,
    contar_bucle fuel t (filas t) (columnas t) ficha 0 0 f c contador = Diverge.
Proof.
  intros Hrect Hcelda.
  destruct (celda_fuera _ _ _ _ Hrect Hcelda) as [Hf Hc].
  induction fuel as [|fuel IH]; intros contador; [reflexivity|].
  simpl.
  rewrite (proj2 (Z.leb_le 0 f)), (proj2 (Z.ltb_lt f (filas t))),
    (proj2 (Z.leb_le 0 c)), (proj2 (Z.ltb_lt c (columnas t))) by lia.
  simpl. rewrite getitem2_celda, Hcelda by lia. msimpl.
  rewrite Z.eqb_refl, !Z.add_0_r. apply IH.
Qed.

(** X21. The direction (0, 0).  On a grid, [contar_fichas_direccion] called
    with the direction (0, 0), which no caller passes, never returns when
    the cell it starts from holds the piece counted: its loop has not
    stopped after any number of iterations; on any other start it returns
    0. *)
Theorem contar_fichas_direccion_sin_direccion (t : tablero) (f c ficha : Z) :
  rectangular t ->
  (celda t f c = Some ficha ->
   contar_fichas_direccion t f c ficha 0 0 = Diverge /\
   forall fuel contador,
     contar_bucle fuel t (filas t) (columnas t) ficha 0 0 f c contador
     = Diverge) /\
  (celda t f c <> Some ficha ->
   contar_fichas_direccion t f c ficha 0 0 = Ok 0).
Proof.
  intros Hrect. split.
  - intros Hcelda. split; [|apply contar_bucle_sin_avance; assumption].
    rewrite contar_fichas_direccion_unfold.
    + rewrite !Z.add_0_r. apply contar_bucle_sin_avance; assumption.
    + intros ->. rewrite celda_nil in Hcelda. discriminate.
  - intros Hno. destruct (decide (t = [])) as [->|Hne]; [reflexivity|].
    rewrite contar_fichas_direccion_unfold by assumption.
    rewrite !Z.add_0_r. cbn [contar_bucle].
    destruct ((0 <=? f) && (f <? filas t) && (0 <=? c) && (c <? columnas t))
      eqn:E; [|reflexivity].
    zbool.
    destruct (celda_dentro t f c Hrect) as [x Hx]; [lia|lia|].
    rewrite getitem2_celda, Hx by lia. msimpl.
    destruct (x =? ficha) eqn:Ex; [|reflexivity]. zbool. congruence.
Qed.

Lemma contar_fichas_direccion_sin_direccion_witness :
  contar_fichas_direccion tablero_tres 5 1 1 0 0 = Diverge /\
  forall fuel contador,
    contar_bucle fuel tablero_tres (filas tablero_tres) (columnas tablero_tres)
      1 0 0 5 1 contador = Diverge.
Proof.
  apply (proj1 (contar_fichas_direccion_sin_direccion tablero_tres 5 1 1
                  rectangular_tablero_tres)).
  reflexivity.
Defined.

(** ** Win detection is complete *)

Lemma ventana_dec (P : Z -> Prop) `{!forall i, Decision (P i)} (s : Z) (k : nat) :
  (exists i, s <= i < s + Z.of_nat k /\ P i) \/
  (forall i, s <= i < s + Z.of_nat k -> ~ P i).
Proof.
  induction k as [|k [(i & Hi & HP)|IH]].
  - right. intros i Hi. lia.
  - left. exists i. split; [lia|assumption].
  - destruct (decide (P (s + Z.of_nat k))) as [HP|HP].
    + left. exists (s + Z.of_nat k). split; [lia|assumption].
    + right. intros i Hi.
      destruct (decide (i = s + Z.of_nat k)) as [->|]; [assumption|].
      apply IH. lia.
Qed.

Lemma en_linea_traslada t f0 c0 p df dc n s i0 :
  (forall i, s <= i < s + n -> en_racha t f0 c0 p df dc i) ->
  s <= i0 < s + n ->
  en_linea t (f0 + i0 * df) (c0 + i0 * dc) p df dc n.
Proof.
  intros Hwin Hi0. exists (s - i0). split; [lia|].
  intros j Hj. specialize (Hwin (i0 + j) ltac:(lia)).
  unfold en_racha in *.
  replace (f0 + i0 * df + j * df) with (f0 + (i0 + j) * df) by lia.
  replace (c0 + i0 * dc + j * dc) with (c0 + (i0 + j) * dc) by lia.
  assumption.
Qed.

(** A line on the board after a piece was put either passes through the
    cell of that piece or was on the board before. *)
Lemma en_linea_poner t fila c ficha f0 c0 p df dc n :
  0 <= n -> celda t fila c = Some CASILLA_VACIA ->
  en_linea (poner t fila c ficha) f0 c0 p df dc n ->
  (p = ficha /\ en_linea (poner t fila c ficha) fila c ficha df dc n) \/
  en_linea t f0 c0 p df dc n.
Proof.
  intros Hn Hvacia (s & Hs & Hwin).
  pose proof (celda_nonneg _ _ _ _ Hvacia) as [Hfila Hc].
  destruct (ventana_dec
              (fun i => (f0 + i * df, c0 + i * dc) = (fila, c)) s (Z.to_nat n))
    as [(i0 & Hi0 & Heq)|Hfuera].
  - rewrite Z2Nat.id in Hi0 by lia. left.
    injection Heq as Hf0 Hc0.
    pose proof (Hwin i0 Hi0) as Hp. unfold en_racha in Hp.
    rewrite Hf0, Hc0, (celda_poner_eq t fila c _ ficha Hvacia) in Hp.
    injection Hp as <-. split; [reflexivity|].
    pose proof (en_linea_traslada _ _ _ _ _ _ _ _ _ Hwin Hi0) as Hl.
    rewrite Hf0, Hc0 in Hl. exact Hl.
  - rewrite Z2Nat.id in Hfuera by lia. right.
    exists s. split; [assumption|]. intros i Hi.
    specialize (Hwin i Hi). unfold en_racha in *.
    rewrite celda_poner_ne in Hwin; auto.
Qed.

Lemma victoria_sii_hay_linea_aux t t' ficha c n :
  rectangular t -> gravedad t -> 1 <= n -> ~ hay_linea t n ->
  colocar_ficha t ficha c = (Ok true, t') ->
  exists b, comprobar_linea t' c n = Ok b /\ (b = true <-> hay_linea t' n).
Proof.
  intros Hrect Hg Hn Hno Hcol.
  destruct (colocar_ficha_casos _ _ _ _ _ Hcol)
    as [(Hne & _)|(_ & Hv & Hc & fila & Hcaida & ->)]; [congruence|].
  pose proof (ficha_valida_no_vacia _ Hv) as Hficha.
  destruct (ancla_tras_colocar t c fila ficha Hg Hcaida Hficha)
    as [Hancla Hcelda].
  destruct (comprobar_linea_detecta (poner t fila c ficha) c n fila ficha
              (rectangular_poner _ _ _ _ Hrect) Hn Hancla Hcelda)
    as (b & Hb & Hiff).
  exists b. split; [assumption|]. rewrite Hiff. split.
  - intros Hlinea. exists fila, c, ficha. split; [assumption|].
    apply (existe_direccion
             (fun df dc => en_linea (poner t fila c ficha) fila c ficha df dc n)).
    assumption.
  - intros (f0 & c0 & p & Hp & Hlinea).
    apply (existe_direccion
             (fun df dc => en_linea (poner t fila c ficha) f0 c0 p df dc n))
      in Hlinea.
    destruct Hlinea as (d & Hd & Hlinea).
    destruct (en_linea_poner t fila c ficha f0 c0 p d.1 d.2 n
                ltac:(lia) (proj1 Hcaida) Hlinea) as [[-> Hl]|Hl].
    + exists d. split; assumption.
    + exfalso. apply Hno. exists f0, c0, p. split; [assumption|].
      apply (existe_direccion (fun df dc => en_linea t f0 c0 p df dc n)).
      exists d. split; assumption.
Qed.

(** X22. Looking only at the last piece is enough.  On a grid with gravity
    on which no [n] equal pieces are yet in line, after [colocar_ficha] has
    put a piece in a column, [comprobar_linea] on that column answers
    [True] exactly when somewhere on the board [n] consecutive cells hold
    the same piece along the horizontal (0, 1), the vertical (1, 0) or one
    of the diagonals (1, 1) and (1, -1). *)
Theorem victoria_sii_hay_linea (t t' : tablero) (ficha c n : Z) :
  rectangular t -> gravedad t -> 1 <= n -> ~ hay_linea t n ->
  colocar_ficha t ficha c = (Ok true, t') ->
  exists b, comprobar_linea t' c n = Ok b /\ (b = true <-> hay_linea t' n).
Proof. apply victoria_sii_hay_linea_aux. Qed.

Lemma ocupada_tablero_tres f c p :
  celda tablero_tres f c = Some p -> p <> CASILLA_VACIA -> f = 5 /\ 0 <= c <= 2.
Proof.
  intros H Hp.
  destruct (celda_fuera _ _ _ _ rectangular_tablero_tres H) as [Hf Hc].
  unfold filas, columnas in *. simpl in Hf, Hc.
  assert (f = 0 \/ f = 1 \/ f = 2 \/ f = 3 \/ f = 4 \/ f = 5) as Hfs by lia.
  assert (c = 0 \/ c = 1 \/ c = 2 \/ c = 3 \/ c = 4 \/ c = 5 \/ c = 6)
    as Hcs by lia.
  destruct Hfs as [->|[->|[->|[->|[->| ->]]]]];
    destruct Hcs as [->|[->|[->|[->|[->|[->| ->]]]]]];
    vm_compute in H; injection H as <-;
    solve [exfalso; apply Hp; reflexivity | split; lia].
Qed.

(** Three pieces in a row are no line of four. *)
Lemma sin_linea_tablero_tres : ~ hay_linea tablero_tres 4.
Proof.
  intros (f0 & c0 & p & Hp & Hlinea).
  assert (Hdos : forall df dc,
            en_linea tablero_tres f0 c0 p df dc 4 ->
            exists s, (f0 + s * df = 5 /\ 0 <= c0 + s * dc <= 2) /\
                      (f0 + (s + 1) * df = 5 /\ 0 <= c0 + (s + 1) * dc <= 2) /\
                      (f0 + (s + 3) * df = 5 /\ 0 <= c0 + (s + 3) * dc <= 2)).
  { intros df dc (s & Hs & Hwin). exists s.
    split; [|split]; (eapply ocupada_tablero_tres; [apply Hwin; lia|exact Hp]). }
  destruct Hlinea as [H|[H|[H|H]]]; apply Hdos in H; destruct H as (s & ?); lia.
Qed.

Lemma victoria_sii_hay_linea_witness :
  exists b,
    comprobar_linea (poner tablero_tres 5 3 1) 3 4 = Ok b /\
    (b = true <-> hay_linea (poner tablero_tres 5 3 1) 4).
Proof.
  apply (victoria_sii_hay_linea tablero_tres (poner tablero_tres 5 3 1) 1 3 4).
  - apply rectangular_tablero_tres.
  - apply gravedad_tablero_tres.
  - lia.
  - apply sin_linea_tablero_tres.
  - reflexivity.
Defined.
